(** * Fisheye stereo voxel reconstruction: triangulation and voxel accumulation

    A shallow embedding of the triangulation and voxel-accumulation engine of
    the [camera/] scripts, and the properties of its specification.

    Numbers.  Python and numpy floats are read as real numbers ([R]):
    rounding, overflow and NaN are outside the model, and the decimal
    literals of the source stand for the fractions they denote.  A direction
    of length zero, which numpy turns into NaN, is therefore outside the
    model as well.  Pixel intensities are 8-bit integers and are modelled in
    [Z]; pixel coordinates are [nat]; voxel indices are [Z].

    State.  Methods that update attributes take the state and return the new
    one.  Console and file output are left out.
*)

From Stdlib Require Import Reals Lra Lia ZArith List Bool.
From Stdlib Require String.
Import ListNotations.

Open Scope R_scope.

(** ** Vectors of three reals (numpy arrays of shape (3,)) *)

Record vec3 : Type := mkVec { vec_x : R; vec_y : R; vec_z : R }.

Definition vadd (u v : vec3) : vec3 :=
  mkVec (vec_x u + vec_x v) (vec_y u + vec_y v) (vec_z u + vec_z v).

Definition vsub (u v : vec3) : vec3 :=
  mkVec (vec_x u - vec_x v) (vec_y u - vec_y v) (vec_z u - vec_z v).

(** [k * v] and [v * k] with a scalar [k]. *)
Definition vscale (k : R) (v : vec3) : vec3 :=
  mkVec (k * vec_x v) (k * vec_y v) (k * vec_z v).

(** [v / k] with a scalar [k]. *)
Definition vdiv (v : vec3) (k : R) : vec3 :=
  mkVec (vec_x v / k) (vec_y v / k) (vec_z v / k).

(** [np.dot] *)
Definition dot (u v : vec3) : R :=
  vec_x u * vec_x v + vec_y u * vec_y v + vec_z u * vec_z v.

(** [np.linalg.norm] *)
Definition norm (v : vec3) : R := sqrt (dot v v).

(** Comparisons of floats, as booleans. *)
Definition Rgtb (x y : R) : bool := if Rgt_dec x y then true else false.
Definition Rltb (x y : R) : bool := if Rlt_dec x y then true else false.
Definition Rleb (x y : R) : bool := if Rle_dec x y then true else false.

(** Python's [int(x)] on a float: truncation toward zero. *)
Definition py_int (x : R) : Z :=
  if Rleb 0 x then Int_part x else (- Int_part (- x))%Z.

(** Literals of the source. *)
Definition parallel_cos : R := 996 / 1000.      (* 0.996 *)
Definition denom_eps : R := 1 / 1000000.        (* 1e-6 *)
Definition norm_eps : R := 1 / 10000000000.     (* 1e-10 *)

(** ** Images, masks and voxel grids (numpy arrays) *)

(** A grayscale frame: rows of 8-bit intensities. *)
Definition image : Type := list (list Z).

(** [img[y, x]] for an index pair inside the frame. *)
Definition pixel_at (img : image) (y x : nat) : Z :=
  nth x (nth y img []) 0%Z.

(** Element-wise combination of two arrays.  Frames of one camera pair have
    one fixed shape; on lists of different lengths the shorter one decides. *)
Definition map2 {A B C : Type} (f : A -> B -> C) (l1 : list A) (l2 : list B)
  : list C :=
  map (fun ab => f (fst ab) (snd ab)) (combine l1 l2).

(** [cv2.absdiff(a, b)] on 8-bit frames, and
    [np.abs(a.astype(np.int16) - b.astype(np.int16))]. *)
Definition absdiff (a b : image) : image :=
  map2 (map2 (fun x y => Z.abs (x - y))) a b.

(** [arr > k] *)
Definition gt_mask (arr : image) (k : Z) : list (list bool) :=
  map (map (fun v => (v >? k)%Z)) arr.

(** [m1 & m2] *)
Definition and_mask (m1 m2 : list (list bool)) : list (list bool) :=
  map2 (map2 andb) m1 m2.

Fixpoint where_row (y x : nat) (row : list bool) : list (nat * nat) :=
  match row with
  | [] => []
  | b :: row' =>
      if b then (y, x) :: where_row y (S x) row' else where_row y (S x) row'
  end.

Fixpoint where_rows (y : nat) (m : list (list bool)) : list (nat * nat) :=
  match m with
  | [] => []
  | row :: m' => where_row y 0 row ++ where_rows (S y) m'
  end.

(** [np.argwhere(m)], and [zip( *np.where(m))]: the index pairs [(y, x)] of the
    true entries, in row-major order. *)
Definition np_argwhere (m : list (list bool)) : list (nat * nat) :=
  where_rows 0 m.

(** [l[::step]] for a step of at least 1; [skip] elements are passed over
    before the next one is kept. *)
Fixpoint stride_from {A : Type} (step skip : nat) (l : list A) : list A :=
  match l with
  | [] => []
  | x :: l' =>
      match skip with
      | O => x :: stride_from step (pred step) l'
      | S k => stride_from step k l'
      end
  end.

Definition stride {A : Type} (step : nat) (l : list A) : list A :=
  stride_from step 0 l.

(** A voxel index triple, and a dense 3D array of confidences.  Cells are
    read and written at in-range indices only (established below). *)
Definition idx : Type := (Z * Z * Z)%type.

Definition idx_eqb (i j : idx) : bool :=
  let '(a, b, c) := i in
  let '(a', b', c') := j in
  (a =? a')%Z && (b =? b')%Z && (c =? c')%Z.

Definition grid : Type := idx -> R.

(** [np.zeros(shape)] *)
Definition zeros : grid := fun _ => 0.

(** [g[i] += w] *)
Definition grid_add (g : grid) (i : idx) (w : R) : grid :=
  fun j => if idx_eqb i j then g j + w else g j.

(** [g[mask] *= k] *)
Definition grid_scale_where (mask : idx -> bool) (g : grid) (k : R) : grid :=
  fun j => if mask j then g j * k else g j.

(** [g *= k] *)
Definition grid_scale (g : grid) (k : R) : grid :=
  fun j => g j * k.

(** ** stereo_voxel_reconstruction.py: class StereoVoxelReconstructor *)

Module StereoVoxelReconstructor.

(** The attributes set by [__init__] that the methods below read. *)
Record t : Type := mk {
  fx : R; fy : R; cx : R; cy : R; k1 : R;
  cam_left_pos : vec3;
  cam_right_pos : vec3;
  voxel_size : R;
  voxel_grid_size : Z * Z * Z;
  bounds_x : R * R;
  bounds_y : R * R;
  bounds_z : R * R;
  motion_threshold : Z;
  min_pixel_intensity : Z;
  max_triangulation_error : R
}.

(** [StereoVoxelReconstructor(baseline=0.5)] *)
Definition init : t := {|
  fx := 748; fy := 748; cx := 960; cy := 540; k1 := - (15 / 100);
  cam_left_pos := mkVec 0 0 0;
  cam_right_pos := mkVec (5 / 10) 0 0;
  voxel_size := 1 / 100;
  voxel_grid_size := (100, 100, 100)%Z;
  bounds_x := (- (25 / 100), 75 / 100);
  bounds_y := (- (5 / 10), 5 / 10);
  bounds_z := (0, 1);
  motion_threshold := 30;
  min_pixel_intensity := 100;
  max_triangulation_error := 10 / 100
|}.

Definition get_ray_direction (self : t) (pixel_x pixel_y : R) : vec3 :=
  let norm_x := (pixel_x - cx self) / fx self in
  let norm_y := (pixel_y - cy self) / fy self in
  let r := sqrt (norm_x ^ 2 + norm_y ^ 2) in
  let '(norm_x, norm_y) :=
    if Rgtb r 0 then
      let theta := atan r in
      let theta_distorted := theta * (1 + k1 self * theta ^ 2) in
      let scale := theta_distorted / r in
      (norm_x * scale, norm_y * scale)
    else (norm_x, norm_y) in
  let ray := mkVec norm_x norm_y 1 in
  vdiv ray (norm ray).

Definition closest_point_between_rays
    (origin1 dir1 origin2 dir2 : vec3) : option (vec3 * R) :=
  let dir1 := vdiv dir1 (norm dir1) in
  let dir2 := vdiv dir2 (norm dir2) in
  let dot_ := dot dir1 dir2 in
  if Rgtb (Rabs dot_) parallel_cos then None
  else
    let w0 := vsub origin1 origin2 in
    let a := dot dir1 dir1 in
    let b := dot dir1 dir2 in
    let c := dot dir2 dir2 in
    let d := dot dir1 w0 in
    let e := dot dir2 w0 in
    let denom := a * c - b * b in
    if Rltb (Rabs denom) denom_eps then None
    else
      let s := (b * e - c * d) / denom in
      let t := (a * e - b * d) / denom in
      let point1 := vadd origin1 (vscale s dir1) in
      let point2 := vadd origin2 (vscale t dir2) in
      let midpoint := vdiv (vadd point1 point2) 2 in
      let distance := norm (vsub point2 point1) in
      Some (midpoint, distance).

Definition triangulate_pixel_pair
    (self : t) (px_left py_left px_right py_right : R) : option (vec3 * R) :=
  let ray_left := get_ray_direction self px_left py_left in
  let ray_right := get_ray_direction self px_right py_right in
  match closest_point_between_rays
          (cam_left_pos self) ray_left (cam_right_pos self) ray_right with
  | None => None
  | Some (point_3d, error) =>
      if Rgtb error (max_triangulation_error self) then None
      else if Rltb (vec_z point_3d) 0 then None
      else if Rgtb (vec_z point_3d) 2 then None
      else Some (point_3d, error)
  end.

(** The attributes the methods below update. *)
Record state : Type := mkState {
  voxels : grid;
  prev_left : option image;
  prev_right : option image;
  frame_count : Z;
  voxel_count : Z;
  triangulation_count : Z
}.

Definition init_state : state := {|
  voxels := zeros;
  prev_left := None;
  prev_right := None;
  frame_count := 0;
  voxel_count := 0;
  triangulation_count := 0
|}.

(** [lo <= v < hi] *)
Definition in_interval (lo v hi : R) : bool := Rleb lo v && Rltb v hi.

Definition world_to_voxel (self : t) (world_pos : vec3) : option idx :=
  let x := vec_x world_pos in
  let y := vec_y world_pos in
  let z := vec_z world_pos in
  if negb (in_interval (fst (bounds_x self)) x (snd (bounds_x self))) then None
  else if negb (in_interval (fst (bounds_y self)) y (snd (bounds_y self)))
  then None
  else if negb (in_interval (fst (bounds_z self)) z (snd (bounds_z self)))
  then None
  else
    let vx := py_int ((x - fst (bounds_x self)) / voxel_size self) in
    let vy := py_int ((y - fst (bounds_y self)) / voxel_size self) in
    let vz := py_int ((z - fst (bounds_z self)) / voxel_size self) in
    let '(size_0, size_1, size_2) := voxel_grid_size self in
    let vx := Z.max 0 (Z.min vx (size_0 - 1)) in
    let vy := Z.max 0 (Z.min vy (size_1 - 1)) in
    let vz := Z.max 0 (Z.min vz (size_2 - 1)) in
    Some (vx, vy, vz).

Definition accumulate_voxel
    (self : t) (st : state) (world_pos : vec3) (confidence : R)
  : state * bool :=
  match world_to_voxel self world_pos with
  | None => (st, false)
  | Some voxel_idx =>
      ({| voxels := grid_add (voxels st) voxel_idx confidence;
          prev_left := prev_left st;
          prev_right := prev_right st;
          frame_count := frame_count st;
          voxel_count := voxel_count st + 1;
          triangulation_count := triangulation_count st |}, true)
  end.

(** A motion pixel [(x, y, intensity)]. *)
Definition motion_pixel : Type := (nat * nat * Z)%type.

(** [max_pixels] is a positive count (100 at every call site). *)
Definition detect_motion_pixels
    (self : t) (current : image) (previous : option image)
    (max_pixels : positive) : list motion_pixel :=
  match previous with
  | None => []
  | Some previous =>
      let diff := absdiff current previous in
      let motion_mask := gt_mask diff (motion_threshold self) in
      let valid_mask := gt_mask current (min_pixel_intensity self) in
      let combined_mask := and_mask motion_mask valid_mask in
      let coords := np_argwhere combined_mask in
      if (length coords =? 0)%nat then []
      else
        let pixels :=
          map (fun yx => (snd yx, fst yx, pixel_at current (fst yx) (snd yx)))
              coords in
        if (Pos.to_nat max_pixels <? length pixels)%nat then
          let step := (length pixels / Pos.to_nat max_pixels)%nat in
          firstn (Pos.to_nat max_pixels) (stride step pixels)
        else pixels
  end.

(** The body of the inner loop of [process_frame_pair].  The intensities are
    8-bit numpy scalars, so their sum wraps around at 256 before the
    division. *)
Definition try_pair (self : t) (pl pr : motion_pixel) (acc : state * Z)
  : state * Z :=
  let '(st, triangulations) := acc in
  let '(px_l, py_l, int_l) := pl in
  let '(px_r, py_r, int_r) := pr in
  match triangulate_pixel_pair self (INR px_l) (INR py_l) (INR px_r) (INR py_r)
  with
  | None => (st, triangulations)
  | Some (point_3d, error) =>
      let confidence := IZR ((int_l + int_r) mod 256) / (2 * 255) in
      let '(st, ok) := accumulate_voxel self st point_3d confidence in
      if ok then
        ({| voxels := voxels st;
            prev_left := prev_left st;
            prev_right := prev_right st;
            frame_count := frame_count st;
            voxel_count := voxel_count st;
            triangulation_count := triangulation_count st + 1 |},
         (triangulations + 1)%Z)
      else (st, triangulations)
  end.

Definition process_frame_pair (self : t) (st : state) (img_left img_right : image)
  : state * Z :=
  let pixels_left := detect_motion_pixels self img_left (prev_left st) 100 in
  let pixels_right := detect_motion_pixels self img_right (prev_right st) 100 in
  let st := {| voxels := voxels st;
               prev_left := Some img_left;
               prev_right := Some img_right;
               frame_count := frame_count st + 1;
               voxel_count := voxel_count st;
               triangulation_count := triangulation_count st |} in
  match pixels_left, pixels_right with
  | [], _ | _, [] => (st, 0%Z)
  | _, _ =>
      fold_left
        (fun acc pl =>
           fold_left (fun acc pr => try_pair self pl pr acc)
                     (firstn 50 pixels_right) acc)
        (firstn 50 pixels_left) (st, 0%Z)
  end.

(** The frames of a session, processed in order. *)
Definition process_frames (self : t) (st : state) (frames : list (image * image))
  : state :=
  fold_left (fun st f => fst (process_frame_pair self st (fst f) (snd f)))
            frames st.

End StereoVoxelReconstructor.

(** ** calibrated_stereo_reconstruction.py: class CalibratedStereoReconstructor *)

(** A 3x3 matrix, by rows. *)
Record mat3 : Type := mkMat { row_1 : vec3; row_2 : vec3; row_3 : vec3 }.

(** [M @ v] *)
Definition mat_vec (m : mat3) (v : vec3) : vec3 :=
  mkVec (dot (row_1 m) v) (dot (row_2 m) v) (dot (row_3 m) v).

Module CalibratedStereoReconstructor.

(** The attributes read from the calibration file and set by [__init__]. *)
Record t : Type := mk {
  fx_left : R; fy_left : R; cx_left : R; cy_left : R; k1_left : R;
  fx_right : R; fy_right : R; cx_right : R; cy_right : R; k1_right : R;
  cam_left_pos : vec3;
  cam_right_pos : vec3;
  R_right : mat3;
  voxel_size : R;
  voxel_grid_size : Z * Z * Z;
  bounds_x : R * R;
  bounds_y : R * R;
  bounds_z : R * R;
  motion_threshold : Z;
  min_pixel_intensity : Z;
  max_triangulation_error : R
}.

Definition get_ray_direction (pixel_x pixel_y fx fy cx cy k1 : R) : vec3 :=
  let norm_x := (pixel_x - cx) / fx in
  let norm_y := (pixel_y - cy) / fy in
  let r := sqrt (norm_x ^ 2 + norm_y ^ 2) in
  let '(norm_x, norm_y) :=
    if Rgtb r 0 then
      let theta := atan r in
      let theta_distorted := theta * (1 + k1 * theta ^ 2) in
      let scale := theta_distorted / r in
      (norm_x * scale, norm_y * scale)
    else (norm_x, norm_y) in
  let ray := mkVec norm_x norm_y 1 in
  vdiv ray (norm ray).

Definition get_left_ray (self : t) (pixel_x pixel_y : R) : vec3 :=
  get_ray_direction pixel_x pixel_y
    (fx_left self) (fy_left self) (cx_left self) (cy_left self) (k1_left self).

Definition get_right_ray (self : t) (pixel_x pixel_y : R) : vec3 :=
  let ray_right_cam :=
    get_ray_direction pixel_x pixel_y
      (fx_right self) (fy_right self) (cx_right self) (cy_right self)
      (k1_right self) in
  let ray_world := mat_vec (R_right self) ray_right_cam in
  vdiv ray_world (norm ray_world).

Definition closest_point_between_rays
    (origin1 dir1 origin2 dir2 : vec3) : option (vec3 * R) :=
  let dir1 := vdiv dir1 (norm dir1) in
  let dir2 := vdiv dir2 (norm dir2) in
  let dot_ := dot dir1 dir2 in
  if Rgtb (Rabs dot_) parallel_cos then None
  else
    let w0 := vsub origin1 origin2 in
    let a := dot dir1 dir1 in
    let b := dot dir1 dir2 in
    let c := dot dir2 dir2 in
    let d := dot dir1 w0 in
    let e := dot dir2 w0 in
    let denom := a * c - b * b in
    if Rltb (Rabs denom) denom_eps then None
    else
      let s := (b * e - c * d) / denom in
      let t := (a * e - b * d) / denom in
      let point1 := vadd origin1 (vscale s dir1) in
      let point2 := vadd origin2 (vscale t dir2) in
      let midpoint := vdiv (vadd point1 point2) 2 in
      let distance := norm (vsub point2 point1) in
      Some (midpoint, distance).

(** The counter [triangulation_attempts] only feeds the statistics and is
    left out. *)
Definition triangulate_pixel_pair
    (self : t) (px_left py_left px_right py_right : R) : option (vec3 * R) :=
  let ray_left := get_left_ray self px_left py_left in
  let ray_right := get_right_ray self px_right py_right in
  match closest_point_between_rays
          (cam_left_pos self) ray_left (cam_right_pos self) ray_right with
  | None => None
  | Some (point_3d, error) =>
      if Rgtb error (max_triangulation_error self) then None
      else if Rltb (vec_z point_3d) 0 then None
      else if Rgtb (vec_z point_3d) 2 then None
      else Some (point_3d, error)
  end.

End CalibratedStereoReconstructor.

(** ** stereo_triangulation_calibration.py: the module-level triangulator *)

Module StereoTriangulationCalibration.

(** The source returns [(None, inf)] where this model returns [None]. *)
Definition closest_point_between_rays
    (p1 d1 p2 d2 : vec3) : option (vec3 * R) :=
  let d1 := vdiv d1 (norm d1 + norm_eps) in
  let d2 := vdiv d2 (norm d2 + norm_eps) in
  let w := vsub p1 p2 in
  let a := dot d1 d1 in
  let b := dot d1 d2 in
  let c := dot d2 d2 in
  let d := dot d1 w in
  let e := dot d2 w in
  let denom := a * c - b * b in
  if Rltb (Rabs denom) denom_eps || Rgtb (Rabs b) parallel_cos
  then None
  else
    let t := (b * e - c * d) / denom in
    let s := (a * e - b * d) / denom in
    if Rltb t 0 || Rltb s 0 then None
    else
      let point1 := vadd p1 (vscale t d1) in
      let point2 := vadd p2 (vscale s d2) in
      let point_3d := vdiv (vadd point1 point2) 2 in
      let distance := norm (vsub point1 point2) in
      Some (point_3d, distance).

End StereoTriangulationCalibration.

(** ** calibration_loader.py: class CameraCalibration *)

Module CameraCalibration.

(** The camera matrix entries the methods read, and [cv2.undistortPoints]
    with this calibration's matrix and distortion coefficients, which is
    OpenCV's and is taken as given. *)
Record t : Type := mk {
  fx : R; fy : R; cx : R; cy : R;
  undistort_point : R -> R -> R * R
}.

Definition pixel_to_normalized_coords (self : t) (pixel_x pixel_y : R)
  : R * R :=
  let '(undist_x, undist_y) := undistort_point self pixel_x pixel_y in
  let norm_x := (undist_x - cx self) / fx self in
  let norm_y := (undist_y - cy self) / fy self in
  (norm_x, norm_y).

Definition get_ray_direction (self : t) (pixel_x pixel_y : R) : vec3 :=
  let '(norm_x, norm_y) := pixel_to_normalized_coords self pixel_x pixel_y in
  let ray := mkVec norm_x norm_y 1 in
  vdiv ray (norm ray).

End CameraCalibration.

(** The corrected angle [theta_distorted] of a pixel at normalised radius 1
    (where [theta = atan 1]) under the reconstructor's [k1 = -0.15]. *)
Definition theta_distorted_at_1 : R :=
  PI / 4 * (1 + - (15 / 100) * (PI / 4) ^ 2).

(** ** The frame cycle of the [main] loops of improved_ray_traversal.py and
    configurable_reconstruction.py

    The two loops are the same code up to their constants and their
    [traverse_ray_3d]; the shared body is written once over those. *)

Module MainLoop.

(** [camera_hits]: for a voxel and a camera number, seen this frame or not. *)
Definition hits : Type := idx -> nat -> bool.

(** [camera_hits.fill(False)] *)
Definition no_hits : hits := fun _ _ => false.

(** [camera_hits[i, cam] = True] *)
Definition set_hit (h : hits) (i : idx) (cam : nat) : hits :=
  fun j c => if idx_eqb i j && (c =? cam)%nat then true else h j c.

(** The variables of [main] that one pass of the loop reads and updates.
    [printed_voxels] only drives the console output and is left out. *)
Record state : Type := mkState {
  voxel_grid : grid;
  camera_hits : hits;
  prev_left : image;
  prev_right : image;
  frame_count : Z
}.

Section Cycle.

(** [traverse_ray_3d] with the script's grid parameters applied:
    camera position, ray direction, pixel intensity. *)
Variable traverse_ray_3d : vec3 -> vec3 -> R -> list (idx * R).
Variables left_pos right_pos : vec3.
Variables left_calib right_calib : option CameraCalibration.t.
Variable motion_threshold : Z.
Variables multi_camera_boost temporal_decay : R.

(** The calibrated ray of a pixel, or the simple upward projection when no
    calibration was loaded. *)
Definition ray_direction (calib : option CameraCalibration.t) (px py : nat)
  : vec3 :=
  match calib with
  | Some calib => CameraCalibration.get_ray_direction calib (INR px) (INR py)
  | None =>
      let norm_x := (INR px - 960) / 755 in
      let norm_y := (INR py - 540) / 752 in
      let ray_dir := mkVec norm_x 1 norm_y in
      vdiv ray_dir (norm ray_dir)
  end.

(** [for vox_z, vox_y, vox_x, weighted_int in voxels_on_ray: ...] *)
Definition accumulate_ray (cam : nat) (gh : grid * hits)
    (voxels_on_ray : list (idx * R)) : grid * hits :=
  fold_left
    (fun gh e =>
       (grid_add (fst gh) (fst e) (snd e * (1 / 10)),
        set_hit (snd gh) (fst e) cam))
    voxels_on_ray gh.

(** The body of [for py, px in motion_coords: ...] for one camera. *)
Definition process_pixel (cam : nat) (camera_pos : vec3)
    (calib : option CameraCalibration.t) (img : image)
    (gh : grid * hits) (yx : nat * nat) : grid * hits :=
  let py := fst yx in
  let px := snd yx in
  let pixel_intensity := IZR (pixel_at img py px) / 255 in
  if Rltb pixel_intensity (3 / 10) then gh
  else
    let ray_dir := ray_direction calib px py in
    let voxels_on_ray := traverse_ray_3d camera_pos ray_dir pixel_intensity in
    accumulate_ray cam gh voxels_on_ray.

Definition process_camera (cam : nat) (camera_pos : vec3)
    (calib : option CameraCalibration.t) (img : image)
    (motion_coords : list (nat * nat)) (gh : grid * hits) : grid * hits :=
  fold_left (process_pixel cam camera_pos calib img) motion_coords gh.

(** [camera_hits[:,:,:,0] & camera_hits[:,:,:,1]] *)
Definition both_cameras (h : hits) : idx -> bool :=
  fun i => h i 0%nat && h i 1%nat.

(** The three stages of one pass, from the captured pair on: accumulation for
    both cameras, the confidence boost, the temporal decay. *)
Definition accumulate_stage (st : state) (img_left img_right : image)
  : grid * hits :=
  let diff_left := absdiff img_left (prev_left st) in
  let diff_right := absdiff img_right (prev_right st) in
  let motion_left := gt_mask diff_left motion_threshold in
  let motion_right := gt_mask diff_right motion_threshold in
  let motion_coords_left := np_argwhere motion_left in
  let motion_coords_right := np_argwhere motion_right in
  let gh := (voxel_grid st, no_hits) in
  let gh := process_camera 0 left_pos left_calib img_left motion_coords_left gh in
  process_camera 1 right_pos right_calib img_right motion_coords_right gh.

Definition boost_stage (gh : grid * hits) : grid * hits :=
  (grid_scale_where (both_cameras (snd gh)) (fst gh) multi_camera_boost, snd gh).

Definition decay_stage (gh : grid * hits) : grid * hits :=
  (grid_scale (fst gh) temporal_decay, snd gh).

Definition frame_cycle (st : state) (img_left img_right : image) : state :=
  let gh := accumulate_stage st img_left img_right in
  let gh := boost_stage gh in
  let gh := decay_stage gh in
  {| voxel_grid := fst gh;
     camera_hits := snd gh;
     prev_left := img_left;
     prev_right := img_right;
     frame_count := frame_count st + 1 |}.

(** One pass of the [while] loop: a failed capture skips the pass. *)
Definition loop_step (st : state) (frame : option image * option image)
  : state :=
  match frame with
  | (Some img_left, Some img_right) => frame_cycle st img_left img_right
  | _ => st
  end.

Definition run (st : state) (frames : list (option image * option image))
  : state :=
  fold_left loop_step frames st.

(** *** The writes of one pass, collected

    Every voxel entry that a camera's loop accumulates, in order; the sum of
    what these add to a cell; whether a cell is among them. *)

Definition camera_writes (camera_pos : vec3)
    (calib : option CameraCalibration.t) (img : image)
    (motion_coords : list (nat * nat)) : list (idx * R) :=
  flat_map
    (fun yx =>
       let pixel_intensity := IZR (pixel_at img (fst yx) (snd yx)) / 255 in
       if Rltb pixel_intensity (3 / 10) then []
       else traverse_ray_3d camera_pos (ray_direction calib (snd yx) (fst yx))
                            pixel_intensity)
    motion_coords.

Definition left_writes (st : state) (img_left : image) : list (idx * R) :=
  camera_writes left_pos left_calib img_left
    (np_argwhere (gt_mask (absdiff img_left (prev_left st)) motion_threshold)).

Definition right_writes (st : state) (img_right : image) : list (idx * R) :=
  camera_writes right_pos right_calib img_right
    (np_argwhere (gt_mask (absdiff img_right (prev_right st)) motion_threshold)).

End Cycle.

Fixpoint contributions (writes : list (idx * R)) (i : idx) : R :=
  match writes with
  | [] => 0
  | e :: writes' =>
      if idx_eqb (fst e) i
      then snd e * (1 / 10) + contributions writes' i
      else contributions writes' i
  end.

Definition seen (writes : list (idx * R)) (i : idx) : bool :=
  existsb (fun e => idx_eqb (fst e) i) writes.

End MainLoop.

(** ** improved_ray_traversal.py *)

Module ImprovedRayTraversal.

Definition CAMERA_LEFT_POS : vec3 := mkVec 0 0 0.
Definition CAMERA_RIGHT_POS : vec3 := mkVec (5 / 10) 0 0.

(** [0 <= v < grid_size] *)
Definition in_grid (grid_size v : Z) : bool :=
  (0 <=? v)%Z && (v <? grid_size)%Z.

(** The body of [for i in range(num_steps)], on the pair
    [(voxel_list, visited)]. *)
Definition traverse_step (camera_pos ray_dir : vec3) (grid_size : Z)
    (voxel_size intensity step_size : R)
    (acc : list (idx * R) * list idx) (i : nat) : list (idx * R) * list idx :=
  let '(voxel_list, visited) := acc in
  let t := INR i * step_size in
  let point_3d := vadd camera_pos (vscale t ray_dir) in
  if Rltb (vec_y point_3d) 0 then acc
  else
    let vox_x := py_int ((vec_x point_3d + 25 / 100) / voxel_size) in
    let vox_y := py_int (vec_y point_3d / voxel_size) in
    let vox_z := py_int (vec_z point_3d / voxel_size) in
    if negb (in_grid grid_size vox_x && in_grid grid_size vox_y
             && in_grid grid_size vox_z)
    then acc
    else
      let voxel_key := (vox_z, vox_y, vox_x) in
      if existsb (idx_eqb voxel_key) visited then acc
      else
        let visited := voxel_key :: visited in
        let distance := norm (vsub point_3d camera_pos) in
        let falloff := 1 / (1 + distance * (2 / 10)) in
        let weighted_intensity := intensity * falloff in
        (voxel_list ++ [(voxel_key, weighted_intensity)], visited).

Definition traverse_ray_3d (camera_pos ray_dir : vec3) (grid_size : Z)
    (voxel_size max_distance intensity : R) : list (idx * R) :=
  let step_size := voxel_size * (5 / 10) in
  let num_steps := py_int (max_distance / step_size) in
  fst (fold_left
         (traverse_step camera_pos ray_dir grid_size voxel_size intensity
                        step_size)
         (seq 0 (Z.to_nat num_steps)) ([], [])).

Definition grid_size : Z := 64.
Definition voxel_size : R := 1 / 100.
Definition motion_threshold : Z := 25.

(** The call [traverse_ray_3d(pos, ray_dir, grid_size, voxel_size,
    max_distance=0.8, intensity=pixel_intensity)] of [main]. *)
Definition traverse_call (camera_pos ray_dir : vec3) (pixel_intensity : R)
  : list (idx * R) :=
  traverse_ray_3d camera_pos ray_dir grid_size voxel_size (8 / 10)
                  pixel_intensity.

(** One pass of the loop of [main], with the calibration it loaded (or
    [None]). *)
Definition frame_cycle (calib : option CameraCalibration.t)
  : MainLoop.state -> image -> image -> MainLoop.state :=
  MainLoop.frame_cycle traverse_call CAMERA_LEFT_POS CAMERA_RIGHT_POS
    calib calib motion_threshold (15 / 10) (99 / 100).

Definition run (calib : option CameraCalibration.t)
  : MainLoop.state -> list (option image * option image) -> MainLoop.state :=
  MainLoop.run traverse_call CAMERA_LEFT_POS CAMERA_RIGHT_POS
    calib calib motion_threshold (15 / 10) (99 / 100).

(** What the two cameras write in one pass. *)
Definition left_writes (calib : option CameraCalibration.t)
  : MainLoop.state -> image -> list (idx * R) :=
  MainLoop.left_writes traverse_call CAMERA_LEFT_POS calib motion_threshold.

Definition right_writes (calib : option CameraCalibration.t)
  : MainLoop.state -> image -> list (idx * R) :=
  MainLoop.right_writes traverse_call CAMERA_RIGHT_POS calib motion_threshold.

(** The state before the loop: an empty grid and the baseline frames. *)
Definition start (prev_left prev_right : image) : MainLoop.state :=
  {| MainLoop.voxel_grid := zeros;
     MainLoop.camera_hits := MainLoop.no_hits;
     MainLoop.prev_left := prev_left;
     MainLoop.prev_right := prev_right;
     MainLoop.frame_count := 0 |}.

End ImprovedRayTraversal.

(** ** configurable_reconstruction.py *)

Module ConfigurableReconstruction.

(** The fields of [SystemConfig] that the loop reads (config_loader.py). *)
Record SystemConfig : Type := mkConfig {
  size : Z;
  voxel_size_meters : R;
  x_min : R;
  y_min : R;
  z_min : R;
  motion_threshold : Z;
  max_ray_distance_meters : R;
  ray_step_size_ratio : R;
  temporal_decay : R;
  multi_camera_boost : R;
  distance_falloff_factor : R;
  left_position : vec3;
  right_position : vec3
}.

Definition in_grid (grid_size v : Z) : bool :=
  (0 <=? v)%Z && (v <? grid_size)%Z.

Definition traverse_step (camera_pos ray_dir : vec3) (config : SystemConfig)
    (intensity step_size : R)
    (acc : list (idx * R) * list idx) (i : nat) : list (idx * R) * list idx :=
  let '(voxel_list, visited) := acc in
  let grid_size := size config in
  let voxel_size := voxel_size_meters config in
  let falloff_factor := distance_falloff_factor config in
  let t := INR i * step_size in
  let point_3d := vadd camera_pos (vscale t ray_dir) in
  if Rltb (vec_y point_3d) 0 then acc
  else
    let vox_x := py_int ((vec_x point_3d - x_min config) / voxel_size) in
    let vox_y := py_int ((vec_y point_3d - y_min config) / voxel_size) in
    let vox_z := py_int ((vec_z point_3d - z_min config) / voxel_size) in
    if negb (in_grid grid_size vox_x && in_grid grid_size vox_y
             && in_grid grid_size vox_z)
    then acc
    else
      let voxel_key := (vox_z, vox_y, vox_x) in
      if existsb (idx_eqb voxel_key) visited then acc
      else
        let visited := voxel_key :: visited in
        let distance := norm (vsub point_3d camera_pos) in
        let falloff := 1 / (1 + distance * falloff_factor) in
        let weighted_intensity := intensity * falloff in
        (voxel_list ++ [(voxel_key, weighted_intensity)], visited).

Definition traverse_ray_3d (camera_pos ray_dir : vec3) (config : SystemConfig)
    (intensity : R) : list (idx * R) :=
  let step_size := voxel_size_meters config * ray_step_size_ratio config in
  let num_steps := py_int (max_ray_distance_meters config / step_size) in
  fst (fold_left
         (traverse_step camera_pos ray_dir config intensity step_size)
         (seq 0 (Z.to_nat num_steps)) ([], [])).

(** A configuration: the defaults of config_loader.py where it has them, and
    the grid and camera positions of improved_ray_traversal.py. *)
Definition default_config : SystemConfig := {|
  size := 64;
  voxel_size_meters := 1 / 100;
  x_min := - (25 / 100);
  y_min := 0;
  z_min := 0;
  motion_threshold := 25;
  max_ray_distance_meters := 1;
  ray_step_size_ratio := 5 / 10;
  temporal_decay := 99 / 100;
  multi_camera_boost := 15 / 10;
  distance_falloff_factor := 2 / 10;
  left_position := mkVec 0 0 0;
  right_position := mkVec (5 / 10) 0 0
|}.

(** The call [traverse_ray_3d(position, ray_dir, config, pixel_intensity)]
    of [main]. *)
Definition traverse_call (config : SystemConfig)
    (camera_pos ray_dir : vec3) (pixel_intensity : R) : list (idx * R) :=
  traverse_ray_3d camera_pos ray_dir config pixel_intensity.

Definition frame_cycle (config : SystemConfig)
    (left_calib right_calib : option CameraCalibration.t)
  : MainLoop.state -> image -> image -> MainLoop.state :=
  MainLoop.frame_cycle (traverse_call config)
    (left_position config) (right_position config) left_calib right_calib
    (motion_threshold config)
    (multi_camera_boost config) (temporal_decay config).

Definition left_writes (config : SystemConfig)
    (left_calib : option CameraCalibration.t)
  : MainLoop.state -> image -> list (idx * R) :=
  MainLoop.left_writes (traverse_call config) (left_position config)
    left_calib (motion_threshold config).

Definition right_writes (config : SystemConfig)
    (right_calib : option CameraCalibration.t)
  : MainLoop.state -> image -> list (idx * R) :=
  MainLoop.right_writes (traverse_call config) (right_position config)
    right_calib (motion_threshold config).

End ConfigurableReconstruction.

(** ** Predicates used to state the bounds properties *)

(** The world-space box of the reconstructor, half-open on every axis. *)
Definition inside_box (self : StereoVoxelReconstructor.t) (p : vec3) : Prop :=
  (fst (StereoVoxelReconstructor.bounds_x self) <= vec_x p
   < snd (StereoVoxelReconstructor.bounds_x self)) /\
  (fst (StereoVoxelReconstructor.bounds_y self) <= vec_y p
   < snd (StereoVoxelReconstructor.bounds_y self)) /\
  (fst (StereoVoxelReconstructor.bounds_z self) <= vec_z p
   < snd (StereoVoxelReconstructor.bounds_z self)).

(** An index triple inside an array of the given shape. *)
Definition index_in_shape (shape : Z * Z * Z) (i : idx) : Prop :=
  (0 <= fst (fst i) < fst (fst shape) /\
   0 <= snd (fst i) < snd (fst shape) /\
   0 <= snd i < snd shape)%Z.

(** Every cell of the grid holds a non-negative confidence. *)
Definition nonneg_grid (g : grid) : Prop := forall i, 0 <= g i.

(** Every entry of a list of voxel writes carries a non-negative weight. *)
Definition nonneg_weights (ws : list (idx * R)) : Prop :=
  Forall (fun e => 0 <= snd e) ws.

(** A shape with at least one cell along every axis. *)
Definition shape_nonempty (shape : Z * Z * Z) : Prop :=
  (1 <= fst (fst shape) /\ 1 <= snd (fst shape) /\ 1 <= snd shape)%Z.

(** A mask without a true entry. *)
Definition all_false (m : list (list bool)) : Prop :=
  Forall (Forall (fun b => b = false)) m.

(** [st'] is [st] after [k] more voxel writes: both counters grew by [k] and
    the frame bookkeeping is the same. *)
Definition counted (st st' : StereoVoxelReconstructor.state) (k : Z) : Prop :=
  StereoVoxelReconstructor.voxel_count st'
  = (StereoVoxelReconstructor.voxel_count st + k)%Z /\
  StereoVoxelReconstructor.triangulation_count st'
  = (StereoVoxelReconstructor.triangulation_count st + k)%Z /\
  StereoVoxelReconstructor.frame_count st'
  = StereoVoxelReconstructor.frame_count st /\
  StereoVoxelReconstructor.prev_left st'
  = StereoVoxelReconstructor.prev_left st /\
  StereoVoxelReconstructor.prev_right st'
  = StereoVoxelReconstructor.prev_right st.

(** The sample of a ray at step [i]: [camera_pos + ray_dir * (i * step_size)]. *)
Definition sample_point (camera_pos ray_dir : vec3) (step_size : R) (i : nat)
  : vec3 :=
  vadd camera_pos (vscale (INR i * step_size) ray_dir).

(** What [traverse_ray_3d] of configurable_reconstruction.py records for the
    sample at step [i], when it records it: the cell of the sample and the
    intensity weighted by the distance falloff. *)
Definition recorded_sample (camera_pos ray_dir : vec3)
    (config : ConfigurableReconstruction.SystemConfig) (intensity : R)
    (i : nat) (e : idx * R) : Prop :=
  let voxel_size := ConfigurableReconstruction.voxel_size_meters config in
  let step_size :=
    voxel_size * ConfigurableReconstruction.ray_step_size_ratio config in
  let p := sample_point camera_pos ray_dir step_size i in
  0 <= vec_y p /\
  fst e = (py_int ((vec_z p - ConfigurableReconstruction.z_min config)
                   / voxel_size),
           py_int ((vec_y p - ConfigurableReconstruction.y_min config)
                   / voxel_size),
           py_int ((vec_x p - ConfigurableReconstruction.x_min config)
                   / voxel_size)) /\
  snd e = intensity
          * (1 / (1 + norm (vsub p camera_pos)
                      * ConfigurableReconstruction.distance_falloff_factor
                          config)).

(** The number of samples along a ray. *)
Definition num_steps (config : ConfigurableReconstruction.SystemConfig) : nat :=
  Z.to_nat
    (py_int (ConfigurableReconstruction.max_ray_distance_meters config
             / (ConfigurableReconstruction.voxel_size_meters config
                * ConfigurableReconstruction.ray_step_size_ratio config))).

(** The state of the traversal loop after the samples below [k]. *)
Definition traversal_invariant (camera_pos ray_dir : vec3)
    (config : ConfigurableReconstruction.SystemConfig) (intensity : R)
    (k : nat) (acc : list (idx * R) * list idx) : Prop :=
  NoDup (map fst (fst acc)) /\
  (forall key, In key (map fst (fst acc)) -> In key (snd acc)) /\
  (length (fst acc) <= k)%nat /\
  Forall (fun e => exists i, (i < k)%nat /\
                     recorded_sample camera_pos ray_dir config intensity i e)
         (fst acc).

(** The configuration under which configurable_reconstruction.py traverses a
    ray as improved_ray_traversal.py does for the given grid size, voxel size
    and maximum distance. *)
Definition improved_config (grid_size : Z) (voxel_size max_distance : R)
  : ConfigurableReconstruction.SystemConfig := {|
  ConfigurableReconstruction.size := grid_size;
  ConfigurableReconstruction.voxel_size_meters := voxel_size;
  ConfigurableReconstruction.x_min := - (25 / 100);
  ConfigurableReconstruction.y_min := 0;
  ConfigurableReconstruction.z_min := 0;
  ConfigurableReconstruction.motion_threshold := 25;
  ConfigurableReconstruction.max_ray_distance_meters := max_distance;
  ConfigurableReconstruction.ray_step_size_ratio := 5 / 10;
  ConfigurableReconstruction.temporal_decay := 99 / 100;
  ConfigurableReconstruction.multi_camera_boost := 15 / 10;
  ConfigurableReconstruction.distance_falloff_factor := 2 / 10;
  ConfigurableReconstruction.left_position :=
    ImprovedRayTraversal.CAMERA_LEFT_POS;
  ConfigurableReconstruction.right_position :=
    ImprovedRayTraversal.CAMERA_RIGHT_POS
|}.

(** The number of passes of the loop that were not skipped for a failed
    capture. *)
Fixpoint captured (frames : list (option image * option image)) : nat :=
  match frames with
  | [] => 0
  | (Some _, Some _) :: frames' => S (captured frames')
  | _ :: frames' => captured frames'
  end.

(** A frame pair that is either a failed capture or the given pair. *)
Definition failed_or_same (img_left img_right : image)
    (frame : option image * option image) : Prop :=
  match frame with
  | (Some l, Some r) => l = img_left /\ r = img_right
  | _ => True
  end.

(** The columns of a 3x3 matrix are orthonormal: the matrix is a rotation
    (or a reflection). *)
Definition orthonormal_columns (m : mat3) : Prop :=
  let c1 := mkVec (vec_x (row_1 m)) (vec_x (row_2 m)) (vec_x (row_3 m)) in
  let c2 := mkVec (vec_y (row_1 m)) (vec_y (row_2 m)) (vec_y (row_3 m)) in
  let c3 := mkVec (vec_z (row_1 m)) (vec_z (row_2 m)) (vec_z (row_3 m)) in
  dot c1 c1 = 1 /\ dot c2 c2 = 1 /\ dot c3 c3 = 1 /\
  dot c1 c2 = 0 /\ dot c1 c3 = 0 /\ dot c2 c3 = 0.

(** ** stereo_voxel_reconstruction.py: [save_voxels] *)



Module StereoVoxelExport.



End StereoVoxelExport.

(** The world-space box is exactly as long as the grid on every axis, and
    voxels have a positive size. *)
Definition grid_spans_box (self : StereoVoxelReconstructor.t) : Prop :=
  let vs := StereoVoxelReconstructor.voxel_size self in
  let shape := StereoVoxelReconstructor.voxel_grid_size self in
  0 < vs /\
  fst (StereoVoxelReconstructor.bounds_x self) + IZR (fst (fst shape)) * vs
  = snd (StereoVoxelReconstructor.bounds_x self) /\
  fst (StereoVoxelReconstructor.bounds_y self) + IZR (snd (fst shape)) * vs
  = snd (StereoVoxelReconstructor.bounds_y self) /\
  fst (StereoVoxelReconstructor.bounds_z self) + IZR (snd shape) * vs
  = snd (StereoVoxelReconstructor.bounds_z self).

(** Every cell of [g'] is the cell of [g] plus something between 0 and
    [k / 2]. *)
Definition grown_by (g g' : grid) (k : Z) : Prop :=
  forall i, g i <= g' i <= g i + IZR k / 2.

(** ** config_loader.py *)

Module ConfigLoader.

(** The fields of [CameraConfig] that the methods below read. *)
Record CameraConfig : Type := mkCamera {
  id : String.string;
  position : vec3;
  yaw : R;
  pitch : R;
  roll : R;
  asi_camera_index : Z
}.

(** [np.radians] *)
Definition radians (degrees : R) : R := degrees * (PI / 180).

Definition get_direction_vector (self : CameraConfig) : vec3 :=
  let yaw_rad := radians (yaw self) in
  let pitch_rad := radians (pitch self) in
  let direction :=
    mkVec (cos pitch_rad * cos yaw_rad)
          (sin pitch_rad)
          (cos pitch_rad * sin yaw_rad) in
  vdiv direction (norm direction).

(** [SystemConfig.get_camera_by_id]; [None] stands for the [ValueError]. *)
Fixpoint get_camera_by_id (cameras : list CameraConfig)
    (camera_id : String.string) : option CameraConfig :=
  match cameras with
  | [] => None
  | cam :: cameras' =>
      if String.eqb (id cam) camera_id then Some cam
      else get_camera_by_id cameras' camera_id
  end.

(** [SystemConfig.get_camera_by_index]; [None] stands for the [ValueError]. *)
Fixpoint get_camera_by_index (cameras : list CameraConfig) (asi_index : Z)
  : option CameraConfig :=
  match cameras with
  | [] => None
  | cam :: cameras' =>
      if (asi_camera_index cam =? asi_index)%Z then Some cam
      else get_camera_by_index cameras' asi_index
  end.

End ConfigLoader.

(** * Properties *)

(** ** Comparisons and vectors *)

Lemma Rgtb_true (x y : R) : Rgtb x y = true <-> x > y.
Proof. unfold Rgtb. destruct (Rgt_dec x y); split; intros; try easy. Qed.

Lemma Rltb_true (x y : R) : Rltb x y = true <-> x < y.
Proof. unfold Rltb. destruct (Rlt_dec x y); split; intros; try easy. Qed.

Lemma Rleb_true (x y : R) : Rleb x y = true <-> x <= y.
Proof. unfold Rleb. destruct (Rle_dec x y); split; intros; try easy. Qed.

Lemma Rgtb_false (x y : R) : Rgtb x y = false <-> x <= y.
Proof.
  unfold Rgtb. destruct (Rgt_dec x y); split; intros; try easy; lra.
Qed.

Lemma Rltb_false (x y : R) : Rltb x y = false <-> y <= x.
Proof.
  unfold Rltb. destruct (Rlt_dec x y); split; intros; try easy; lra.
Qed.

Lemma Rleb_false (x y : R) : Rleb x y = false <-> y < x.
Proof.
  unfold Rleb. destruct (Rle_dec x y); split; intros; try easy; lra.
Qed.

Lemma vec3_eq (a b c a' b' c' : R) :
  a = a' -> b = b' -> c = c' -> mkVec a b c = mkVec a' b' c'.
Proof. intros -> -> ->. reflexivity. Qed.

Lemma dot_comm (u v : vec3) : dot u v = dot v u.
Proof. unfold dot. ring. Qed.

Lemma norm_nonneg (v : vec3) : 0 <= norm v.
Proof. apply sqrt_pos. Qed.

Lemma norm_vsub_sym (u v : vec3) : norm (vsub u v) = norm (vsub v u).
Proof. unfold norm, vsub, dot. simpl. f_equal. ring. Qed.

Lemma norm_of_unit (v : vec3) : dot v v = 1 -> norm v = 1.
Proof. intros H. unfold norm. rewrite H. apply sqrt_1. Qed.

Lemma norm_eq_0 (v : vec3) : dot v v = 0 -> norm v = 0.
Proof. intros H. unfold norm. rewrite H. apply sqrt_0. Qed.

Lemma vdiv_one (v : vec3) : vdiv v 1 = v.
Proof. destruct v. unfold vdiv. simpl. apply vec3_eq; field. Qed.

Lemma vdiv_unit (v : vec3) : dot v v = 1 -> vdiv v (norm v) = v.
Proof. intros H. rewrite (norm_of_unit v H). apply vdiv_one. Qed.

(** A normalised vector is a unit vector. *)
Lemma dot_normalized (v : vec3) :
  0 < dot v v -> dot (vdiv v (norm v)) (vdiv v (norm v)) = 1.
Proof.
  intros H. unfold norm.
  assert (Hs : sqrt (dot v v) * sqrt (dot v v) = dot v v)
    by (apply sqrt_def; lra).
  assert (Hn : sqrt (dot v v) <> 0).
  { pose proof (sqrt_lt_R0 _ H). lra. }
  set (n := sqrt (dot v v)) in *.
  unfold vdiv. unfold dot at 1. simpl.
  replace (vec_x v / n * (vec_x v / n) + vec_y v / n * (vec_y v / n) +
           vec_z v / n * (vec_z v / n)) with (dot v v / (n * n)).
  - rewrite Hs. field. lra.
  - unfold dot. field. exact Hn.
Qed.

(** A ray built as [[nx, ny, 1.0] / norm] points upward. *)
Lemma upward_ray_z_pos (nx ny : R) :
  0 < vec_z (vdiv (mkVec nx ny 1) (norm (mkVec nx ny 1))).
Proof.
  unfold vdiv, norm, dot. simpl.
  apply Rdiv_lt_0_compat; [lra|].
  apply sqrt_lt_R0. nra.
Qed.

(** ** The ray triangulator *)

Section Triangulator.

Import StereoVoxelReconstructor.

Variables origin1 dir1 origin2 dir2 : vec3.

(** The directions after the normalisation the method starts with. *)
Let u1 : vec3 := vdiv dir1 (norm dir1).
Let u2 : vec3 := vdiv dir2 (norm dir2).

(** C6. Rays whose normalised directions have a dot product of magnitude
    above 0.996, or whose 2x2 system has a determinant of magnitude below
    1e-6, get no solution from [closest_point_between_rays]. *)
Theorem parallel_or_singular_is_rejected :
  Rabs (dot u1 u2) > parallel_cos \/
  Rabs (dot u1 u1 * dot u2 u2 - dot u1 u2 * dot u1 u2) < denom_eps ->
  closest_point_between_rays origin1 dir1 origin2 dir2 = None.
Proof.
  intros H. unfold closest_point_between_rays. fold u1 u2.
  destruct (Rgtb (Rabs (dot u1 u2)) parallel_cos) eqn:Hpar; [reflexivity|].
  destruct H as [H|H].
  - apply Rgtb_false in Hpar. lra.
  - apply Rltb_true in H. cbv zeta. rewrite H. reflexivity.
Qed.

(** C9. [closest_point_between_rays] does not depend on the order of its
    two rays: swapping them gives the same midpoint and the same distance,
    or no solution both ways. *)
Theorem triangulation_is_symmetric :
  closest_point_between_rays origin1 dir1 origin2 dir2 =
  closest_point_between_rays origin2 dir2 origin1 dir1.
Proof.
  unfold closest_point_between_rays. fold u1 u2. cbv zeta.
  rewrite (dot_comm u2 u1).
  destruct (Rgtb (Rabs (dot u1 u2)) parallel_cos); [reflexivity|].
  replace (dot u2 u2 * dot u1 u1 - dot u1 u2 * dot u1 u2)
    with (dot u1 u1 * dot u2 u2 - dot u1 u2 * dot u1 u2) by ring.
  set (denom := dot u1 u1 * dot u2 u2 - dot u1 u2 * dot u1 u2).
  destruct (Rltb (Rabs denom) denom_eps); [reflexivity|].
  set (w0 := vsub origin1 origin2). set (w0' := vsub origin2 origin1).
  assert (Hd : dot u1 w0' = - dot u1 w0)
    by (unfold w0, w0', dot, vsub; simpl; ring).
  assert (He : dot u2 w0' = - dot u2 w0)
    by (unfold w0, w0', dot, vsub; simpl; ring).
  rewrite Hd, He.
  set (s := (dot u1 u2 * dot u2 w0 - dot u2 u2 * dot u1 w0) / denom).
  set (t := (dot u1 u1 * dot u2 w0 - dot u1 u2 * dot u1 w0) / denom).
  replace ((dot u1 u2 * - dot u1 w0 - dot u1 u1 * - dot u2 w0) / denom)
    with t by (unfold t, Rdiv; ring).
  replace ((dot u2 u2 * - dot u1 w0 - dot u1 u2 * - dot u2 w0) / denom)
    with s by (unfold s, Rdiv; ring).
  f_equal. f_equal.
  - unfold vdiv, vadd. simpl. apply vec3_eq; unfold Rdiv; ring.
  - apply norm_vsub_sym.
Qed.

End Triangulator.

(** The scenario of two cameras at (0,0,0) and (0.5,0,0) that both look
    straight up: no solution. *)
Lemma parallel_or_singular_is_rejected_witness :
  StereoVoxelReconstructor.closest_point_between_rays
    (mkVec 0 0 0) (mkVec 0 0 1) (mkVec (5 / 10) 0 0) (mkVec 0 0 1) = None.
Proof.
  apply parallel_or_singular_is_rejected. left.
  assert (Hu : dot (mkVec 0 0 1) (mkVec 0 0 1) = 1) by (unfold dot; simpl; ring).
  rewrite (vdiv_unit _ Hu), Hu, Rabs_R1. unfold parallel_cos. lra.
Defined.

(** The sibling triangulator of stereo_triangulation_calibration.py does
    reject a closest approach at a negative parameter on either ray. *)
Lemma sibling_rejects_behind_camera (p1 d1 p2 d2 : vec3) :
  let u1 := vdiv d1 (norm d1 + norm_eps) in
  let u2 := vdiv d2 (norm d2 + norm_eps) in
  let w := vsub p1 p2 in
  let denom := dot u1 u1 * dot u2 u2 - dot u1 u2 * dot u1 u2 in
  let t := (dot u1 u2 * dot u2 w - dot u2 u2 * dot u1 w) / denom in
  let s := (dot u1 u1 * dot u2 w - dot u1 u2 * dot u1 w) / denom in
  t < 0 \/ s < 0 ->
  StereoTriangulationCalibration.closest_point_between_rays p1 d1 p2 d2 = None.
Proof.
  intros u1 u2 w denom t s H.
  unfold StereoTriangulationCalibration.closest_point_between_rays.
  fold u1 u2. cbv zeta. fold w. fold denom. fold t s.
  destruct (Rltb (Rabs denom) denom_eps || Rgtb (Rabs (dot u1 u2)) parallel_cos);
    [reflexivity|].
  replace (Rltb t 0 || Rltb s 0) with true; [reflexivity|].
  symmetry. apply orb_true_iff.
  destruct H as [H|H]; [left|right]; now apply Rltb_true.
Qed.

(** C1. Two unit rays that diverge, from (0,0,0) along (-3/5,0,4/5) and from
    (0.5,0,0) along (3/5,0,4/5): the lines meet at (1/4,0,-1/3), at parameter
    -5/12 on both rays, behind both cameras, and [closest_point_between_rays]
    of both reconstructor classes returns that point with distance 0. *)
Theorem behind_camera_point_is_returned :
  let o1 := mkVec 0 0 0 in
  let d1 := mkVec (- (3 / 5)) 0 (4 / 5) in
  let o2 := mkVec (5 / 10) 0 0 in
  let d2 := mkVec (3 / 5) 0 (4 / 5) in
  let p := mkVec (1 / 4) 0 (- (1 / 3)) in
  dot d1 d1 = 1 /\ dot d2 d2 = 1 /\
  vadd o1 (vscale (- (5 / 12)) d1) = p /\
  vadd o2 (vscale (- (5 / 12)) d2) = p /\
  StereoVoxelReconstructor.closest_point_between_rays o1 d1 o2 d2
    = Some (p, 0) /\
  CalibratedStereoReconstructor.closest_point_between_rays o1 d1 o2 d2
    = Some (p, 0).
Proof.
  intros o1 d1 o2 d2 p.
  assert (H1 : dot d1 d1 = 1) by (unfold d1, dot; simpl; field).
  assert (H2 : dot d2 d2 = 1) by (unfold d2, dot; simpl; field).
  assert (Hb : dot d1 d2 = 7 / 25) by (unfold d1, d2, dot; simpl; field).
  assert (Hres : StereoVoxelReconstructor.closest_point_between_rays o1 d1 o2 d2
                 = Some (p, 0)).
  { unfold StereoVoxelReconstructor.closest_point_between_rays.
    rewrite (vdiv_unit _ H1), (vdiv_unit _ H2). cbv zeta.
    rewrite H1, H2, Hb.
    replace (Rgtb (Rabs (7 / 25)) parallel_cos) with false.
    2:{ symmetry. apply Rgtb_false. rewrite Rabs_pos_eq by lra.
        unfold parallel_cos. lra. }
    replace (Rltb (Rabs (1 * 1 - 7 / 25 * (7 / 25))) denom_eps) with false.
    2:{ symmetry. apply Rltb_false. rewrite Rabs_pos_eq by lra.
        unfold denom_eps. lra. }
    assert (Hd : dot d1 (vsub o1 o2) = 3 / 10)
      by (unfold d1, o1, o2, dot, vsub; simpl; field).
    assert (He : dot d2 (vsub o1 o2) = - (3 / 10))
      by (unfold d2, o1, o2, dot, vsub; simpl; field).
    rewrite Hd, He.
    f_equal. f_equal.
    - unfold p, o1, o2, d1, d2, vdiv, vadd, vscale. simpl.
      apply vec3_eq; field.
    - apply norm_eq_0.
      unfold o1, o2, d1, d2, dot, vsub, vadd, vscale. simpl. field. }
  repeat split; try assumption.
  - unfold p, o1, d1, vadd, vscale. simpl. apply vec3_eq; field.
  - unfold p, o2, d2, vadd, vscale. simpl. apply vec3_eq; field.
Qed.

(** ** The camera ray model *)

(** C10. The ray direction of a pixel has a strictly positive height
    component, for the fisheye model of the reconstructor and for the
    calibration loader's ray. *)
Theorem ray_direction_points_up :
  (forall (self : StereoVoxelReconstructor.t) (pixel_x pixel_y : R),
      0 < vec_z (StereoVoxelReconstructor.get_ray_direction self pixel_x pixel_y))
  /\
  (forall (self : CameraCalibration.t) (pixel_x pixel_y : R),
      0 < vec_z (CameraCalibration.get_ray_direction self pixel_x pixel_y)).
Proof.
  split; intros self pixel_x pixel_y.
  - unfold StereoVoxelReconstructor.get_ray_direction. cbv zeta.
    destruct (Rgtb _ 0); apply upward_ray_z_pos.
  - unfold CameraCalibration.get_ray_direction,
      CameraCalibration.pixel_to_normalized_coords.
    destruct (CameraCalibration.undistort_point self pixel_x pixel_y).
    apply upward_ray_z_pos.
Qed.

(** ** The pixel-pair triangulation and its gates *)

Lemma theta_distorted_at_1_bounds : 6 / 10 < theta_distorted_at_1 <= 1.
Proof.
  unfold theta_distorted_at_1. pose proof PI_4. pose proof PI2_3_2.
  assert (3 / 4 < PI / 4 <= 1) by lra.
  set (th := PI / 4) in *. nra.
Qed.

(** The pixel at the principal point looks straight up. *)
Lemma ray_of_principal_point :
  StereoVoxelReconstructor.get_ray_direction
    StereoVoxelReconstructor.init 960 540 = mkVec 0 0 1.
Proof.
  unfold StereoVoxelReconstructor.get_ray_direction. simpl.
  replace ((960 - 960) / 748) with 0 by field.
  replace ((540 - 540) / 748) with 0 by field.
  replace (0 * (0 * 1) + 0 * (0 * 1)) with 0 by ring.
  rewrite sqrt_0.
  replace (Rgtb 0 0) with false by (symmetry; apply Rgtb_false; lra).
  assert (Hu : dot (mkVec 0 0 1) (mkVec 0 0 1) = 1) by (unfold dot; simpl; ring).
  apply (vdiv_unit _ Hu).
Qed.

(** The pixel one focal length to the left of the principal point. *)
Lemma ray_of_pixel_212 :
  StereoVoxelReconstructor.get_ray_direction
    StereoVoxelReconstructor.init 212 540
  = vdiv (mkVec (- theta_distorted_at_1) 0 1)
         (norm (mkVec (- theta_distorted_at_1) 0 1)).
Proof.
  unfold StereoVoxelReconstructor.get_ray_direction. simpl.
  replace ((212 - 960) / 748) with (-1) by field.
  replace ((540 - 540) / 748) with 0 by field.
  replace (-1 * (-1 * 1) + 0 * (0 * 1)) with 1 by ring.
  rewrite sqrt_1.
  replace (Rgtb 1 0) with true by (symmetry; apply Rgtb_true; lra).
  rewrite atan_1.
  replace (-1 * (PI / 4 * (1 + - (15 / 100) * (PI / 4 * (PI / 4 * 1))) / 1))
    with (- theta_distorted_at_1) by (unfold theta_distorted_at_1; field).
  replace (0 * (PI / 4 * (1 + - (15 / 100) * (PI / 4 * (PI / 4 * 1))) / 1))
    with 0 by field.
  reflexivity.
Qed.

(** A ray straight up from the origin and a ray from (1/2,0,0) tilted toward
    it along (-q,0,1) meet on the first camera's axis at height 1/(2q). *)
Lemma closest_point_up_and_tilted (q : R) :
  6 / 10 < q ->
  StereoVoxelReconstructor.closest_point_between_rays
    (mkVec 0 0 0) (mkVec 0 0 1)
    (mkVec (5 / 10) 0 0) (vdiv (mkVec (- q) 0 1) (norm (mkVec (- q) 0 1)))
  = Some (mkVec 0 0 (1 / (2 * q)), 0).
Proof.
  intros Hq.
  set (v := mkVec (- q) 0 1).
  assert (Hvv : dot v v = q * q + 1) by (unfold v, dot; simpl; ring).
  assert (Hpos : 0 < dot v v) by nra.
  assert (HN : norm v * norm v = q * q + 1).
  { unfold norm. rewrite sqrt_def; lra. }
  assert (HN0 : 11 / 10 < norm v).
  { pose proof (norm_nonneg v). nra. }
  unfold StereoVoxelReconstructor.closest_point_between_rays.
  assert (Hu : dot (mkVec 0 0 1) (mkVec 0 0 1) = 1) by (unfold dot; simpl; ring).
  rewrite (vdiv_unit _ Hu), (vdiv_unit _ (dot_normalized v Hpos)).
  cbv zeta. rewrite Hu, (dot_normalized v Hpos).
  set (N := norm v) in *.
  assert (Hb : dot (mkVec 0 0 1) (vdiv v N) = / N)
    by (unfold v, vdiv, dot; simpl; field; lra).
  rewrite Hb.
  assert (HiN : 0 < / N < 10 / 11).
  { split; [apply Rinv_0_lt_compat; lra|].
    rewrite <- (Rinv_inv (10 / 11)). apply Rinv_0_lt_contravar; lra. }
  replace (Rgtb (Rabs (/ N)) parallel_cos) with false.
  2:{ symmetry. apply Rgtb_false. rewrite Rabs_pos_eq by lra.
      unfold parallel_cos. lra. }
  assert (Hden : 1 * 1 - / N * / N = q * q / (N * N)).
  { replace (q * q) with (N * N - 1) by lra. field. lra. }
  rewrite Hden.
  assert (Hq2 : 36 / 100 < q * q) by nra.
  assert (Hfrac : 1 / 10 < q * q / (N * N)).
  { rewrite HN. apply Rmult_lt_reg_r with (q * q + 1); [lra|].
    replace (q * q / (q * q + 1) * (q * q + 1)) with (q * q) by (field; lra).
    lra. }
  replace (Rltb (Rabs (q * q / (N * N))) denom_eps) with false.
  2:{ symmetry. apply Rltb_false. rewrite Rabs_pos_eq by lra.
      unfold denom_eps. lra. }
  f_equal. f_equal.
  - unfold v, vdiv, vadd, vsub, vscale, dot. simpl.
    apply vec3_eq; field; lra.
  - apply norm_eq_0.
    unfold v, vdiv, vadd, vsub, vscale, dot. simpl. field. lra.
Qed.

(** The left pixel at the principal point and the right pixel one focal
    length to its left triangulate to a point above the left camera. *)
Lemma pixel_pair_example :
  StereoVoxelReconstructor.triangulate_pixel_pair
    StereoVoxelReconstructor.init 960 540 212 540
  = Some (mkVec 0 0 (1 / (2 * theta_distorted_at_1)), 0).
Proof.
  pose proof theta_distorted_at_1_bounds as Hq.
  unfold StereoVoxelReconstructor.triangulate_pixel_pair.
  rewrite ray_of_principal_point, ray_of_pixel_212.
  cbn [StereoVoxelReconstructor.cam_left_pos
         StereoVoxelReconstructor.cam_right_pos
         StereoVoxelReconstructor.max_triangulation_error
         StereoVoxelReconstructor.init].
  rewrite closest_point_up_and_tilted by lra.
  assert (Hz : 1 / 2 <= 1 / (2 * theta_distorted_at_1) <= 1).
  { split.
    - apply Rmult_le_reg_r with (2 * theta_distorted_at_1); [lra|].
      replace (1 / (2 * theta_distorted_at_1) * (2 * theta_distorted_at_1))
        with 1 by (field; lra). lra.
    - apply Rmult_le_reg_r with (2 * theta_distorted_at_1); [lra|].
      replace (1 / (2 * theta_distorted_at_1) * (2 * theta_distorted_at_1))
        with 1 by (field; lra). lra. }
  replace (Rgtb 0 (10 / 100)) with false by (symmetry; apply Rgtb_false; lra).
  cbn [vec_z].
  replace (Rltb (1 / (2 * theta_distorted_at_1)) 0) with false
    by (symmetry; apply Rltb_false; lra).
  replace (Rgtb (1 / (2 * theta_distorted_at_1)) 2) with false
    by (symmetry; apply Rgtb_false; lra).
  reflexivity.
Qed.

(** C5. When [triangulate_pixel_pair] returns a point, the separation of the
    two rays is at most [max_triangulation_error] and the point's height is
    between 0 and 2.0; any other outcome is [None].  This holds for both
    reconstructor classes. *)
Theorem pixel_pair_point_passes_gates :
  (forall (self : StereoVoxelReconstructor.t)
          (px_left py_left px_right py_right : R) (p : vec3) (err : R),
      StereoVoxelReconstructor.triangulate_pixel_pair
        self px_left py_left px_right py_right = Some (p, err) ->
      err <= StereoVoxelReconstructor.max_triangulation_error self /\
      0 <= vec_z p <= 2)
  /\
  (forall (self : CalibratedStereoReconstructor.t)
          (px_left py_left px_right py_right : R) (p : vec3) (err : R),
      CalibratedStereoReconstructor.triangulate_pixel_pair
        self px_left py_left px_right py_right = Some (p, err) ->
      err <= CalibratedStereoReconstructor.max_triangulation_error self /\
      0 <= vec_z p <= 2).
Proof.
  split; intros self pxl pyl pxr pyr p err.
  - unfold StereoVoxelReconstructor.triangulate_pixel_pair.
    destruct (StereoVoxelReconstructor.closest_point_between_rays _ _ _ _)
      as [[p0 e0]|]; [|discriminate].
    destruct (Rgtb e0 _) eqn:He; [discriminate|].
    destruct (Rltb (vec_z p0) 0) eqn:Hlo; [discriminate|].
    destruct (Rgtb (vec_z p0) 2) eqn:Hhi; [discriminate|].
    intros [= <- <-].
    apply Rgtb_false in He, Hhi. apply Rltb_false in Hlo. lra.
  - unfold CalibratedStereoReconstructor.triangulate_pixel_pair.
    destruct (CalibratedStereoReconstructor.closest_point_between_rays _ _ _ _)
      as [[p0 e0]|]; [|discriminate].
    destruct (Rgtb e0 _) eqn:He; [discriminate|].
    destruct (Rltb (vec_z p0) 0) eqn:Hlo; [discriminate|].
    destruct (Rgtb (vec_z p0) 2) eqn:Hhi; [discriminate|].
    intros [= <- <-].
    apply Rgtb_false in He, Hhi. apply Rltb_false in Hlo. lra.
Qed.

Lemma pixel_pair_point_passes_gates_witness :
  exists (p : vec3) (err : R),
    StereoVoxelReconstructor.triangulate_pixel_pair
      StereoVoxelReconstructor.init 960 540 212 540 = Some (p, err) /\
    err <= StereoVoxelReconstructor.max_triangulation_error
             StereoVoxelReconstructor.init /\
    0 <= vec_z p <= 2.
Proof.
  exists (mkVec 0 0 (1 / (2 * theta_distorted_at_1))), 0.
  split; [exact pixel_pair_example|].
  exact (proj1 pixel_pair_point_passes_gates
           StereoVoxelReconstructor.init 960 540 212 540 _ _
           pixel_pair_example).
Defined.

(** ** Bounds safety of the voxel writes *)

Lemma idx_eqb_eq (i j : idx) : idx_eqb i j = true <-> i = j.
Proof.
  destruct i as [[a b] c], j as [[a' b'] c']. unfold idx_eqb.
  rewrite !andb_true_iff, !Z.eqb_eq. split.
  - intros [[-> ->] ->]. reflexivity.
  - intros [= -> -> ->]. auto.
Qed.

Lemma idx_eqb_refl (i : idx) : idx_eqb i i = true.
Proof. now apply idx_eqb_eq. Qed.

Lemma idx_eqb_neq (i j : idx) : idx_eqb i j = false <-> i <> j.
Proof.
  rewrite <- idx_eqb_eq. destruct (idx_eqb i j); split; intros; try easy.
Qed.

Lemma in_interval_true (lo v hi : R) :
  StereoVoxelReconstructor.in_interval lo v hi = true <-> lo <= v < hi.
Proof.
  unfold StereoVoxelReconstructor.in_interval.
  rewrite andb_true_iff, Rleb_true, Rltb_true. tauto.
Qed.

Lemma world_to_voxel_some (self : StereoVoxelReconstructor.t) (p : vec3) (i : idx) :
  shape_nonempty (StereoVoxelReconstructor.voxel_grid_size self) ->
  StereoVoxelReconstructor.world_to_voxel self p = Some i ->
  index_in_shape (StereoVoxelReconstructor.voxel_grid_size self) i /\
  inside_box self p.
Proof.
  unfold StereoVoxelReconstructor.world_to_voxel, shape_nonempty,
    index_in_shape, inside_box.
  destruct (StereoVoxelReconstructor.voxel_grid_size self) as [[s0 s1] s2].
  cbn [fst snd]. intros (H0 & H1 & H2).
  destruct (StereoVoxelReconstructor.in_interval _ (vec_x p) _) eqn:Hx;
    [|discriminate].
  destruct (StereoVoxelReconstructor.in_interval _ (vec_y p) _) eqn:Hy;
    [|discriminate].
  destruct (StereoVoxelReconstructor.in_interval _ (vec_z p) _) eqn:Hz;
    [|discriminate].
  cbn [negb]. intros [= <-]. cbn [fst snd].
  apply in_interval_true in Hx, Hy, Hz.
  repeat split; try lia; tauto.
Qed.

Lemma world_to_voxel_none (self : StereoVoxelReconstructor.t) (p : vec3) :
  ~ inside_box self p -> StereoVoxelReconstructor.world_to_voxel self p = None.
Proof.
  unfold StereoVoxelReconstructor.world_to_voxel, inside_box. intros Hout.
  destruct (StereoVoxelReconstructor.in_interval _ (vec_x p) _) eqn:Hx;
    [|reflexivity].
  destruct (StereoVoxelReconstructor.in_interval _ (vec_y p) _) eqn:Hy;
    [|reflexivity].
  destruct (StereoVoxelReconstructor.in_interval _ (vec_z p) _) eqn:Hz;
    [|reflexivity].
  apply in_interval_true in Hx, Hy, Hz. tauto.
Qed.

Lemma grid_add_other (g : grid) (i j : idx) (w : R) :
  i <> j -> grid_add g i w j = g j.
Proof.
  intros H. unfold grid_add. apply idx_eqb_neq in H. now rewrite H.
Qed.

Lemma in_grid_true (n v : Z) :
  ImprovedRayTraversal.in_grid n v = true <-> (0 <= v < n)%Z.
Proof. unfold ImprovedRayTraversal.in_grid. lia. Qed.

(** Every entry that one more step of the traversal adds has its key inside
    the grid. *)
Lemma traverse_step_keys_in_grid
    (camera_pos ray_dir : vec3) (n : Z) (voxel_size intensity step_size : R)
    (acc : list (idx * R) * list idx) (i : nat) :
  Forall (fun e => index_in_shape (n, n, n) (fst e)) (fst acc) ->
  Forall (fun e => index_in_shape (n, n, n) (fst e))
         (fst (ImprovedRayTraversal.traverse_step
                 camera_pos ray_dir n voxel_size intensity step_size acc i)).
Proof.
  intros H. unfold ImprovedRayTraversal.traverse_step.
  destruct acc as [voxel_list visited]. cbn [fst] in H.
  destruct (Rltb _ 0); [exact H|].
  match goal with
  | |- context [negb (?a && ?b && ?c)] =>
      destruct a eqn:Ha; [destruct b eqn:Hb; [destruct c eqn:Hc|]|]
  end; cbn [negb andb]; try exact H.
  destruct (existsb _ visited); [exact H|].
  cbn [fst]. apply Forall_app. split; [exact H|].
  constructor; [|constructor].
  apply in_grid_true in Ha, Hb, Hc.
  unfold index_in_shape. cbn [fst snd]. lia.
Qed.

Lemma traverse_ray_3d_keys_in_grid
    (camera_pos ray_dir : vec3) (n : Z) (voxel_size max_distance intensity : R) :
  Forall (fun e => index_in_shape (n, n, n) (fst e))
         (ImprovedRayTraversal.traverse_ray_3d
            camera_pos ray_dir n voxel_size max_distance intensity).
Proof.
  unfold ImprovedRayTraversal.traverse_ray_3d.
  generalize (seq 0 (Z.to_nat (py_int (max_distance / (voxel_size * (5 / 10)))))).
  intros steps.
  assert (H : Forall (fun e : idx * R => index_in_shape (n, n, n) (fst e))
                     (fst (@nil (idx * R), @nil idx))) by constructor.
  revert H. generalize (@nil (idx * R), @nil idx).
  induction steps as [|i steps IH]; intros acc H; [exact H|].
  cbn [fold_left]. apply IH. now apply traverse_step_keys_in_grid.
Qed.

(** C4. A triangulated point is written to the grid only at an index inside
    the grid on every axis, and a point outside the world-space box is
    dropped: [accumulate_voxel] returns [False] and leaves the state as it
    was.  The voxels that [traverse_ray_3d] hands to the accumulation loop
    all have in-grid indices as well. *)
Theorem voxel_writes_stay_in_bounds :
  (forall (self : StereoVoxelReconstructor.t)
          (st : StereoVoxelReconstructor.state) (p : vec3) (confidence : R),
      shape_nonempty (StereoVoxelReconstructor.voxel_grid_size self) ->
      (forall i, StereoVoxelReconstructor.world_to_voxel self p = Some i ->
                 inside_box self p /\
                 index_in_shape (StereoVoxelReconstructor.voxel_grid_size self) i)
      /\
      (forall j,
          StereoVoxelReconstructor.voxels
            (fst (StereoVoxelReconstructor.accumulate_voxel self st p confidence)) j
          <> StereoVoxelReconstructor.voxels st j ->
          index_in_shape (StereoVoxelReconstructor.voxel_grid_size self) j)
      /\
      (~ inside_box self p ->
       StereoVoxelReconstructor.accumulate_voxel self st p confidence
       = (st, false)))
  /\
  (forall (camera_pos ray_dir : vec3) (grid_size : Z)
          (voxel_size max_distance intensity : R) (key : idx) (w : R),
      In (key, w)
         (ImprovedRayTraversal.traverse_ray_3d
            camera_pos ray_dir grid_size voxel_size max_distance intensity) ->
      index_in_shape (grid_size, grid_size, grid_size) key).
Proof.
  split.
  - intros self st p confidence Hshape. split; [|split].
    + intros i Hi. split; now apply (world_to_voxel_some self p i Hshape).
    + intros j Hj.
      unfold StereoVoxelReconstructor.accumulate_voxel in Hj.
      destruct (StereoVoxelReconstructor.world_to_voxel self p) as [i|] eqn:Hi;
        cbn [fst StereoVoxelReconstructor.voxels] in Hj; [|congruence].
      destruct (idx_eqb i j) eqn:Hij.
      * apply idx_eqb_eq in Hij. subst j.
        now apply (world_to_voxel_some self p i Hshape).
      * apply idx_eqb_neq in Hij. now rewrite grid_add_other in Hj.
    + intros Hout. unfold StereoVoxelReconstructor.accumulate_voxel.
      now rewrite world_to_voxel_none.
  - intros camera_pos ray_dir n voxel_size max_distance intensity key w Hin.
    pose proof (traverse_ray_3d_keys_in_grid
                  camera_pos ray_dir n voxel_size max_distance intensity) as H.
    rewrite Forall_forall in H. exact (H _ Hin).
Qed.

Lemma py_int_of_nonneg (x : R) (z : Z) :
  0 <= x -> IZR z <= x < IZR z + 1 -> py_int x = z.
Proof.
  intros H0 Hz. unfold py_int.
  replace (Rleb 0 x) with true by (symmetry; now apply Rleb_true).
  symmetry. apply Int_part_spec. lra.
Qed.

(** A point in the middle of cell (35, 70, 30) of the default grid. *)
Lemma world_to_voxel_example :
  StereoVoxelReconstructor.world_to_voxel StereoVoxelReconstructor.init
    (mkVec (105 / 1000) (205 / 1000) (305 / 1000))
  = Some (35, 70, 30)%Z.
Proof.
  unfold StereoVoxelReconstructor.world_to_voxel.
  cbn [StereoVoxelReconstructor.bounds_x StereoVoxelReconstructor.bounds_y
       StereoVoxelReconstructor.bounds_z StereoVoxelReconstructor.voxel_size
       StereoVoxelReconstructor.voxel_grid_size StereoVoxelReconstructor.init
       fst snd vec_x vec_y vec_z].
  replace (StereoVoxelReconstructor.in_interval _ (105 / 1000) _) with true
    by (symmetry; apply in_interval_true; lra).
  replace (StereoVoxelReconstructor.in_interval _ (205 / 1000) _) with true
    by (symmetry; apply in_interval_true; lra).
  replace (StereoVoxelReconstructor.in_interval _ (305 / 1000) _) with true
    by (symmetry; apply in_interval_true; lra).
  cbn [negb].
  rewrite (py_int_of_nonneg _ 35), (py_int_of_nonneg _ 70),
    (py_int_of_nonneg _ 30) by lra.
  reflexivity.
Qed.

Lemma voxel_writes_stay_in_bounds_witness :
  let self := StereoVoxelReconstructor.init in
  let st := StereoVoxelReconstructor.init_state in
  (StereoVoxelReconstructor.world_to_voxel self
     (mkVec (105 / 1000) (205 / 1000) (305 / 1000)) = Some (35, 70, 30)%Z /\
   index_in_shape (100, 100, 100)%Z (35, 70, 30)%Z) /\
  (~ inside_box self (mkVec 1 0 (5 / 10)) /\
   StereoVoxelReconstructor.accumulate_voxel self st (mkVec 1 0 (5 / 10)) 1
   = (st, false)).
Proof.
  intros self st.
  assert (Hshape : shape_nonempty
                     (StereoVoxelReconstructor.voxel_grid_size self)).
  { unfold shape_nonempty. cbn. lia. }
  assert (Hout : ~ inside_box self (mkVec 1 0 (5 / 10))).
  { unfold inside_box. cbn. lra. }
  split; split.
  - exact world_to_voxel_example.
  - exact (proj2 (proj1 (proj1 voxel_writes_stay_in_bounds self st
                           (mkVec (105 / 1000) (205 / 1000) (305 / 1000)) 1
                           Hshape)
                        (35, 70, 30)%Z world_to_voxel_example)).
  - exact Hout.
  - exact (proj2 (proj2 (proj1 voxel_writes_stay_in_bounds self st
                           (mkVec 1 0 (5 / 10)) 1 Hshape)) Hout).
Defined.

(** ** The motion pixel extractor *)

Lemma nth_map2 {A B C : Type} (f : A -> B -> C) (d1 : A) (d2 : B) (d : C) :
  forall (l1 : list A) (l2 : list B) (n : nat),
    (n < length (map2 f l1 l2))%nat ->
    nth n (map2 f l1 l2) d = f (nth n l1 d1) (nth n l2 d2).
Proof.
  unfold map2.
  induction l1 as [|a l1 IH]; intros [|b l2] n Hn; cbn in *; try lia.
  destruct n as [|n]; [reflexivity|]. apply IH. lia.
Qed.

Lemma nth_map2_absorbing {A B C : Type} (f : A -> B -> C)
    (d1 : A) (d2 : B) (d : C) :
  (forall b, f d1 b = d) -> (forall a, f a d2 = d) ->
  forall (l1 : list A) (l2 : list B) (n : nat),
    nth n (map2 f l1 l2) d = f (nth n l1 d1) (nth n l2 d2).
Proof.
  intros Hl Hr. unfold map2.
  induction l1 as [|a l1 IH]; intros l2 n.
  - cbn. destruct n; now rewrite Hl.
  - destruct l2 as [|b l2].
    + cbn. destruct n; now rewrite Hr.
    + destruct n as [|n]; [reflexivity|]. cbn. apply IH.
Qed.

Lemma map2_nil_r {A B C : Type} (f : A -> B -> C) (l : list A) :
  map2 f l [] = [].
Proof. unfold map2. now destruct l. Qed.

(** A true entry of a mask [row > k] sits on an entry of the row above [k]. *)
Lemma nth_gt_row (k : Z) (row : list Z) (x : nat) :
  nth x (map (fun v => (v >? k)%Z) row) false = true ->
  (x < length row)%nat /\ (nth x row 0 > k)%Z.
Proof.
  revert x. induction row as [|v row IH]; intros [|x] H; cbn in *;
    try discriminate.
  - split; [lia|]. lia.
  - destruct (IH x H). split; [lia|assumption].
Qed.

Lemma nth_gt_mask (k : Z) (arr : image) (y x : nat) :
  nth x (nth y (gt_mask arr k) []) false = true ->
  (x < length (nth y arr []))%nat /\ (pixel_at arr y x > k)%Z.
Proof.
  unfold gt_mask, pixel_at.
  change (@nil bool) with (map (fun v => (v >? k)%Z) []).
  rewrite map_nth. apply nth_gt_row.
Qed.

Lemma nth_and_mask (m1 m2 : list (list bool)) (y x : nat) :
  nth x (nth y (and_mask m1 m2) []) false
  = nth x (nth y m1 []) false && nth x (nth y m2 []) false.
Proof.
  unfold and_mask.
  rewrite (nth_map2_absorbing (map2 andb) [] [] []);
    [|reflexivity|apply map2_nil_r].
  apply nth_map2_absorbing; [reflexivity|apply andb_false_r].
Qed.

(** Inside the common shape, [absdiff] is the absolute difference. *)
Lemma nth_absdiff (a b : image) (y x : nat) :
  (x < length (nth y (absdiff a b) []))%nat ->
  pixel_at (absdiff a b) y x = Z.abs (pixel_at a y x - pixel_at b y x).
Proof.
  unfold absdiff, pixel_at.
  rewrite (nth_map2_absorbing (map2 (fun x0 y0 => Z.abs (x0 - y0))) [] [] []);
    [|reflexivity|apply map2_nil_r].
  intros Hx.
  exact (nth_map2 (fun x0 y0 => Z.abs (x0 - y0)) 0%Z 0%Z 0%Z _ _ _ Hx).
Qed.

Lemma where_row_spec (y x0 : nat) (row : list bool) (y' x' : nat) :
  In (y', x') (where_row y x0 row) ->
  y' = y /\ (x0 <= x')%nat /\ nth (x' - x0) row false = true.
Proof.
  revert x0. induction row as [|b row IH]; intros x0 Hin; cbn in Hin;
    [contradiction|].
  assert (Hrest : In (y', x') (where_row y (S x0) row) ->
                  y' = y /\ (x0 <= x')%nat /\
                  nth (x' - x0) (b :: row) false = true).
  { intros H. destruct (IH _ H) as (-> & Hle & Hn).
    split; [reflexivity|]. split; [lia|].
    replace (x' - x0)%nat with (S (x' - S x0)) by lia. exact Hn. }
  destruct b.
  - destruct Hin as [[= <- <-]|Hin]; [|auto].
    split; [reflexivity|]. split; [lia|].
    now rewrite Nat.sub_diag.
  - auto.
Qed.

Lemma where_rows_spec (y0 : nat) (m : list (list bool)) (y x : nat) :
  In (y, x) (where_rows y0 m) ->
  (y0 <= y)%nat /\ nth x (nth (y - y0) m []) false = true.
Proof.
  revert y0. induction m as [|row m IH]; intros y0 Hin; cbn in Hin;
    [contradiction|].
  apply in_app_or in Hin. destruct Hin as [Hin|Hin].
  - apply where_row_spec in Hin. destruct Hin as (-> & _ & Hn).
    split; [lia|]. rewrite Nat.sub_diag. cbn. now rewrite Nat.sub_0_r in Hn.
  - destruct (IH _ Hin) as (Hle & Hn). split; [lia|].
    replace (y - y0)%nat with (S (y - S y0)) by lia. exact Hn.
Qed.

Lemma np_argwhere_spec (m : list (list bool)) (y x : nat) :
  In (y, x) (np_argwhere m) -> nth x (nth y m []) false = true.
Proof.
  intros H. apply where_rows_spec in H. destruct H as (_ & H).
  now rewrite Nat.sub_0_r in H.
Qed.

Lemma stride_from_incl {A : Type} (step : nat) (l : list A) :
  forall skip a, In a (stride_from step skip l) -> In a l.
Proof.
  induction l as [|x l IH]; intros skip a H; cbn in H; [contradiction|].
  destruct skip as [|k].
  - destruct H as [<-|H]; [now left|right; eauto].
  - right. eauto.
Qed.

Lemma firstn_incl {A : Type} (n : nat) (l : list A) (a : A) :
  In a (firstn n l) -> In a l.
Proof.
  revert l. induction n as [|n IH]; intros [|x l] H; cbn in H;
    try contradiction.
  destruct H as [<-|H]; [now left|right; auto].
Qed.

(** C7. A pixel is reported by [detect_motion_pixels] only if its absolute
    difference from the previous frame exceeds the motion threshold and its
    intensity in the current frame exceeds the intensity threshold, both at
    once; and with no previous frame the result is the empty list. *)
Theorem motion_pixels_pass_both_thresholds
    (self : StereoVoxelReconstructor.t) (current : image)
    (max_pixels : positive) :
  StereoVoxelReconstructor.detect_motion_pixels self current None max_pixels
  = []
  /\
  forall (previous : image) (x y : nat) (intensity : Z),
    In (x, y, intensity)
       (StereoVoxelReconstructor.detect_motion_pixels
          self current (Some previous) max_pixels) ->
    intensity = pixel_at current y x /\
    (Z.abs (pixel_at current y x - pixel_at previous y x)
     > StereoVoxelReconstructor.motion_threshold self)%Z /\
    (pixel_at current y x
     > StereoVoxelReconstructor.min_pixel_intensity self)%Z.
Proof.
  split; [reflexivity|].
  intros previous x y intensity Hin.
  unfold StereoVoxelReconstructor.detect_motion_pixels in Hin.
  set (mask := and_mask _ _) in Hin.
  destruct (length (np_argwhere mask) =? 0)%nat; [contradiction|].
  set (pixels := map _ (np_argwhere mask)) in Hin.
  assert (Hp : In (x, y, intensity) pixels).
  { destruct (Pos.to_nat max_pixels <? length pixels)%nat; [|exact Hin].
    apply firstn_incl in Hin. now apply stride_from_incl in Hin. }
  unfold pixels in Hp. apply in_map_iff in Hp.
  destruct Hp as ([y' x'] & [= -> -> <-] & Hyx). cbn [fst snd].
  apply np_argwhere_spec in Hyx. unfold mask in Hyx.
  rewrite nth_and_mask in Hyx. apply andb_true_iff in Hyx.
  destruct Hyx as (Hmotion & Hvalid).
  apply nth_gt_mask in Hmotion, Hvalid.
  destruct Hmotion as (Hlen & Hmotion). destruct Hvalid as (_ & Hvalid).
  rewrite nth_absdiff in Hmotion by exact Hlen.
  auto.
Qed.

(** Four pixels: one moving and bright, one moving but dim, one bright but
    still, one moving and bright.  Only the first and the last are kept. *)
Example detect_motion_pixels_example :
  StereoVoxelReconstructor.detect_motion_pixels StereoVoxelReconstructor.init
    [[200; 50]; [120; 200]]%Z (Some [[100; 10]; [110; 250]]%Z) 100
  = [(0, 0, 200%Z); (1, 1, 200%Z)]%nat.
Proof. reflexivity. Qed.

Lemma motion_pixels_pass_both_thresholds_witness :
  let current := [[200; 50]; [120; 200]]%Z in
  let previous := [[100; 10]; [110; 250]]%Z in
  (200 = pixel_at current 1 1 /\
   Z.abs (pixel_at current 1 1 - pixel_at previous 1 1) > 30 /\
   pixel_at current 1 1 > 100)%Z.
Proof.
  intros current previous.
  refine (proj2 (motion_pixels_pass_both_thresholds
                   StereoVoxelReconstructor.init current 100)
                previous 1%nat 1%nat 200%Z _).
  right. left. reflexivity.
Defined.

(** ** The frame cycle: accumulation, boost, decay *)

Section CycleProperties.

Import MainLoop.

Variable traverse : vec3 -> vec3 -> R -> list (idx * R).
Variables left_pos right_pos : vec3.
Variables left_calib right_calib : option CameraCalibration.t.
Variable threshold : Z.
Variables boost decay : R.

Lemma contributions_app (ws1 ws2 : list (idx * R)) (i : idx) :
  contributions (ws1 ++ ws2) i = contributions ws1 i + contributions ws2 i.
Proof.
  induction ws1 as [|e ws1 IH]; cbn; [ring|].
  destruct (idx_eqb (fst e) i); rewrite IH; ring.
Qed.

Lemma seen_app (ws1 ws2 : list (idx * R)) (i : idx) :
  seen (ws1 ++ ws2) i = seen ws1 i || seen ws2 i.
Proof. unfold seen. apply existsb_app. Qed.

Lemma accumulate_ray_app (cam : nat) (gh : grid * hits)
    (ws1 ws2 : list (idx * R)) :
  accumulate_ray cam gh (ws1 ++ ws2)
  = accumulate_ray cam (accumulate_ray cam gh ws1) ws2.
Proof. unfold accumulate_ray. apply fold_left_app. Qed.

(** The accumulation loop adds to each cell the sum of its entries. *)
Lemma accumulate_ray_grid (cam : nat) (ws : list (idx * R)) :
  forall (gh : grid * hits) (i : idx),
    fst (accumulate_ray cam gh ws) i = fst gh i + contributions ws i.
Proof.
  induction ws as [|e ws IH]; intros gh i.
  - cbn. ring.
  - change (accumulate_ray cam gh (e :: ws))
      with (accumulate_ray cam
              (grid_add (fst gh) (fst e) (snd e * (1 / 10)),
               set_hit (snd gh) (fst e) cam) ws).
    rewrite IH. cbn [fst contributions]. unfold grid_add.
    destruct (idx_eqb (fst e) i); ring.
Qed.

(** It marks, for its camera, exactly the cells among its entries. *)
Lemma accumulate_ray_hits (cam : nat) (ws : list (idx * R)) :
  forall (gh : grid * hits) (i : idx) (c : nat),
    snd (accumulate_ray cam gh ws) i c
    = snd gh i c || ((c =? cam)%nat && seen ws i).
Proof.
  induction ws as [|e ws IH]; intros gh i c.
  - cbn. now rewrite andb_false_r, orb_false_r.
  - change (accumulate_ray cam gh (e :: ws))
      with (accumulate_ray cam
              (grid_add (fst gh) (fst e) (snd e * (1 / 10)),
               set_hit (snd gh) (fst e) cam) ws).
    rewrite IH. cbn [snd]. unfold set_hit, seen. cbn [existsb].
    destruct (idx_eqb (fst e) i), (c =? cam)%nat, (snd gh i c),
      (existsb _ ws); reflexivity.
Qed.

(** One camera's pixel loop is the accumulation of all its entries. *)
Lemma process_camera_writes (cam : nat) (camera_pos : vec3)
    (calib : option CameraCalibration.t) (img : image)
    (coords : list (nat * nat)) :
  forall gh : grid * hits,
    process_camera traverse cam camera_pos calib img coords gh
    = accumulate_ray cam gh (camera_writes traverse camera_pos calib img coords).
Proof.
  unfold process_camera.
  induction coords as [|yx coords IH]; intros gh; [reflexivity|].
  cbn [fold_left camera_writes flat_map]. rewrite IH, accumulate_ray_app.
  f_equal. unfold process_pixel. cbv zeta.
  destruct (Rltb _ (3 / 10)); reflexivity.
Qed.

Lemma accumulate_stage_grid (st : state) (img_left img_right : image) (i : idx) :
  fst (accumulate_stage traverse left_pos right_pos left_calib right_calib
                        threshold st img_left img_right) i
  = voxel_grid st i
    + contributions
        (left_writes traverse left_pos left_calib threshold st img_left
         ++ right_writes traverse right_pos right_calib threshold st img_right)
        i.
Proof.
  unfold accumulate_stage. cbv zeta.
  rewrite !process_camera_writes, !accumulate_ray_grid, contributions_app.
  cbn [fst]. unfold left_writes, right_writes. ring.
Qed.

Lemma accumulate_stage_both (st : state) (img_left img_right : image) (i : idx) :
  both_cameras
    (snd (accumulate_stage traverse left_pos right_pos left_calib right_calib
                           threshold st img_left img_right)) i
  = seen (left_writes traverse left_pos left_calib threshold st img_left) i
    && seen (right_writes traverse right_pos right_calib threshold st img_right) i.
Proof.
  unfold accumulate_stage, both_cameras. cbv zeta.
  rewrite !process_camera_writes, !accumulate_ray_hits.
  cbn [snd]. unfold no_hits, left_writes, right_writes. cbn [Nat.eqb].
  cbn [orb andb]. now rewrite !orb_false_r.
Qed.

(** The value of every cell after one pass. *)
Lemma frame_cycle_cell (st : state) (img_left img_right : image) (i : idx) :
  let lw := left_writes traverse left_pos left_calib threshold st img_left in
  let rw := right_writes traverse right_pos right_calib threshold st img_right in
  let total := voxel_grid st i + contributions (lw ++ rw) i in
  voxel_grid (frame_cycle traverse left_pos right_pos left_calib right_calib
                          threshold boost decay st img_left img_right) i
  = if seen lw i && seen rw i then total * boost * decay else total * decay.
Proof.
  intros lw rw total. unfold frame_cycle. cbv zeta. cbn [voxel_grid].
  unfold decay_stage, boost_stage. cbn [fst snd].
  unfold grid_scale, grid_scale_where.
  rewrite accumulate_stage_both, accumulate_stage_grid.
  fold lw rw total. destruct (seen lw i && seen rw i); reflexivity.
Qed.

End CycleProperties.

(** C2. In one pass of the loop of either script the boost comes before the
    decay and each is applied once: a cell that both cameras wrote to ends the
    pass at (base + contributions) * boost * decay, and every other cell at
    (base + contributions) * decay. *)
Theorem boost_then_decay_once :
  (forall (calib : option CameraCalibration.t) (st : MainLoop.state)
          (img_left img_right : image) (i : idx),
      let lw := ImprovedRayTraversal.left_writes calib st img_left in
      let rw := ImprovedRayTraversal.right_writes calib st img_right in
      let total :=
        MainLoop.voxel_grid st i + MainLoop.contributions (lw ++ rw) i in
      MainLoop.voxel_grid
        (ImprovedRayTraversal.frame_cycle calib st img_left img_right) i
      = if MainLoop.seen lw i && MainLoop.seen rw i
        then total * (15 / 10) * (99 / 100)
        else total * (99 / 100))
  /\
  (forall (config : ConfigurableReconstruction.SystemConfig)
          (left_calib right_calib : option CameraCalibration.t)
          (st : MainLoop.state) (img_left img_right : image) (i : idx),
      let lw :=
        ConfigurableReconstruction.left_writes config left_calib st img_left in
      let rw :=
        ConfigurableReconstruction.right_writes config right_calib st img_right in
      let total :=
        MainLoop.voxel_grid st i + MainLoop.contributions (lw ++ rw) i in
      MainLoop.voxel_grid
        (ConfigurableReconstruction.frame_cycle
           config left_calib right_calib st img_left img_right) i
      = if MainLoop.seen lw i && MainLoop.seen rw i
        then total * ConfigurableReconstruction.multi_camera_boost config
                   * ConfigurableReconstruction.temporal_decay config
        else total * ConfigurableReconstruction.temporal_decay config).
Proof.
  split.
  - intros calib st img_left img_right i.
    apply (frame_cycle_cell ImprovedRayTraversal.traverse_call).
  - intros config left_calib right_calib st img_left img_right i.
    apply (frame_cycle_cell (ConfigurableReconstruction.traverse_call config)).
Qed.

(** ** Non-negativity of the grid *)

Lemma fold_left_invariant {A B : Type} (P : A -> Prop) (f : A -> B -> A) :
  (forall a b, P a -> P (f a b)) ->
  forall (l : list B) (a : A), P a -> P (fold_left f l a).
Proof.
  intros Hf. induction l as [|b l IH]; intros a Ha; [exact Ha|].
  cbn. apply IH. now apply Hf.
Qed.

Lemma zeros_nonneg : nonneg_grid zeros.
Proof. intros i. unfold zeros. lra. Qed.

Lemma grid_add_nonneg (g : grid) (i : idx) (w : R) :
  nonneg_grid g -> 0 <= w -> nonneg_grid (grid_add g i w).
Proof.
  intros Hg Hw j. unfold grid_add. specialize (Hg j).
  destruct (idx_eqb i j); lra.
Qed.

Lemma grid_scale_nonneg (g : grid) (k : R) :
  nonneg_grid g -> 0 <= k -> nonneg_grid (grid_scale g k).
Proof. intros Hg Hk j. unfold grid_scale. specialize (Hg j). nra. Qed.

Lemma grid_scale_where_nonneg (mask : idx -> bool) (g : grid) (k : R) :
  nonneg_grid g -> 0 <= k -> nonneg_grid (grid_scale_where mask g k).
Proof.
  intros Hg Hk j. unfold grid_scale_where. specialize (Hg j).
  destruct (mask j); nra.
Qed.

Lemma accumulate_voxel_nonneg
    (self : StereoVoxelReconstructor.t) (st : StereoVoxelReconstructor.state)
    (p : vec3) (confidence : R) :
  0 <= confidence ->
  nonneg_grid (StereoVoxelReconstructor.voxels st) ->
  nonneg_grid
    (StereoVoxelReconstructor.voxels
       (fst (StereoVoxelReconstructor.accumulate_voxel self st p confidence))).
Proof.
  intros Hc Hst. unfold StereoVoxelReconstructor.accumulate_voxel.
  destruct (StereoVoxelReconstructor.world_to_voxel self p); cbn; [|exact Hst].
  now apply grid_add_nonneg.
Qed.

Lemma try_pair_nonneg (self : StereoVoxelReconstructor.t)
    (pl pr : StereoVoxelReconstructor.motion_pixel)
    (acc : StereoVoxelReconstructor.state * Z) :
  nonneg_grid (StereoVoxelReconstructor.voxels (fst acc)) ->
  nonneg_grid
    (StereoVoxelReconstructor.voxels
       (fst (StereoVoxelReconstructor.try_pair self pl pr acc))).
Proof.
  destruct acc as [st n], pl as [[px_l py_l] int_l], pr as [[px_r py_r] int_r].
  cbn [fst]. intros Hst. unfold StereoVoxelReconstructor.try_pair.
  destruct (StereoVoxelReconstructor.triangulate_pixel_pair _ _ _ _ _)
    as [[point_3d error]|]; [|exact Hst].
  set (confidence := IZR ((int_l + int_r) mod 256) / (2 * 255)).
  assert (Hc : 0 <= confidence).
  { unfold confidence. apply Rmult_le_pos.
    - apply IZR_le. apply Z.mod_pos_bound. lia.
    - apply Rlt_le, Rinv_0_lt_compat. lra. }
  pose proof (accumulate_voxel_nonneg self st point_3d confidence Hc Hst) as H.
  destruct (StereoVoxelReconstructor.accumulate_voxel
              self st point_3d confidence) as [st' ok].
  cbn [fst] in H. destruct ok; exact H.
Qed.

Lemma process_frame_pair_nonneg (self : StereoVoxelReconstructor.t)
    (st : StereoVoxelReconstructor.state) (img_left img_right : image) :
  nonneg_grid (StereoVoxelReconstructor.voxels st) ->
  nonneg_grid
    (StereoVoxelReconstructor.voxels
       (fst (StereoVoxelReconstructor.process_frame_pair
               self st img_left img_right))).
Proof.
  intros Hst. unfold StereoVoxelReconstructor.process_frame_pair. cbv zeta.
  set (st0 := StereoVoxelReconstructor.mkState _ _ _ _ _ _).
  assert (H0 : nonneg_grid (StereoVoxelReconstructor.voxels (fst (st0, 0%Z))))
    by exact Hst.
  assert (Hloop :
    forall pls prs,
      nonneg_grid
        (StereoVoxelReconstructor.voxels
           (fst (fold_left
                   (fun acc pl =>
                      fold_left
                        (fun acc pr =>
                           StereoVoxelReconstructor.try_pair self pl pr acc)
                        prs acc)
                   pls (st0, 0%Z))))).
  { intros pls prs.
    apply (fold_left_invariant
             (fun acc => nonneg_grid
                           (StereoVoxelReconstructor.voxels (fst acc))));
      [|exact H0].
    intros acc pl Hacc.
    apply (fold_left_invariant
             (fun acc => nonneg_grid
                           (StereoVoxelReconstructor.voxels (fst acc))));
      [|exact Hacc].
    intros acc' pr. apply try_pair_nonneg. }
  destruct (StereoVoxelReconstructor.detect_motion_pixels self img_left _ _);
    [exact H0|].
  destruct (StereoVoxelReconstructor.detect_motion_pixels self img_right _ _);
    [exact H0|].
  apply Hloop.
Qed.

Lemma process_frames_nonneg (self : StereoVoxelReconstructor.t)
    (frames : list (image * image)) :
  forall st : StereoVoxelReconstructor.state,
    nonneg_grid (StereoVoxelReconstructor.voxels st) ->
    nonneg_grid
      (StereoVoxelReconstructor.voxels
         (StereoVoxelReconstructor.process_frames self st frames)).
Proof.
  unfold StereoVoxelReconstructor.process_frames.
  apply (fold_left_invariant
           (fun st => nonneg_grid (StereoVoxelReconstructor.voxels st))).
  intros st f. apply process_frame_pair_nonneg.
Qed.

Lemma contributions_nonneg (ws : list (idx * R)) (i : idx) :
  nonneg_weights ws -> 0 <= MainLoop.contributions ws i.
Proof.
  unfold nonneg_weights.
  induction 1 as [|e ws He Hws IH]; cbn; [lra|].
  destruct (idx_eqb (fst e) i); lra.
Qed.

Lemma traverse_step_weights_nonneg
    (camera_pos ray_dir : vec3) (n : Z) (voxel_size intensity step_size : R)
    (acc : list (idx * R) * list idx) (i : nat) :
  0 <= intensity ->
  nonneg_weights (fst acc) ->
  nonneg_weights
    (fst (ImprovedRayTraversal.traverse_step
            camera_pos ray_dir n voxel_size intensity step_size acc i)).
Proof.
  intros Hint H. unfold ImprovedRayTraversal.traverse_step.
  destruct acc as [voxel_list visited]. cbn [fst] in H.
  destruct (Rltb _ 0); [exact H|].
  destruct (negb _); [exact H|].
  destruct (existsb _ visited); [exact H|].
  cbn [fst]. apply Forall_app. split; [exact H|].
  constructor; [|constructor]. cbn [snd].
  apply Rmult_le_pos; [exact Hint|].
  apply Rlt_le, Rdiv_lt_0_compat; [lra|].
  match goal with |- 0 < 1 + norm ?v * _ => pose proof (norm_nonneg v) end.
  nra.
Qed.

Lemma traverse_call_weights_nonneg (camera_pos ray_dir : vec3) (intensity : R) :
  0 <= intensity ->
  nonneg_weights (ImprovedRayTraversal.traverse_call camera_pos ray_dir intensity).
Proof.
  intros Hint.
  unfold ImprovedRayTraversal.traverse_call,
    ImprovedRayTraversal.traverse_ray_3d.
  cbv zeta.
  apply (fold_left_invariant (fun acc => nonneg_weights (fst acc))).
  - intros acc i. now apply traverse_step_weights_nonneg.
  - constructor.
Qed.

Section CycleNonneg.

Import MainLoop.

Variable traverse : vec3 -> vec3 -> R -> list (idx * R).
Variables left_pos right_pos : vec3.
Variables left_calib right_calib : option CameraCalibration.t.
Variable threshold : Z.
Variables boost decay : R.

Hypothesis traverse_nonneg :
  forall camera_pos ray_dir intensity,
    0 <= intensity -> nonneg_weights (traverse camera_pos ray_dir intensity).
Hypothesis boost_nonneg : 0 <= boost.
Hypothesis decay_nonneg : 0 <= decay.

Lemma camera_writes_nonneg (camera_pos : vec3)
    (calib : option CameraCalibration.t) (img : image)
    (coords : list (nat * nat)) :
  nonneg_weights (camera_writes traverse camera_pos calib img coords).
Proof.
  unfold camera_writes, nonneg_weights.
  induction coords as [|yx coords IH]; [constructor|].
  cbn [flat_map]. apply Forall_app. split; [|exact IH].
  destruct (Rltb _ (3 / 10)) eqn:Hlow; [constructor|].
  apply traverse_nonneg. apply Rltb_false in Hlow. lra.
Qed.

Lemma accumulate_stage_nonneg (st : state) (img_left img_right : image) :
  nonneg_grid (voxel_grid st) ->
  nonneg_grid
    (fst (accumulate_stage traverse left_pos right_pos left_calib right_calib
                           threshold st img_left img_right)).
Proof.
  intros Hst i. rewrite accumulate_stage_grid.
  assert (0 <= contributions
                 (left_writes traverse left_pos left_calib threshold st img_left
                  ++ right_writes traverse right_pos right_calib threshold st
                       img_right) i).
  { apply contributions_nonneg. apply Forall_app.
    split; apply camera_writes_nonneg. }
  specialize (Hst i). lra.
Qed.

Lemma boost_stage_nonneg (gh : grid * hits) :
  nonneg_grid (fst gh) -> nonneg_grid (fst (boost_stage boost gh)).
Proof. intros H. now apply grid_scale_where_nonneg. Qed.

Lemma decay_stage_nonneg (gh : grid * hits) :
  nonneg_grid (fst gh) -> nonneg_grid (fst (decay_stage decay gh)).
Proof. intros H. now apply grid_scale_nonneg. Qed.

Lemma frame_cycle_nonneg (st : state) (img_left img_right : image) :
  nonneg_grid (voxel_grid st) ->
  nonneg_grid
    (voxel_grid (frame_cycle traverse left_pos right_pos left_calib right_calib
                             threshold boost decay st img_left img_right)).
Proof.
  intros Hst. unfold frame_cycle. cbv zeta. cbn [voxel_grid].
  now apply decay_stage_nonneg, boost_stage_nonneg, accumulate_stage_nonneg.
Qed.

Lemma run_nonneg (frames : list (option image * option image)) :
  forall st : state,
    nonneg_grid (voxel_grid st) ->
    nonneg_grid
      (voxel_grid (run traverse left_pos right_pos left_calib right_calib
                       threshold boost decay st frames)).
Proof.
  unfold run.
  apply (fold_left_invariant (fun st => nonneg_grid (voxel_grid st))).
  intros st [[img_left|] [img_right|]] Hst; cbn; try exact Hst.
  now apply frame_cycle_nonneg.
Qed.

End CycleNonneg.

(** C8. Starting from the all-zero grid, every cell stays at or above 0:
    after any number of processed frame pairs of the reconstructor (whose
    only writes are [accumulate_voxel] with a non-negative confidence), and,
    in the loop of improved_ray_traversal.py, after any number of passes and
    after each of the three stages of the next pass (accumulation, boost,
    decay). *)
Theorem grid_stays_nonnegative :
  (forall (self : StereoVoxelReconstructor.t)
          (st : StereoVoxelReconstructor.state) (p : vec3) (confidence : R),
      0 <= confidence ->
      nonneg_grid (StereoVoxelReconstructor.voxels st) ->
      nonneg_grid
        (StereoVoxelReconstructor.voxels
           (fst (StereoVoxelReconstructor.accumulate_voxel
                   self st p confidence))))
  /\
  (forall (self : StereoVoxelReconstructor.t) (frames : list (image * image)),
      nonneg_grid
        (StereoVoxelReconstructor.voxels
           (StereoVoxelReconstructor.process_frames
              self StereoVoxelReconstructor.init_state frames)))
  /\
  (forall (calib : option CameraCalibration.t) (prev_left prev_right : image)
          (frames : list (option image * option image))
          (img_left img_right : image),
      let st :=
        ImprovedRayTraversal.run
          calib (ImprovedRayTraversal.start prev_left prev_right) frames in
      let accumulated :=
        MainLoop.accumulate_stage
          ImprovedRayTraversal.traverse_call
          ImprovedRayTraversal.CAMERA_LEFT_POS
          ImprovedRayTraversal.CAMERA_RIGHT_POS calib calib
          ImprovedRayTraversal.motion_threshold st img_left img_right in
      let boosted := MainLoop.boost_stage (15 / 10) accumulated in
      let decayed := MainLoop.decay_stage (99 / 100) boosted in
      nonneg_grid (MainLoop.voxel_grid st) /\
      nonneg_grid (fst accumulated) /\
      nonneg_grid (fst boosted) /\
      nonneg_grid (fst decayed) /\
      MainLoop.voxel_grid
        (ImprovedRayTraversal.frame_cycle calib st img_left img_right)
      = fst decayed).
Proof.
  split; [|split].
  - intros self st p confidence. apply accumulate_voxel_nonneg.
  - intros self frames. apply process_frames_nonneg. exact zeros_nonneg.
  - intros calib prev_left prev_right frames img_left img_right
           st accumulated boosted decayed.
    assert (Hb : 0 <= 15 / 10) by lra.
    assert (Hd : 0 <= 99 / 100) by lra.
    assert (Hst : nonneg_grid (MainLoop.voxel_grid st)).
    { apply (run_nonneg ImprovedRayTraversal.traverse_call _ _ _ _ _ _ _
               traverse_call_weights_nonneg Hb Hd).
      exact zeros_nonneg. }
    assert (Hacc : nonneg_grid (fst accumulated)).
    { apply (accumulate_stage_nonneg ImprovedRayTraversal.traverse_call
               _ _ _ _ _ traverse_call_weights_nonneg). exact Hst. }
    assert (Hboost : nonneg_grid (fst boosted)).
    { now apply boost_stage_nonneg. }
    repeat split; try assumption.
    now apply decay_stage_nonneg.
Qed.

Lemma grid_stays_nonnegative_witness :
  nonneg_grid
    (StereoVoxelReconstructor.voxels
       (fst (StereoVoxelReconstructor.accumulate_voxel
               StereoVoxelReconstructor.init
               StereoVoxelReconstructor.init_state
               (mkVec (105 / 1000) (205 / 1000) (305 / 1000)) 1))).
Proof.
  apply (proj1 grid_stays_nonnegative); [lra|exact zeros_nonneg].
Defined.

(** ** Decay-only passes *)

(** A pass in which neither camera writes a voxel is a pure decay. *)
Lemma decay_only_cell
    (traverse : vec3 -> vec3 -> R -> list (idx * R))
    (left_pos right_pos : vec3)
    (left_calib right_calib : option CameraCalibration.t)
    (threshold : Z) (boost decay : R)
    (st : MainLoop.state) (img_left img_right : image) (i : idx) :
  MainLoop.left_writes traverse left_pos left_calib threshold st img_left = [] ->
  MainLoop.right_writes traverse right_pos right_calib threshold st img_right
  = [] ->
  MainLoop.voxel_grid
    (MainLoop.frame_cycle traverse left_pos right_pos left_calib right_calib
                          threshold boost decay st img_left img_right) i
  = MainLoop.voxel_grid st i * decay.
Proof.
  intros Hl Hr. rewrite frame_cycle_cell. cbv zeta. rewrite Hl, Hr. cbn. ring.
Qed.

(** C3, as stated, fails on an empty cell: with the all-zero grid and a frame
    pair equal to the previous one, no voxel is written, and cell (0,0,0) is
    0 before the pass and 0 after it, which is not a strict decrease. *)
Lemma decay_of_empty_cell_is_not_strict :
  let img := [[10; 20]; [30; 40]]%Z in
  let st := ImprovedRayTraversal.start img img in
  ImprovedRayTraversal.left_writes None st img = [] /\
  ImprovedRayTraversal.right_writes None st img = [] /\
  ~ (MainLoop.voxel_grid
       (ImprovedRayTraversal.frame_cycle None st img img) (0, 0, 0)%Z
     < MainLoop.voxel_grid st (0, 0, 0)%Z).
Proof.
  intros img st.
  assert (Hl : ImprovedRayTraversal.left_writes None st img = [])
    by reflexivity.
  assert (Hr : ImprovedRayTraversal.right_writes None st img = [])
    by reflexivity.
  split; [exact Hl|]. split; [exact Hr|].
  unfold ImprovedRayTraversal.frame_cycle.
  rewrite (decay_only_cell _ _ _ _ _ _ _ _ _ _ _ _ Hl Hr).
  unfold st, ImprovedRayTraversal.start, zeros. cbn [MainLoop.voxel_grid]. lra.
Qed.

(** C3, amended.  In a pass without voxel writes every cell is multiplied by
    the decay factor (0.99, or a configured factor strictly between 0 and 1):
    a cell above 0 strictly decreases and stays above 0, a cell at 0 stays at
    0, and no non-negative cell increases. *)
Theorem decay_only_pass_shrinks :
  (forall (calib : option CameraCalibration.t) (st : MainLoop.state)
          (img_left img_right : image) (i : idx),
      ImprovedRayTraversal.left_writes calib st img_left = [] ->
      ImprovedRayTraversal.right_writes calib st img_right = [] ->
      let before := MainLoop.voxel_grid st i in
      let after :=
        MainLoop.voxel_grid
          (ImprovedRayTraversal.frame_cycle calib st img_left img_right) i in
      after = before * (99 / 100) /\
      (0 < before -> 0 < after < before) /\
      (before = 0 -> after = 0) /\
      (0 <= before -> after <= before))
  /\
  (forall (config : ConfigurableReconstruction.SystemConfig)
          (left_calib right_calib : option CameraCalibration.t)
          (st : MainLoop.state) (img_left img_right : image) (i : idx),
      0 < ConfigurableReconstruction.temporal_decay config < 1 ->
      ConfigurableReconstruction.left_writes config left_calib st img_left
      = [] ->
      ConfigurableReconstruction.right_writes config right_calib st img_right
      = [] ->
      let before := MainLoop.voxel_grid st i in
      let after :=
        MainLoop.voxel_grid
          (ConfigurableReconstruction.frame_cycle
             config left_calib right_calib st img_left img_right) i in
      after = before * ConfigurableReconstruction.temporal_decay config /\
      (0 < before -> 0 < after < before) /\
      (before = 0 -> after = 0) /\
      (0 <= before -> after <= before)).
Proof.
  split.
  - intros calib st img_left img_right i Hl Hr before after.
    assert (Ha : after = before * (99 / 100)).
    { unfold after, before, ImprovedRayTraversal.frame_cycle.
      now apply decay_only_cell. }
    rewrite Ha. repeat split; intros; nra.
  - intros config left_calib right_calib st img_left img_right i Hd Hl Hr
           before after.
    assert (Ha : after
                 = before * ConfigurableReconstruction.temporal_decay config).
    { unfold after, before, ConfigurableReconstruction.frame_cycle.
      now apply decay_only_cell. }
    rewrite Ha. repeat split; intros; nra.
Qed.

Lemma decay_only_pass_shrinks_witness :
  let img := [[10; 20]; [30; 40]]%Z in
  let st := {| MainLoop.voxel_grid := fun _ => 1;
               MainLoop.camera_hits := MainLoop.no_hits;
               MainLoop.prev_left := img;
               MainLoop.prev_right := img;
               MainLoop.frame_count := 0 |} in
  0 < MainLoop.voxel_grid
        (ImprovedRayTraversal.frame_cycle None st img img) (0, 0, 0)%Z
    < 1.
Proof.
  intros img st.
  refine (proj1 (proj2 (proj1 decay_only_pass_shrinks None st img img
                                (0, 0, 0)%Z _ _)) _).
  - reflexivity.
  - reflexivity.
  - cbn. lra.
Defined.

(** ** More on the ray models *)

Lemma upward_ray_is_unit (nx ny : R) :
  dot (vdiv (mkVec nx ny 1) (norm (mkVec nx ny 1)))
      (vdiv (mkVec nx ny 1) (norm (mkVec nx ny 1))) = 1.
Proof. apply dot_normalized. unfold dot. cbn [vec_x vec_y vec_z]. nra. Qed.

Lemma sideways_ray_is_unit (nx nz : R) :
  dot (vdiv (mkVec nx 1 nz) (norm (mkVec nx 1 nz)))
      (vdiv (mkVec nx 1 nz) (norm (mkVec nx 1 nz))) = 1.
Proof. apply dot_normalized. unfold dot. cbn [vec_x vec_y vec_z]. nra. Qed.

(** X1. Every ray model returns a vector of length 1: the fisheye model of
    both reconstructor classes, the calibration loader's ray, and the ray the
    main loops use (calibrated, or the simple upward projection). *)
Theorem ray_directions_are_unit :
  (forall (self : StereoVoxelReconstructor.t) (pixel_x pixel_y : R),
      let ray := StereoVoxelReconstructor.get_ray_direction self pixel_x pixel_y in
      dot ray ray = 1 /\ norm ray = 1)
  /\
  (forall (pixel_x pixel_y fx fy cx cy k1 : R),
      let ray := CalibratedStereoReconstructor.get_ray_direction
                   pixel_x pixel_y fx fy cx cy k1 in
      dot ray ray = 1 /\ norm ray = 1)
  /\
  (forall (self : CameraCalibration.t) (pixel_x pixel_y : R),
      let ray := CameraCalibration.get_ray_direction self pixel_x pixel_y in
      dot ray ray = 1 /\ norm ray = 1)
  /\
  (forall (calib : option CameraCalibration.t) (px py : nat),
      let ray := MainLoop.ray_direction calib px py in
      dot ray ray = 1 /\ norm ray = 1).
Proof.
  assert (Hunit : forall v, dot v v = 1 -> dot v v = 1 /\ norm v = 1).
  { intros v H. split; [exact H|now apply norm_of_unit]. }
  assert (Hcal : forall (self : CameraCalibration.t) (pixel_x pixel_y : R),
             dot (CameraCalibration.get_ray_direction self pixel_x pixel_y)
                 (CameraCalibration.get_ray_direction self pixel_x pixel_y) = 1).
  { intros self pixel_x pixel_y.
    unfold CameraCalibration.get_ray_direction,
      CameraCalibration.pixel_to_normalized_coords.
    destruct (CameraCalibration.undistort_point self pixel_x pixel_y).
    apply upward_ray_is_unit. }
  repeat split.
  - unfold StereoVoxelReconstructor.get_ray_direction. cbv zeta.
    destruct (Rgtb _ 0); apply upward_ray_is_unit.
  - apply norm_of_unit.
    unfold StereoVoxelReconstructor.get_ray_direction. cbv zeta.
    destruct (Rgtb _ 0); apply upward_ray_is_unit.
  - unfold CalibratedStereoReconstructor.get_ray_direction. cbv zeta.
    destruct (Rgtb _ 0); apply upward_ray_is_unit.
  - apply norm_of_unit.
    unfold CalibratedStereoReconstructor.get_ray_direction. cbv zeta.
    destruct (Rgtb _ 0); apply upward_ray_is_unit.
  - apply Hcal.
  - apply norm_of_unit, Hcal.
  - destruct calib as [c|]; cbn [MainLoop.ray_direction]; [apply Hcal|].
    apply sideways_ray_is_unit.
  - apply norm_of_unit.
    destruct calib as [c|]; cbn [MainLoop.ray_direction]; [apply Hcal|].
    apply sideways_ray_is_unit.
Qed.

(** X2. The pixel at the principal point is not corrected for distortion:
    its ray is exactly (0,0,1), whatever the focal lengths and [k1]. *)
Theorem principal_point_looks_straight_up
    (self : StereoVoxelReconstructor.t) :
  StereoVoxelReconstructor.fx self <> 0 ->
  StereoVoxelReconstructor.fy self <> 0 ->
  StereoVoxelReconstructor.get_ray_direction
    self (StereoVoxelReconstructor.cx self) (StereoVoxelReconstructor.cy self)
  = mkVec 0 0 1.
Proof.
  intros Hfx Hfy. unfold StereoVoxelReconstructor.get_ray_direction.
  replace ((StereoVoxelReconstructor.cx self - StereoVoxelReconstructor.cx self)
           / StereoVoxelReconstructor.fx self) with 0 by (field; exact Hfx).
  replace ((StereoVoxelReconstructor.cy self - StereoVoxelReconstructor.cy self)
           / StereoVoxelReconstructor.fy self) with 0 by (field; exact Hfy).
  cbv zeta.
  replace (0 ^ 2 + 0 ^ 2) with 0 by ring. rewrite sqrt_0.
  replace (Rgtb 0 0) with false by (symmetry; apply Rgtb_false; lra).
  assert (Hu : dot (mkVec 0 0 1) (mkVec 0 0 1) = 1) by (unfold dot; simpl; ring).
  apply (vdiv_unit _ Hu).
Qed.

Lemma principal_point_looks_straight_up_witness :
  StereoVoxelReconstructor.get_ray_direction
    StereoVoxelReconstructor.init 960 540 = mkVec 0 0 1.
Proof.
  apply (principal_point_looks_straight_up StereoVoxelReconstructor.init);
    cbn; lra.
Defined.

(** ** More on the triangulator *)

(** The closest points and what is known about them when the method returns
    a solution. *)
Lemma closest_point_some_inv (o1 d1 o2 d2 m : vec3) (dist : R) :
  StereoVoxelReconstructor.closest_point_between_rays o1 d1 o2 d2
  = Some (m, dist) ->
  let u1 := vdiv d1 (norm d1) in
  let u2 := vdiv d2 (norm d2) in
  let w0 := vsub o1 o2 in
  let denom := dot u1 u1 * dot u2 u2 - dot u1 u2 * dot u1 u2 in
  let s := (dot u1 u2 * dot u2 w0 - dot u2 u2 * dot u1 w0) / denom in
  let t := (dot u1 u1 * dot u2 w0 - dot u1 u2 * dot u1 w0) / denom in
  Rabs (dot u1 u2) <= parallel_cos /\
  denom_eps <= Rabs denom /\
  m = vdiv (vadd (vadd o1 (vscale s u1)) (vadd o2 (vscale t u2))) 2 /\
  dist = norm (vsub (vadd o2 (vscale t u2)) (vadd o1 (vscale s u1))).
Proof.
  intros H u1 u2 w0 denom s t.
  unfold StereoVoxelReconstructor.closest_point_between_rays in H.
  fold u1 u2 in H. cbv zeta in H. fold w0 in H. fold denom in H.
  fold s t in H.
  destruct (Rgtb (Rabs (dot u1 u2)) parallel_cos) eqn:Hp; [discriminate|].
  destruct (Rltb (Rabs denom) denom_eps) eqn:Hd; [discriminate|].
  injection H as <- <-.
  apply Rgtb_false in Hp. apply Rltb_false in Hd. auto.
Qed.

Lemma norm_le_of_dot_le (u v : vec3) : dot u u <= dot v v -> norm u <= norm v.
Proof. intros H. unfold norm. now apply sqrt_le_1_alt. Qed.

(** The parameters that the triangulators solve for give the common
    perpendicular of the two lines, hence their minimal distance. *)
Lemma solved_parameters_are_closest (o1 u1 o2 u2 : vec3) :
  let w0 := vsub o1 o2 in
  let denom := dot u1 u1 * dot u2 u2 - dot u1 u2 * dot u1 u2 in
  let s := (dot u1 u2 * dot u2 w0 - dot u2 u2 * dot u1 w0) / denom in
  let t := (dot u1 u1 * dot u2 w0 - dot u1 u2 * dot u1 w0) / denom in
  let v := vsub (vadd o2 (vscale t u2)) (vadd o1 (vscale s u1)) in
  denom <> 0 ->
  dot v u1 = 0 /\ dot v u2 = 0 /\
  forall s' t' : R,
    norm v <= norm (vsub (vadd o2 (vscale t' u2)) (vadd o1 (vscale s' u1))).
Proof.
  intros w0 denom s t v Hd0.
  assert (Hv : forall u, dot v u = t * dot u2 u - s * dot u1 u - dot w0 u).
  { intros u. unfold v, w0, dot, vsub, vadd, vscale. cbn. ring. }
  pose proof Hd0 as Hd0'. unfold denom in Hd0'.
  assert (H1 : dot v u1 = 0).
  { rewrite Hv, (dot_comm w0 u1), (dot_comm u2 u1). unfold s, t, denom.
    field. exact Hd0'. }
  assert (H2 : dot v u2 = 0).
  { rewrite Hv, (dot_comm w0 u2). unfold s, t, denom.
    field. exact Hd0'. }
  split; [exact H1|]. split; [exact H2|].
  intros s' t'. apply norm_le_of_dot_le.
  set (x := vsub (vscale (t' - t) u2) (vscale (s' - s) u1)).
  assert (Hsum : dot (vsub (vadd o2 (vscale t' u2)) (vadd o1 (vscale s' u1)))
                     (vsub (vadd o2 (vscale t' u2)) (vadd o1 (vscale s' u1)))
                 = dot v v + dot x x + 2 * dot v x).
  { unfold v, x, dot, vsub, vadd, vscale. cbn. ring. }
  assert (Hvx : dot v x = 0).
  { replace (dot v x) with ((t' - t) * dot v u2 - (s' - s) * dot v u1)
      by (unfold x, dot, vsub, vscale; cbn; ring).
    rewrite H1, H2. ring. }
  rewrite Hsum, Hvx.
  assert (0 <= dot x x) by (unfold dot; nra). lra.
Qed.

(** X3. A solution of [closest_point_between_rays] is the midpoint of two
    points, one on each line; the segment between them is perpendicular to
    both directions, and the returned distance is the least distance between
    any point of one line and any point of the other. *)
Theorem closest_point_distance_is_minimal (o1 d1 o2 d2 m : vec3) (dist : R) :
  StereoVoxelReconstructor.closest_point_between_rays o1 d1 o2 d2
  = Some (m, dist) ->
  let u1 := vdiv d1 (norm d1) in
  let u2 := vdiv d2 (norm d2) in
  exists s t : R,
    m = vdiv (vadd (vadd o1 (vscale s u1)) (vadd o2 (vscale t u2))) 2 /\
    dist = norm (vsub (vadd o2 (vscale t u2)) (vadd o1 (vscale s u1))) /\
    dot (vsub (vadd o2 (vscale t u2)) (vadd o1 (vscale s u1))) u1 = 0 /\
    dot (vsub (vadd o2 (vscale t u2)) (vadd o1 (vscale s u1))) u2 = 0 /\
    forall s' t' : R,
      dist <= norm (vsub (vadd o2 (vscale t' u2)) (vadd o1 (vscale s' u1))).
Proof.
  intros H u1 u2.
  destruct (closest_point_some_inv _ _ _ _ _ _ H) as (_ & Hden & Hm & Hdist).
  fold u1 u2 in Hden, Hm, Hdist.
  assert (Hd0 : dot u1 u1 * dot u2 u2 - dot u1 u2 * dot u1 u2 <> 0).
  { intros E. rewrite E, Rabs_R0 in Hden. unfold denom_eps in Hden. lra. }
  destruct (solved_parameters_are_closest o1 u1 o2 u2 Hd0) as (H1 & H2 & Hmin).
  eexists. eexists.
  split; [exact Hm|]. split; [exact Hdist|].
  split; [exact H1|]. split; [exact H2|].
  rewrite Hdist. exact Hmin.
Qed.

Lemma closest_point_distance_is_minimal_witness :
  let o1 := mkVec 0 0 0 in
  let d1 := mkVec 0 0 1 in
  let o2 := mkVec (5 / 10) 0 0 in
  let d2 := vdiv (mkVec (- (3 / 4)) 0 1) (norm (mkVec (- (3 / 4)) 0 1)) in
  let u1 := vdiv d1 (norm d1) in
  let u2 := vdiv d2 (norm d2) in
  0 <= norm (vsub (vadd o2 (vscale 1 u2)) (vadd o1 (vscale 2 u1))).
Proof.
  intros o1 d1 o2 d2 u1 u2.
  assert (Hq : 6 / 10 < 3 / 4) by lra.
  destruct (closest_point_distance_is_minimal
              o1 d1 o2 d2 _ _ (closest_point_up_and_tilted (3 / 4) Hq))
    as (s & t & _ & _ & _ & _ & Hmin).
  exact (Hmin 2 1).
Defined.

(** X4. Two unit rays that are not near-parallel and whose lines meet in a
    point triangulate to exactly that point, with distance 0. *)
Theorem intersecting_rays_give_their_intersection
    (o1 d1 o2 d2 : vec3) (s t : R) :
  dot d1 d1 = 1 -> dot d2 d2 = 1 ->
  Rabs (dot d1 d2) <= parallel_cos ->
  vadd o1 (vscale s d1) = vadd o2 (vscale t d2) ->
  StereoVoxelReconstructor.closest_point_between_rays o1 d1 o2 d2
  = Some (vadd o1 (vscale s d1), 0).
Proof.
  intros H1 H2 Hb Hmeet.
  unfold StereoVoxelReconstructor.closest_point_between_rays.
  rewrite (vdiv_unit _ H1), (vdiv_unit _ H2). cbv zeta. rewrite H1, H2.
  set (b := dot d1 d2) in *.
  replace (Rgtb (Rabs b) parallel_cos) with false
    by (symmetry; now apply Rgtb_false).
  assert (Hb2 : b * b <= parallel_cos * parallel_cos).
  { pose proof (Rabs_pos b). replace (b * b) with (Rabs b * Rabs b).
    - unfold parallel_cos in *. nra.
    - unfold Rabs. destruct (Rcase_abs b); ring. }
  assert (Hden : 7 / 1000 < 1 * 1 - b * b) by (unfold parallel_cos in Hb2; lra).
  replace (Rltb (Rabs (1 * 1 - b * b)) denom_eps) with false.
  2:{ symmetry. apply Rltb_false. rewrite Rabs_pos_eq by lra.
      unfold denom_eps. lra. }
  assert (Hx := f_equal vec_x Hmeet).
  assert (Hy := f_equal vec_y Hmeet).
  assert (Hz := f_equal vec_z Hmeet).
  unfold vadd, vscale in Hx, Hy, Hz. cbn [vec_x vec_y vec_z] in Hx, Hy, Hz.
  assert (Hd : dot d1 (vsub o1 o2) = t * b - s).
  { rewrite <- (Rmult_1_r s), <- H1. unfold b, dot, vsub.
    cbn [vec_x vec_y vec_z].
    replace (vec_x o1 - vec_x o2) with (t * vec_x d2 - s * vec_x d1) by lra.
    replace (vec_y o1 - vec_y o2) with (t * vec_y d2 - s * vec_y d1) by lra.
    replace (vec_z o1 - vec_z o2) with (t * vec_z d2 - s * vec_z d1) by lra.
    ring. }
  assert (He : dot d2 (vsub o1 o2) = t - s * b).
  { rewrite <- (Rmult_1_r t), <- H2. unfold b, dot, vsub.
    cbn [vec_x vec_y vec_z].
    replace (vec_x o1 - vec_x o2) with (t * vec_x d2 - s * vec_x d1) by lra.
    replace (vec_y o1 - vec_y o2) with (t * vec_y d2 - s * vec_y d1) by lra.
    replace (vec_z o1 - vec_z o2) with (t * vec_z d2 - s * vec_z d1) by lra.
    ring. }
  rewrite Hd, He.
  replace ((b * (t - s * b) - 1 * (t * b - s)) / (1 * 1 - b * b)) with s
    by (field; lra).
  replace ((1 * (t - s * b) - b * (t * b - s)) / (1 * 1 - b * b)) with t
    by (field; lra).
  rewrite <- Hmeet. f_equal. f_equal.
  - unfold vdiv, vadd, vscale. cbn [vec_x vec_y vec_z]. apply vec3_eq; field.
  - apply norm_eq_0. unfold dot, vsub. cbn [vec_x vec_y vec_z]. ring.
Qed.

Lemma intersecting_rays_give_their_intersection_witness :
  StereoVoxelReconstructor.closest_point_between_rays
    (mkVec 0 0 0) (mkVec 0 0 1)
    (mkVec (5 / 10) 0 0) (mkVec (- (3 / 5)) 0 (4 / 5))
  = Some (vadd (mkVec 0 0 0) (vscale (2 / 3) (mkVec 0 0 1)), 0).
Proof.
  apply (intersecting_rays_give_their_intersection _ _ _ _ (2 / 3) (5 / 6)).
  - unfold dot. cbn. ring.
  - unfold dot. cbn. field.
  - unfold dot, parallel_cos. cbn.
    replace (0 * - (3 / 5) + 0 * 0 + 1 * (4 / 5)) with (4 / 5) by ring.
    rewrite Rabs_pos_eq; lra.
  - unfold vadd, vscale. cbn. apply vec3_eq; field.
Defined.

(** Two multiples of one vector: the Cauchy-Schwarz bound is attained. *)
Lemma dot_of_multiples (d : vec3) (p q : R) :
  let u1 := vdiv d p in
  forall m : R,
    dot u1 u1 * dot (vdiv (vscale q d) m) (vdiv (vscale q d) m)
    - dot u1 (vdiv (vscale q d) m) * dot u1 (vdiv (vscale q d) m) = 0.
Proof.
  intros u1 m. unfold u1, dot, vdiv, vscale, Rdiv.
  cbn [vec_x vec_y vec_z]. ring.
Qed.

(** X5. Two rays along the same line direction (one direction a non-zero
    multiple of the other, of any length and either sign) get no solution
    from any of the three triangulators. *)
Theorem parallel_directions_are_rejected (o1 o2 d : vec3) (k : R) :
  0 < dot d d -> k <> 0 ->
  StereoVoxelReconstructor.closest_point_between_rays o1 d o2 (vscale k d)
  = None /\
  CalibratedStereoReconstructor.closest_point_between_rays o1 d o2 (vscale k d)
  = None /\
  StereoTriangulationCalibration.closest_point_between_rays
    o1 d o2 (vscale k d) = None.
Proof.
  intros Hd Hk.
  assert (Hkd : 0 < dot (vscale k d) (vscale k d)).
  { replace (dot (vscale k d) (vscale k d)) with (k * k * dot d d)
      by (unfold dot, vscale; cbn [vec_x vec_y vec_z]; ring).
    apply Rmult_lt_0_compat; [nra|exact Hd]. }
  assert (Hclass :
    StereoVoxelReconstructor.closest_point_between_rays o1 d o2 (vscale k d)
    = None).
  { unfold StereoVoxelReconstructor.closest_point_between_rays.
    set (u1 := vdiv d (norm d)).
    set (u2 := vdiv (vscale k d) (norm (vscale k d))).
    assert (Hsq : dot u1 u2 * dot u1 u2 = 1).
    { pose proof (dot_of_multiples d (norm d) k (norm (vscale k d))) as H.
      cbv zeta in H. fold u1 u2 in H.
      unfold u1 in H at 1 2. rewrite (dot_normalized d Hd) in H.
      unfold u2 in H at 1 2. rewrite (dot_normalized _ Hkd) in H.
      fold u1 u2 in H. lra. }
    assert (Habs : Rabs (dot u1 u2) = 1).
    { unfold Rabs. destruct (Rcase_abs (dot u1 u2)); nra. }
    rewrite Habs.
    replace (Rgtb 1 parallel_cos) with true
      by (symmetry; apply Rgtb_true; unfold parallel_cos; lra).
    reflexivity. }
  split; [exact Hclass|]. split; [exact Hclass|].
  unfold StereoTriangulationCalibration.closest_point_between_rays. cbv zeta.
  rewrite (dot_of_multiples d (norm d + norm_eps) k
             (norm (vscale k d) + norm_eps)).
  rewrite Rabs_R0.
  replace (Rltb 0 denom_eps) with true
    by (symmetry; apply Rltb_true; unfold denom_eps; lra).
  reflexivity.
Qed.

Lemma parallel_directions_are_rejected_witness :
  StereoVoxelReconstructor.closest_point_between_rays
    (mkVec 0 0 0) (mkVec 0 0 1) (mkVec (5 / 10) 0 0)
    (vscale (- 2) (mkVec 0 0 1)) = None.
Proof.
  apply (parallel_directions_are_rejected
           (mkVec 0 0 0) (mkVec (5 / 10) 0 0) (mkVec 0 0 1) (- 2)).
  - unfold dot. cbn. lra.
  - lra.
Defined.

(** X6. A solution of the triangulator of stereo_triangulation_calibration.py
    lies at non-negative parameters on both rays, is the midpoint of the two
    points at those parameters, and its distance is the least distance
    between the two lines. *)
Theorem sibling_solution_is_in_front_and_closest
    (p1 d1 p2 d2 point_3d : vec3) (distance : R) :
  StereoTriangulationCalibration.closest_point_between_rays p1 d1 p2 d2
  = Some (point_3d, distance) ->
  let u1 := vdiv d1 (norm d1 + norm_eps) in
  let u2 := vdiv d2 (norm d2 + norm_eps) in
  exists t s : R,
    0 <= t /\ 0 <= s /\
    point_3d = vdiv (vadd (vadd p1 (vscale t u1)) (vadd p2 (vscale s u2))) 2 /\
    distance = norm (vsub (vadd p1 (vscale t u1)) (vadd p2 (vscale s u2))) /\
    forall t' s' : R,
      distance
      <= norm (vsub (vadd p1 (vscale t' u1)) (vadd p2 (vscale s' u2))).
Proof.
  intros H u1 u2.
  unfold StereoTriangulationCalibration.closest_point_between_rays in H.
  fold u1 u2 in H. cbv zeta in H.
  set (w := vsub p1 p2) in *.
  set (denom := dot u1 u1 * dot u2 u2 - dot u1 u2 * dot u1 u2) in *.
  set (t := (dot u1 u2 * dot u2 w - dot u2 u2 * dot u1 w) / denom) in *.
  set (s := (dot u1 u1 * dot u2 w - dot u1 u2 * dot u1 w) / denom) in *.
  destruct (Rltb (Rabs denom) denom_eps) eqn:Hden; [discriminate|].
  destruct (Rgtb (Rabs (dot u1 u2)) parallel_cos); [discriminate|].
  cbn [orb] in H.
  destruct (Rltb t 0) eqn:Ht; [discriminate|].
  destruct (Rltb s 0) eqn:Hs; [discriminate|].
  cbn [orb] in H. injection H as <- <-.
  apply Rltb_false in Hden, Ht, Hs.
  assert (Hd0 : denom <> 0).
  { intros E. rewrite E, Rabs_R0 in Hden. unfold denom_eps in Hden. lra. }
  destruct (solved_parameters_are_closest p1 u1 p2 u2 Hd0) as (_ & _ & Hmin).
  fold w denom t s in Hmin.
  exists t, s. repeat split; try assumption.
  intros t' s'.
  rewrite (norm_vsub_sym (vadd p1 (vscale t u1))),
    (norm_vsub_sym (vadd p1 (vscale t' u1))).
  apply Hmin.
Qed.

(** The sibling triangulator on a ray straight up from the origin and a ray
    from (1/2,0,0) along (-3/5,0,4/5): the rays meet at (0,0,2/3). *)
Lemma sibling_closest_point_example :
  StereoTriangulationCalibration.closest_point_between_rays
    (mkVec 0 0 0) (mkVec 0 0 1)
    (mkVec (5 / 10) 0 0) (mkVec (- (3 / 5)) 0 (4 / 5))
  = Some (mkVec 0 0 (2 / 3), 0).
Proof.
  unfold StereoTriangulationCalibration.closest_point_between_rays.
  assert (H1 : dot (mkVec 0 0 1) (mkVec 0 0 1) = 1) by (unfold dot; cbn; ring).
  assert (H2 : dot (mkVec (- (3 / 5)) 0 (4 / 5)) (mkVec (- (3 / 5)) 0 (4 / 5)) = 1)
    by (unfold dot; cbn; field).
  rewrite (norm_of_unit _ H1), (norm_of_unit _ H2).
  assert (HE : 1 < 1 + norm_eps < 2) by (unfold norm_eps; lra).
  set (E := 1 + norm_eps) in *.
  cbv zeta.
  set (u1 := vdiv (mkVec 0 0 1) E).
  set (u2 := vdiv (mkVec (- (3 / 5)) 0 (4 / 5)) E).
  set (w := vsub (mkVec 0 0 0) (mkVec (5 / 10) 0 0)).
  assert (Ha : dot u1 u1 = / (E * E)) by (unfold u1, dot, vdiv; cbn; field; lra).
  assert (Hb : dot u1 u2 = 4 / 5 * / (E * E))
    by (unfold u1, u2, dot, vdiv; cbn; field; lra).
  assert (Hc : dot u2 u2 = / (E * E))
    by (unfold u2, dot, vdiv; cbn; field; lra).
  assert (Hd : dot u1 w = 0) by (unfold u1, w, dot, vdiv, vsub; cbn; field; lra).
  assert (He : dot u2 w = 3 / 10 * / E)
    by (unfold u2, w, dot, vdiv, vsub; cbn; field; lra).
  rewrite Ha, Hb, Hc, Hd, He.
  assert (HiE : / 4 < / (E * E) < 1).
  { split.
    - apply Rinv_lt_contravar; nra.
    - rewrite <- Rinv_1. apply Rinv_lt_contravar; nra. }
  set (I2 := / (E * E)) in *.
  assert (Hden : I2 * I2 - 4 / 5 * I2 * (4 / 5 * I2) = 9 / 25 * (I2 * I2))
    by field.
  rewrite Hden.
  replace (Rltb (Rabs (9 / 25 * (I2 * I2))) denom_eps) with false.
  2:{ symmetry. apply Rltb_false. rewrite Rabs_pos_eq by nra.
      unfold denom_eps. nra. }
  replace (Rgtb (Rabs (4 / 5 * I2)) parallel_cos) with false.
  2:{ symmetry. apply Rgtb_false. rewrite Rabs_pos_eq by nra.
      unfold parallel_cos. nra. }
  cbn [orb].
  assert (Ht : (4 / 5 * I2 * (3 / 10 * / E) - I2 * 0) / (9 / 25 * (I2 * I2))
               = 2 / 3 * E).
  { unfold I2. field. lra. }
  assert (Hs : (I2 * (3 / 10 * / E) - 4 / 5 * I2 * 0) / (9 / 25 * (I2 * I2))
               = 5 / 6 * E).
  { unfold I2. field. lra. }
  rewrite Ht, Hs.
  replace (Rltb (2 / 3 * E) 0) with false by (symmetry; apply Rltb_false; lra).
  replace (Rltb (5 / 6 * E) 0) with false by (symmetry; apply Rltb_false; lra).
  cbn [orb]. f_equal. f_equal.
  - unfold u1, u2, vdiv, vadd, vscale. cbn. apply vec3_eq; field; lra.
  - apply norm_eq_0. unfold u1, u2, dot, vdiv, vsub, vadd, vscale. cbn.
    field. lra.
Qed.

Lemma sibling_solution_is_in_front_and_closest_witness :
  let p1 := mkVec 0 0 0 in
  let d1 := mkVec 0 0 1 in
  let p2 := mkVec (5 / 10) 0 0 in
  let d2 := mkVec (- (3 / 5)) 0 (4 / 5) in
  let u1 := vdiv d1 (norm d1 + norm_eps) in
  let u2 := vdiv d2 (norm d2 + norm_eps) in
  0 <= norm (vsub (vadd p1 (vscale 2 u1)) (vadd p2 (vscale 1 u2))).
Proof.
  intros p1 d1 p2 d2 u1 u2.
  destruct (sibling_solution_is_in_front_and_closest
              p1 d1 p2 d2 _ _ sibling_closest_point_example)
    as (t & s & _ & _ & _ & _ & Hmin).
  exact (Hmin 2 1).
Defined.

(** ** Static frames and the caps of the motion extractor *)

Lemma where_row_all_false (y : nat) (row : list bool) :
  Forall (fun b => b = false) row -> forall x, where_row y x row = [].
Proof.
  induction 1 as [|b row Hb Hrow IH]; intros x; [reflexivity|].
  cbn. rewrite Hb. apply IH.
Qed.

Lemma np_argwhere_all_false (m : list (list bool)) :
  all_false m -> np_argwhere m = [].
Proof.
  intros H. unfold np_argwhere. generalize 0%nat. unfold all_false in H.
  induction H as [|row m Hrow Hm IH]; intros y; [reflexivity|].
  cbn. rewrite (where_row_all_false y row Hrow). apply IH.
Qed.

Lemma gt_mask_absdiff_self (img : image) (k : Z) :
  (0 <= k)%Z -> all_false (gt_mask (absdiff img img) k).
Proof.
  intros Hk. unfold all_false, gt_mask, absdiff, map2.
  induction img as [|row img IH]; [constructor|].
  cbn [combine map]. constructor; [|exact IH].
  cbn [fst snd]. clear IH.
  induction row as [|v row IH]; [constructor|].
  cbn [combine map]. constructor; [|exact IH].
  cbn [fst snd]. rewrite Z.sub_diag. cbn. lia.
Qed.

Lemma and_mask_all_false_l (m1 m2 : list (list bool)) :
  all_false m1 -> all_false (and_mask m1 m2).
Proof.
  unfold all_false, and_mask, map2. intros H. revert m2.
  induction H as [|row m1 Hrow Hm IH]; intros [|row2 m2]; try constructor.
  - cbn [fst snd]. clear IH Hm. revert row2.
    induction Hrow as [|b row Hb Hrow IH]; intros [|b2 row2]; try constructor.
    + cbn [fst snd]. now rewrite Hb.
    + apply IH.
  - apply IH.
Qed.

(** A frame compared with itself shows no motion. *)
Lemma detect_motion_pixels_static (self : StereoVoxelReconstructor.t)
    (img : image) (max_pixels : positive) :
  (0 <= StereoVoxelReconstructor.motion_threshold self)%Z ->
  StereoVoxelReconstructor.detect_motion_pixels self img (Some img) max_pixels
  = [].
Proof.
  intros Hk. unfold StereoVoxelReconstructor.detect_motion_pixels.
  rewrite (np_argwhere_all_false _
             (and_mask_all_false_l _ _ (gt_mask_absdiff_self img _ Hk))).
  reflexivity.
Qed.

(** X7. On the first frame pair of a session, and whenever a frame of either
    camera equals the one before it, [process_frame_pair] returns 0 and
    changes no voxel and no counter but [frame_count]; it only records the
    two frames as the previous ones.  (The motion threshold is not
    negative.) *)
Theorem still_or_first_frame_changes_no_voxel
    (self : StereoVoxelReconstructor.t) (st : StereoVoxelReconstructor.state)
    (img_left img_right : image) :
  (0 <= StereoVoxelReconstructor.motion_threshold self)%Z ->
  StereoVoxelReconstructor.prev_left st = None \/
  StereoVoxelReconstructor.prev_left st = Some img_left \/
  StereoVoxelReconstructor.prev_right st = None \/
  StereoVoxelReconstructor.prev_right st = Some img_right ->
  StereoVoxelReconstructor.process_frame_pair self st img_left img_right
  = ({| StereoVoxelReconstructor.voxels := StereoVoxelReconstructor.voxels st;
        StereoVoxelReconstructor.prev_left := Some img_left;
        StereoVoxelReconstructor.prev_right := Some img_right;
        StereoVoxelReconstructor.frame_count :=
          StereoVoxelReconstructor.frame_count st + 1;
        StereoVoxelReconstructor.voxel_count :=
          StereoVoxelReconstructor.voxel_count st;
        StereoVoxelReconstructor.triangulation_count :=
          StereoVoxelReconstructor.triangulation_count st |}, 0%Z).
Proof.
  intros Hk H. unfold StereoVoxelReconstructor.process_frame_pair. cbv zeta.
  destruct H as [H|[H|[H|H]]]; rewrite H.
  - reflexivity.
  - now rewrite detect_motion_pixels_static.
  - cbn [StereoVoxelReconstructor.detect_motion_pixels].
    now destruct (StereoVoxelReconstructor.detect_motion_pixels _ _ _ _).
  - rewrite (detect_motion_pixels_static self img_right) by exact Hk.
    now destruct (StereoVoxelReconstructor.detect_motion_pixels _ _ _ _).
Qed.

Lemma still_or_first_frame_changes_no_voxel_witness :
  let img := [[0; 0]; [0; 0]]%Z in
  let st1 :=
    fst (StereoVoxelReconstructor.process_frame_pair
           StereoVoxelReconstructor.init StereoVoxelReconstructor.init_state
           img img) in
  snd (StereoVoxelReconstructor.process_frame_pair
         StereoVoxelReconstructor.init st1 img img) = 0%Z.
Proof.
  intros img st1.
  rewrite (still_or_first_frame_changes_no_voxel
             StereoVoxelReconstructor.init st1 img img).
  - reflexivity.
  - cbn. lia.
  - right. left. reflexivity.
Defined.

(** ** The counters of [process_frame_pair] *)

Lemma try_pair_counts (self : StereoVoxelReconstructor.t)
    (pl pr : StereoVoxelReconstructor.motion_pixel)
    (st : StereoVoxelReconstructor.state) (n : Z) :
  exists k : Z,
    (0 <= k <= 1)%Z /\
    snd (StereoVoxelReconstructor.try_pair self pl pr (st, n)) = (n + k)%Z /\
    counted st (fst (StereoVoxelReconstructor.try_pair self pl pr (st, n))) k.
Proof.
  destruct pl as [[px_l py_l] int_l], pr as [[px_r py_r] int_r].
  unfold StereoVoxelReconstructor.try_pair.
  destruct (StereoVoxelReconstructor.triangulate_pixel_pair _ _ _ _ _)
    as [[point_3d error]|].
  - unfold StereoVoxelReconstructor.accumulate_voxel.
    destruct (StereoVoxelReconstructor.world_to_voxel self point_3d).
    + exists 1%Z. unfold counted. cbn. repeat split; lia.
    + exists 0%Z. unfold counted. cbn. repeat split; lia.
  - exists 0%Z. unfold counted. cbn. repeat split; lia.
Qed.

Lemma counted_trans (st0 st1 st2 : StereoVoxelReconstructor.state) (j k : Z) :
  counted st0 st1 j -> counted st1 st2 k -> counted st0 st2 (j + k).
Proof.
  unfold counted. intros (A1 & A2 & A3 & A4 & A5) (B1 & B2 & B3 & B4 & B5).
  repeat split; try congruence; lia.
Qed.

Lemma inner_loop_counts (self : StereoVoxelReconstructor.t)
    (pl : StereoVoxelReconstructor.motion_pixel)
    (prs : list StereoVoxelReconstructor.motion_pixel) :
  forall (st : StereoVoxelReconstructor.state) (n : Z),
  exists k : Z,
    (0 <= k <= Z.of_nat (length prs))%Z /\
    snd (fold_left (fun acc pr => StereoVoxelReconstructor.try_pair self pl pr acc)
                   prs (st, n)) = (n + k)%Z /\
    counted st
      (fst (fold_left
              (fun acc pr => StereoVoxelReconstructor.try_pair self pl pr acc)
              prs (st, n))) k.
Proof.
  induction prs as [|pr prs IH]; intros st n.
  - exists 0%Z. unfold counted. cbn. repeat split; lia.
  - cbn [fold_left].
    destruct (try_pair_counts self pl pr st n) as (j & Hj & Hn & Hc).
    destruct (StereoVoxelReconstructor.try_pair self pl pr (st, n))
      as [st1 n1]. cbn [fst snd] in Hn, Hc. subst n1.
    destruct (IH st1 (n + j)%Z) as (k & Hk & Hn' & Hc').
    exists (j + k)%Z. split; [cbn [length]; lia|]. split.
    + rewrite Hn'. lia.
    + exact (counted_trans _ _ _ _ _ Hc Hc').
Qed.

Lemma outer_loop_counts (self : StereoVoxelReconstructor.t)
    (pls prs : list StereoVoxelReconstructor.motion_pixel) :
  forall (st : StereoVoxelReconstructor.state) (n : Z),
  exists k : Z,
    (0 <= k <= Z.of_nat (length pls) * Z.of_nat (length prs))%Z /\
    snd (fold_left
           (fun acc pl =>
              fold_left
                (fun acc pr => StereoVoxelReconstructor.try_pair self pl pr acc)
                prs acc)
           pls (st, n)) = (n + k)%Z /\
    counted st
      (fst (fold_left
              (fun acc pl =>
                 fold_left
                   (fun acc pr =>
                      StereoVoxelReconstructor.try_pair self pl pr acc)
                   prs acc)
              pls (st, n))) k.
Proof.
  induction pls as [|pl pls IH]; intros st n.
  - exists 0%Z. unfold counted. cbn. repeat split; lia.
  - cbn [fold_left].
    destruct (inner_loop_counts self pl prs st n) as (j & Hj & Hn & Hc).
    destruct (fold_left _ prs (st, n)) as [st1 n1].
    cbn [fst snd] in Hn, Hc. subst n1.
    destruct (IH st1 (n + j)%Z) as (k & Hk & Hn' & Hc').
    exists (j + k)%Z. split; [cbn [length]; nia|]. split.
    + rewrite Hn'. lia.
    + exact (counted_trans _ _ _ _ _ Hc Hc').
Qed.

(** X8. One call of [process_frame_pair] returns a count between 0 and 2500
    (50 x 50 pairs), adds exactly that count to both [voxel_count] and
    [triangulation_count], adds 1 to [frame_count] and records the two
    frames.  Over a session the two counters therefore stay equal, the frame
    count is the number of pairs processed, and at most 2500 voxels are
    written per pair. *)
Theorem process_frame_pair_counts (self : StereoVoxelReconstructor.t) :
  (forall (st : StereoVoxelReconstructor.state) (img_left img_right : image),
      let st' :=
        fst (StereoVoxelReconstructor.process_frame_pair
               self st img_left img_right) in
      let n :=
        snd (StereoVoxelReconstructor.process_frame_pair
               self st img_left img_right) in
      (0 <= n <= 2500)%Z /\
      StereoVoxelReconstructor.voxel_count st'
      = (StereoVoxelReconstructor.voxel_count st + n)%Z /\
      StereoVoxelReconstructor.triangulation_count st'
      = (StereoVoxelReconstructor.triangulation_count st + n)%Z /\
      StereoVoxelReconstructor.frame_count st'
      = (StereoVoxelReconstructor.frame_count st + 1)%Z /\
      StereoVoxelReconstructor.prev_left st' = Some img_left /\
      StereoVoxelReconstructor.prev_right st' = Some img_right)
  /\
  (forall frames : list (image * image),
      let st :=
        StereoVoxelReconstructor.process_frames
          self StereoVoxelReconstructor.init_state frames in
      StereoVoxelReconstructor.frame_count st = Z.of_nat (length frames) /\
      StereoVoxelReconstructor.voxel_count st
      = StereoVoxelReconstructor.triangulation_count st /\
      (0 <= StereoVoxelReconstructor.voxel_count st
       <= 2500 * Z.of_nat (length frames))%Z).
Proof.
  assert (Hcall :
    forall (st : StereoVoxelReconstructor.state) (img_left img_right : image),
      let st' :=
        fst (StereoVoxelReconstructor.process_frame_pair
               self st img_left img_right) in
      let n :=
        snd (StereoVoxelReconstructor.process_frame_pair
               self st img_left img_right) in
      (0 <= n <= 2500)%Z /\
      StereoVoxelReconstructor.voxel_count st'
      = (StereoVoxelReconstructor.voxel_count st + n)%Z /\
      StereoVoxelReconstructor.triangulation_count st'
      = (StereoVoxelReconstructor.triangulation_count st + n)%Z /\
      StereoVoxelReconstructor.frame_count st'
      = (StereoVoxelReconstructor.frame_count st + 1)%Z /\
      StereoVoxelReconstructor.prev_left st' = Some img_left /\
      StereoVoxelReconstructor.prev_right st' = Some img_right).
  { intros st img_left img_right.
    unfold StereoVoxelReconstructor.process_frame_pair. cbv zeta.
    set (st0 := StereoVoxelReconstructor.mkState _ _ _ _ _ _).
    set (pixels_left :=
           StereoVoxelReconstructor.detect_motion_pixels self img_left _ _).
    set (pixels_right :=
           StereoVoxelReconstructor.detect_motion_pixels self img_right _ _).
    assert (Hearly :
      let r := (st0, 0%Z) in
      (0 <= snd r <= 2500)%Z /\
      StereoVoxelReconstructor.voxel_count (fst r)
      = (StereoVoxelReconstructor.voxel_count st + snd r)%Z /\
      StereoVoxelReconstructor.triangulation_count (fst r)
      = (StereoVoxelReconstructor.triangulation_count st + snd r)%Z /\
      StereoVoxelReconstructor.frame_count (fst r)
      = (StereoVoxelReconstructor.frame_count st + 1)%Z /\
      StereoVoxelReconstructor.prev_left (fst r) = Some img_left /\
      StereoVoxelReconstructor.prev_right (fst r) = Some img_right).
    { cbn. repeat split; lia. }
    destruct pixels_left as [|pl pls]; [exact Hearly|].
    destruct pixels_right as [|pr prs]; [exact Hearly|].
    destruct (outer_loop_counts self (firstn 50 (pl :: pls))
                (firstn 50 (pr :: prs)) st0 0%Z)
      as (k & Hk & Hn & Hc).
    rewrite Hn. destruct Hc as (C1 & C2 & C3 & C4 & C5).
    rewrite C1, C2, C3, C4, C5.
    pose proof (length_firstn 50 (pl :: pls)) as L1.
    pose proof (length_firstn 50 (pr :: prs)) as L2.
    cbn [StereoVoxelReconstructor.voxel_count
         StereoVoxelReconstructor.triangulation_count
         StereoVoxelReconstructor.frame_count
         StereoVoxelReconstructor.prev_left
         StereoVoxelReconstructor.prev_right st0].
    repeat split; try reflexivity; try lia.
    assert (Z.of_nat (length (firstn 50 (pl :: pls))) <= 50)%Z by lia.
    assert (Z.of_nat (length (firstn 50 (pr :: prs))) <= 50)%Z by lia.
    nia. }
  split; [exact Hcall|].
  intros frames.
  assert (Hgen :
    forall (st : StereoVoxelReconstructor.state) (m : Z),
      StereoVoxelReconstructor.frame_count st = m ->
      StereoVoxelReconstructor.voxel_count st
      = StereoVoxelReconstructor.triangulation_count st ->
      (0 <= StereoVoxelReconstructor.voxel_count st <= 2500 * m)%Z ->
      let st' := StereoVoxelReconstructor.process_frames self st frames in
      StereoVoxelReconstructor.frame_count st'
      = (m + Z.of_nat (length frames))%Z /\
      StereoVoxelReconstructor.voxel_count st'
      = StereoVoxelReconstructor.triangulation_count st' /\
      (0 <= StereoVoxelReconstructor.voxel_count st'
       <= 2500 * (m + Z.of_nat (length frames)))%Z).
  { unfold StereoVoxelReconstructor.process_frames.
    induction frames as [|f frames IH]; intros st m Hf Hv Hb.
    - cbn [fold_left length]. cbv zeta. split; [lia|]. split; [exact Hv|lia].
    - cbn [fold_left].
      destruct (Hcall st (fst f) (snd f)) as (Hn & A1 & A2 & A3 & _ & _).
      set (st1 := fst (StereoVoxelReconstructor.process_frame_pair
                         self st (fst f) (snd f))) in *.
      cbv zeta in Hn, A1, A2, A3.
      destruct (IH st1 (m + 1)%Z) as (B1 & B2 & B3); try lia.
      cbv zeta in B1, B2, B3. cbv zeta. cbn [length].
      rewrite Nat2Z.inj_succ.
      split; [lia|]. split; [exact B2|lia]. }
  apply (Hgen StereoVoxelReconstructor.init_state 0%Z); cbn; lia.
Qed.

(** ** The cap of the motion extractor, and what it reports below the cap *)

Lemma stride_from_length {A : Type} (step : nat) (l : list A) :
  (1 <= step)%nat ->
  forall skip : nat,
    (length l <= length (stride_from step skip l) * step + skip)%nat.
Proof.
  intros Hstep. induction l as [|x l IH]; intros skip; cbn [stride_from length].
  - lia.
  - destruct skip as [|k].
    + specialize (IH (pred step)). cbn [length]. lia.
    + specialize (IH k). lia.
Qed.

Lemma length_map2 {A B C : Type} (f : A -> B -> C) (l1 : list A) (l2 : list B) :
  length (map2 f l1 l2) = Nat.min (length l1) (length l2).
Proof. unfold map2. now rewrite length_map, length_combine. Qed.

Lemma nth_absdiff_row (a b : image) (y : nat) :
  nth y (absdiff a b) []
  = map2 (fun x0 y0 => Z.abs (x0 - y0)) (nth y a []) (nth y b []).
Proof.
  unfold absdiff.
  apply (nth_map2_absorbing (map2 (fun x0 y0 => Z.abs (x0 - y0))) [] [] []);
    [reflexivity|apply map2_nil_r].
Qed.

Lemma nth_gt_row_intro (k : Z) (row : list Z) (x : nat) :
  (x < length row)%nat -> (nth x row 0 > k)%Z ->
  nth x (map (fun v => (v >? k)%Z) row) false = true.
Proof.
  revert x. induction row as [|v row IH]; intros [|x] Hx Hv; cbn in *;
    try lia.
  apply IH; [lia|assumption].
Qed.

Lemma nth_gt_mask_intro (k : Z) (arr : image) (y x : nat) :
  (x < length (nth y arr []))%nat -> (pixel_at arr y x > k)%Z ->
  nth x (nth y (gt_mask arr k) []) false = true.
Proof.
  unfold gt_mask, pixel_at.
  change (@nil bool) with (map (fun v => (v >? k)%Z) []).
  rewrite map_nth. apply nth_gt_row_intro.
Qed.

Lemma where_row_complete (y : nat) (row : list bool) :
  forall x0 x : nat,
    nth x row false = true -> In (y, (x0 + x)%nat) (where_row y x0 row).
Proof.
  induction row as [|b row IH]; intros x0 [|x] H; cbn in H; try discriminate.
  - subst b. cbn. left. f_equal. lia.
  - cbn [where_row]. specialize (IH (S x0) x H).
    replace (x0 + S x)%nat with (S x0 + x)%nat by lia.
    destruct b; [right|]; exact IH.
Qed.

Lemma where_rows_complete (m : list (list bool)) :
  forall y0 y x : nat,
    nth x (nth y m []) false = true -> In ((y0 + y)%nat, x) (where_rows y0 m).
Proof.
  induction m as [|row m IH]; intros y0 [|y] x H; cbn [nth] in H.
  - now destruct x.
  - now destruct x.
  - cbn [where_rows]. apply in_or_app. left.
    replace (y0 + 0)%nat with y0 by lia.
    exact (where_row_complete y0 row 0 x H).
  - cbn [where_rows]. apply in_or_app. right.
    replace (y0 + S y)%nat with (S y0 + y)%nat by lia. now apply IH.
Qed.

Lemma np_argwhere_complete (m : list (list bool)) (y x : nat) :
  nth x (nth y m []) false = true -> In (y, x) (np_argwhere m).
Proof. intros H. exact (where_rows_complete m 0 y x H). Qed.

(** X9. [detect_motion_pixels] never reports more than [max_pixels] pixels, and
    a pixel inside both frames that passes both thresholds is reported
    unless the cap was reached (exactly [max_pixels] pixels were reported). *)
Theorem motion_pixels_cap_and_completeness
    (self : StereoVoxelReconstructor.t) (current previous : image)
    (max_pixels : positive) :
  let result :=
    StereoVoxelReconstructor.detect_motion_pixels
      self current (Some previous) max_pixels in
  (length result <= Pos.to_nat max_pixels)%nat /\
  forall x y : nat,
    (x < length (nth y current []))%nat ->
    (x < length (nth y previous []))%nat ->
    (Z.abs (pixel_at current y x - pixel_at previous y x)
     > StereoVoxelReconstructor.motion_threshold self)%Z ->
    (pixel_at current y x
     > StereoVoxelReconstructor.min_pixel_intensity self)%Z ->
    In (x, y, pixel_at current y x) result \/
    length result = Pos.to_nat max_pixels.
Proof.
  unfold StereoVoxelReconstructor.detect_motion_pixels. cbv zeta.
  set (mask := and_mask _ _).
  set (pixels := map _ (np_argwhere mask)).
  assert (Hlen : length pixels = length (np_argwhere mask))
    by (unfold pixels; apply length_map).
  pose proof (Pos2Nat.is_pos max_pixels) as Hmax.
  assert (Hin : forall x y : nat,
    (x < length (nth y current []))%nat ->
    (x < length (nth y previous []))%nat ->
    (Z.abs (pixel_at current y x - pixel_at previous y x)
     > StereoVoxelReconstructor.motion_threshold self)%Z ->
    (pixel_at current y x
     > StereoVoxelReconstructor.min_pixel_intensity self)%Z ->
    In (x, y, pixel_at current y x) pixels).
  { intros x y Hxc Hxp Hmotion Hvalid. unfold pixels.
    apply in_map_iff. exists (y, x). split; [reflexivity|].
    apply np_argwhere_complete. unfold mask. rewrite nth_and_mask.
    apply andb_true_iff. split.
    - assert (Hxd : (x < length (nth y (absdiff current previous) []))%nat).
      { rewrite nth_absdiff_row, length_map2. lia. }
      apply nth_gt_mask_intro; [exact Hxd|].
      now rewrite nth_absdiff.
    - now apply nth_gt_mask_intro. }
  destruct (length (np_argwhere mask) =? 0)%nat eqn:Hzero.
  - apply Nat.eqb_eq in Hzero. split; [cbn; lia|].
    intros x y Hxc Hxp Hmotion Hvalid.
    specialize (Hin x y Hxc Hxp Hmotion Hvalid).
    destruct pixels; [contradiction|cbn in Hlen; lia].
  - destruct (Pos.to_nat max_pixels <? length pixels)%nat eqn:Hcap.
    + apply Nat.ltb_lt in Hcap.
      assert (Hfull : length (firstn (Pos.to_nat max_pixels)
                                (stride (length pixels / Pos.to_nat max_pixels)
                                        pixels))
                      = Pos.to_nat max_pixels).
      { rewrite length_firstn. apply Nat.min_l.
        set (step := (length pixels / Pos.to_nat max_pixels)%nat).
        assert (Hstep : (1 <= step)%nat).
        { unfold step. apply Nat.div_le_lower_bound; lia. }
        pose proof (stride_from_length step pixels Hstep 0) as Hs.
        fold (stride step pixels) in Hs.
        assert (Hdiv : (step * Pos.to_nat max_pixels <= length pixels)%nat).
        { unfold step. rewrite Nat.mul_comm. apply Nat.Div0.mul_div_le. }
        apply (Nat.mul_le_mono_pos_r _ _ step); lia. }
      split; [apply Nat.eq_le_incl; exact Hfull|].
      intros. right. exact Hfull.
    + apply Nat.ltb_ge in Hcap. split; [exact Hcap|].
      intros x y Hxc Hxp Hmotion Hvalid. left. now apply Hin.
Qed.

Lemma motion_pixels_cap_and_completeness_witness :
  let current := [[200; 50]; [120; 200]]%Z in
  let previous := [[100; 10]; [110; 250]]%Z in
  let result :=
    StereoVoxelReconstructor.detect_motion_pixels
      StereoVoxelReconstructor.init current (Some previous) 100 in
  In (1%nat, 1%nat, 200%Z) result \/ length result = 100%nat.
Proof.
  intros current previous result.
  refine (proj2 (motion_pixels_cap_and_completeness
                   StereoVoxelReconstructor.init current previous 100)
                1%nat 1%nat _ _ _ _); cbn; lia.
Defined.

(** ** The ray traversal *)

Lemma existsb_idx_false (key : idx) (visited : list idx) :
  existsb (idx_eqb key) visited = false -> ~ In key visited.
Proof.
  intros H Hin.
  assert (existsb (idx_eqb key) visited = true).
  { apply existsb_exists. exists key. split; [exact Hin|apply idx_eqb_refl]. }
  congruence.
Qed.

Lemma traverse_step_invariant (camera_pos ray_dir : vec3)
    (config : ConfigurableReconstruction.SystemConfig) (intensity : R)
    (k : nat) (acc : list (idx * R) * list idx) :
  traversal_invariant camera_pos ray_dir config intensity k acc ->
  traversal_invariant camera_pos ray_dir config intensity (S k)
    (ConfigurableReconstruction.traverse_step
       camera_pos ray_dir config intensity
       (ConfigurableReconstruction.voxel_size_meters config
        * ConfigurableReconstruction.ray_step_size_ratio config) acc k).
Proof.
  destruct acc as [voxel_list visited].
  intros (Hnd & Hvis & Hlen & Hall). cbn [fst snd] in *.
  assert (Hkeep : traversal_invariant camera_pos ray_dir config intensity (S k)
                    (voxel_list, visited)).
  { unfold traversal_invariant. cbn [fst snd].
    split; [exact Hnd|]. split; [exact Hvis|]. split; [lia|].
    eapply Forall_impl; [|exact Hall].
    intros e (i & Hi & He). exists i. split; [lia|exact He]. }
  unfold ConfigurableReconstruction.traverse_step. cbv zeta.
  destruct (Rltb _ 0) eqn:Hy; [exact Hkeep|].
  destruct (negb _); [exact Hkeep|].
  destruct (existsb _ visited) eqn:Hseen; [exact Hkeep|].
  apply existsb_idx_false in Hseen.
  unfold traversal_invariant. cbn [fst snd].
  split; [|split; [|split]].
  - rewrite map_app. cbn [map fst]. apply NoDup_app.
    + exact Hnd.
    + repeat constructor. intros [].
    + intros key Hin [<-|[]]. apply Hseen, Hvis, Hin.
  - intros key Hin. rewrite map_app in Hin. apply in_app_or in Hin.
    destruct Hin as [Hin|[<-|[]]]; [right; now apply Hvis|now left].
  - rewrite length_app. cbn [length]. lia.
  - apply Forall_app. split.
    + eapply Forall_impl; [|exact Hall].
      intros e (i & Hi & He). exists i. split; [lia|exact He].
    + constructor; [|constructor]. exists k. split; [lia|].
      unfold recorded_sample, sample_point. cbn [fst snd].
      apply Rltb_false in Hy. repeat split. exact Hy.
Qed.

Lemma traverse_ray_3d_invariant (camera_pos ray_dir : vec3)
    (config : ConfigurableReconstruction.SystemConfig) (intensity : R) :
  forall n : nat,
    traversal_invariant camera_pos ray_dir config intensity n
      (fold_left
         (ConfigurableReconstruction.traverse_step
            camera_pos ray_dir config intensity
            (ConfigurableReconstruction.voxel_size_meters config
             * ConfigurableReconstruction.ray_step_size_ratio config))
         (seq 0 n) ([], [])).
Proof.
  induction n as [|n IH].
  - unfold traversal_invariant. cbn.
    split; [constructor|]. split; [tauto|]. split; [lia|constructor].
  - rewrite seq_S, fold_left_app. cbn [fold_left Nat.add].
    now apply traverse_step_invariant.
Qed.

Lemma fold_left_ext {A B : Type} (f g : A -> B -> A) :
  (forall a b, f a b = g a b) ->
  forall (l : list B) (a : A), fold_left f l a = fold_left g l a.
Proof.
  intros H. induction l as [|b l IH]; intros a; [reflexivity|].
  cbn. rewrite H. apply IH.
Qed.

Lemma improved_step_as_configurable (camera_pos ray_dir : vec3)
    (grid_size : Z) (voxel_size max_distance intensity step_size : R)
    (acc : list (idx * R) * list idx) (i : nat) :
  ImprovedRayTraversal.traverse_step
    camera_pos ray_dir grid_size voxel_size intensity step_size acc i
  = ConfigurableReconstruction.traverse_step
      camera_pos ray_dir (improved_config grid_size voxel_size max_distance)
      intensity step_size acc i.
Proof.
  unfold ImprovedRayTraversal.traverse_step,
    ConfigurableReconstruction.traverse_step.
  destruct acc as [voxel_list visited]. cbv zeta.
  cbn [improved_config ConfigurableReconstruction.size
       ConfigurableReconstruction.voxel_size_meters
       ConfigurableReconstruction.x_min ConfigurableReconstruction.y_min
       ConfigurableReconstruction.z_min
       ConfigurableReconstruction.distance_falloff_factor].
  set (p := vadd camera_pos (vscale (INR i * step_size) ray_dir)).
  replace (vec_x p - - (25 / 100)) with (vec_x p + 25 / 100) by ring.
  replace (vec_y p - 0) with (vec_y p) by ring.
  replace (vec_z p - 0) with (vec_z p) by ring.
  reflexivity.
Qed.

Lemma improved_fold_as_configurable (camera_pos ray_dir : vec3)
    (grid_size : Z) (voxel_size max_distance intensity step_size : R)
    (steps : list nat) (acc : list (idx * R) * list idx) :
  fold_left
    (ImprovedRayTraversal.traverse_step
       camera_pos ray_dir grid_size voxel_size intensity step_size) steps acc
  = fold_left
      (ConfigurableReconstruction.traverse_step
         camera_pos ray_dir (improved_config grid_size voxel_size max_distance)
         intensity step_size) steps acc.
Proof.
  apply fold_left_ext. intros a i. apply improved_step_as_configurable.
Qed.

(** X10. The ray traversal of improved_ray_traversal.py is the traversal of
    configurable_reconstruction.py under the configuration with the same grid
    size, voxel size and reach, [x_min = -0.25], [y_min = z_min = 0], a step
    ratio of 0.5 and a falloff factor of 0.2. *)
Theorem improved_traversal_is_configurable_traversal
    (camera_pos ray_dir : vec3) (grid_size : Z)
    (voxel_size max_distance intensity : R) :
  ImprovedRayTraversal.traverse_ray_3d
    camera_pos ray_dir grid_size voxel_size max_distance intensity
  = ConfigurableReconstruction.traverse_ray_3d
      camera_pos ray_dir (improved_config grid_size voxel_size max_distance)
      intensity.
Proof.
  unfold ImprovedRayTraversal.traverse_ray_3d,
    ConfigurableReconstruction.traverse_ray_3d. cbv zeta.
  cbn [improved_config ConfigurableReconstruction.voxel_size_meters
       ConfigurableReconstruction.max_ray_distance_meters
       ConfigurableReconstruction.ray_step_size_ratio].
  f_equal. apply improved_fold_as_configurable.
Qed.

(** The invariant at the end of the loop, for both scripts. *)
Lemma configurable_traversal_invariant (camera_pos ray_dir : vec3)
    (config : ConfigurableReconstruction.SystemConfig) (intensity : R) :
  exists visited : list idx,
    traversal_invariant camera_pos ray_dir config intensity (num_steps config)
      (ConfigurableReconstruction.traverse_ray_3d
         camera_pos ray_dir config intensity, visited).
Proof.
  pose proof (traverse_ray_3d_invariant camera_pos ray_dir config intensity
                (num_steps config)) as H.
  unfold ConfigurableReconstruction.traverse_ray_3d. cbv zeta.
  fold (num_steps config).
  destruct (fold_left _ (seq 0 (num_steps config)) ([], [])) as [vl visited].
  exists visited. exact H.
Qed.

Lemma improved_traversal_invariant (camera_pos ray_dir : vec3)
    (grid_size : Z) (voxel_size max_distance intensity : R) :
  exists visited : list idx,
    traversal_invariant camera_pos ray_dir
      (improved_config grid_size voxel_size max_distance) intensity
      (num_steps (improved_config grid_size voxel_size max_distance))
      (ImprovedRayTraversal.traverse_ray_3d
         camera_pos ray_dir grid_size voxel_size max_distance intensity,
       visited).
Proof.
  destruct (configurable_traversal_invariant camera_pos ray_dir
              (improved_config grid_size voxel_size max_distance) intensity)
    as (visited & H).
  exists visited.
  unfold ImprovedRayTraversal.traverse_ray_3d. cbv zeta.
  rewrite (improved_fold_as_configurable _ _ _ _ max_distance).
  exact H.
Qed.

(** X11. Both traversals record a cell at most once per ray (the [visited] set
    works), and never more cells than there are samples. *)
Theorem traversal_records_each_cell_once :
  (forall (camera_pos ray_dir : vec3)
          (config : ConfigurableReconstruction.SystemConfig) (intensity : R),
      let voxel_list :=
        ConfigurableReconstruction.traverse_ray_3d
          camera_pos ray_dir config intensity in
      NoDup (map fst voxel_list) /\
      (length voxel_list <= num_steps config)%nat)
  /\
  (forall (camera_pos ray_dir : vec3) (grid_size : Z)
          (voxel_size max_distance intensity : R),
      let voxel_list :=
        ImprovedRayTraversal.traverse_ray_3d
          camera_pos ray_dir grid_size voxel_size max_distance intensity in
      NoDup (map fst voxel_list) /\
      (length voxel_list
       <= Z.to_nat (py_int (max_distance / (voxel_size * (5 / 10)))))%nat).
Proof.
  split.
  - intros camera_pos ray_dir config intensity voxel_list.
    destruct (configurable_traversal_invariant
                camera_pos ray_dir config intensity)
      as (visited & Hnd & _ & Hlen & _).
    split; [exact Hnd|exact Hlen].
  - intros camera_pos ray_dir grid_size voxel_size max_distance intensity
           voxel_list.
    destruct (improved_traversal_invariant
                camera_pos ray_dir grid_size voxel_size max_distance intensity)
      as (visited & Hnd & _ & Hlen & _).
    split; [exact Hnd|exact Hlen].
Qed.

(** X12. Every entry of a traversal comes from a sample of the ray: for some
    step [i] below the number of steps, the sample [camera_pos + ray_dir *
    (i * step_size)] is not below ground ([y >= 0]), the entry's cell is the
    cell computed from that sample, and its weight is the intensity times the
    distance falloff of that sample. *)
Theorem traversal_entries_are_samples_of_the_ray :
  (forall (camera_pos ray_dir : vec3)
          (config : ConfigurableReconstruction.SystemConfig) (intensity : R)
          (e : idx * R),
      In e (ConfigurableReconstruction.traverse_ray_3d
              camera_pos ray_dir config intensity) ->
      exists i : nat,
        (i < num_steps config)%nat /\
        recorded_sample camera_pos ray_dir config intensity i e)
  /\
  (forall (camera_pos ray_dir : vec3) (grid_size : Z)
          (voxel_size max_distance intensity : R) (e : idx * R),
      In e (ImprovedRayTraversal.traverse_ray_3d
              camera_pos ray_dir grid_size voxel_size max_distance intensity) ->
      exists i : nat,
        (i < Z.to_nat (py_int (max_distance / (voxel_size * (5 / 10)))))%nat /\
        recorded_sample camera_pos ray_dir
          (improved_config grid_size voxel_size max_distance) intensity i e).
Proof.
  split.
  - intros camera_pos ray_dir config intensity e Hin.
    destruct (configurable_traversal_invariant
                camera_pos ray_dir config intensity)
      as (visited & _ & _ & _ & Hall).
    cbn [fst] in Hall. rewrite Forall_forall in Hall. exact (Hall e Hin).
  - intros camera_pos ray_dir grid_size voxel_size max_distance intensity e Hin.
    destruct (improved_traversal_invariant
                camera_pos ray_dir grid_size voxel_size max_distance intensity)
      as (visited & _ & _ & _ & Hall).
    cbn [fst] in Hall. rewrite Forall_forall in Hall. exact (Hall e Hin).
Qed.

(** A ray along +y from the origin, with voxels of 1 m and a reach of 1 m:
    two samples, both in cell (0,0,0), which is recorded once with the full
    intensity. *)
Lemma traverse_ray_3d_example :
  ImprovedRayTraversal.traverse_ray_3d
    (mkVec 0 0 0) (mkVec 0 1 0) 64 1 1 1
  = [((0, 0, 0)%Z, 1)].
Proof.
  unfold ImprovedRayTraversal.traverse_ray_3d. cbv zeta.
  rewrite (py_int_of_nonneg (1 / (1 * (5 / 10))) 2) by lra.
  change (seq 0 (Z.to_nat 2)) with [0%nat; 1%nat].
  cbn [fold_left].
  (* the sample at step 0 *)
  unfold ImprovedRayTraversal.traverse_step at 2. cbv zeta.
  set (p0 := vadd (mkVec 0 0 0) (vscale (INR 0 * (1 * (5 / 10))) (mkVec 0 1 0))).
  assert (Hp0 : p0 = mkVec 0 0 0).
  { unfold p0, vadd, vscale. cbn. apply vec3_eq; ring. }
  rewrite Hp0. cbn [vec_x vec_y vec_z].
  replace (Rltb 0 0) with false by (symmetry; apply Rltb_false; lra).
  rewrite (py_int_of_nonneg ((0 + 25 / 100) / 1) 0) by lra.
  rewrite (py_int_of_nonneg (0 / 1) 0) by lra.
  cbn [ImprovedRayTraversal.in_grid Z.leb Z.ltb Z.compare andb negb existsb
       app].
  assert (Hw : 1 * (1 / (1 + norm (vsub (mkVec 0 0 0) (mkVec 0 0 0)) * (2 / 10)))
               = 1).
  { rewrite norm_eq_0 by (unfold dot, vsub; cbn; ring). field. }
  rewrite Hw.
  (* the sample at step 1 *)
  unfold ImprovedRayTraversal.traverse_step. cbv zeta.
  set (p1 := vadd (mkVec 0 0 0) (vscale (INR 1 * (1 * (5 / 10))) (mkVec 0 1 0))).
  assert (Hp1 : p1 = mkVec 0 (5 / 10) 0).
  { unfold p1, vadd, vscale. cbn. apply vec3_eq; ring. }
  rewrite Hp1. cbn [vec_x vec_y vec_z].
  replace (Rltb (5 / 10) 0) with false by (symmetry; apply Rltb_false; lra).
  rewrite (py_int_of_nonneg ((0 + 25 / 100) / 1) 0) by lra.
  rewrite (py_int_of_nonneg (0 / 1) 0) by lra.
  rewrite (py_int_of_nonneg (5 / 10 / 1) 0) by lra.
  reflexivity.
Qed.

Lemma traversal_entries_are_samples_of_the_ray_witness :
  exists i : nat,
    (i < Z.to_nat (py_int (1 / (1 * (5 / 10)))))%nat /\
    recorded_sample (mkVec 0 0 0) (mkVec 0 1 0) (improved_config 64 1 1) 1 i
      ((0, 0, 0)%Z, 1).
Proof.
  apply (proj2 traversal_entries_are_samples_of_the_ray
           (mkVec 0 0 0) (mkVec 0 1 0) 64%Z 1 1 1).
  rewrite traverse_ray_3d_example. left. reflexivity.
Defined.

Lemma contributions_absent (ws : list (idx * R)) (cell : idx) :
  ~ In cell (map fst ws) -> MainLoop.contributions ws cell = 0.
Proof.
  induction ws as [|e ws IH]; intros Hnot; [reflexivity|].
  cbn [MainLoop.contributions]. cbn [map] in Hnot.
  destruct (idx_eqb (fst e) cell) eqn:He.
  - apply idx_eqb_eq in He. exfalso. apply Hnot. now left.
  - apply IH. intros Hin. apply Hnot. now right.
Qed.

(** Entries with distinct cells and weights in [0, M] add at most M/10 to
    any one cell. *)
Lemma contributions_of_distinct_cells (ws : list (idx * R)) (M : R)
    (cell : idx) :
  NoDup (map fst ws) ->
  Forall (fun e => 0 <= snd e <= M) ws ->
  0 <= M ->
  0 <= MainLoop.contributions ws cell <= M * (1 / 10).
Proof.
  intros Hnd Hall HM. induction ws as [|e ws IH]; [cbn; lra|].
  cbn [map] in Hnd. apply NoDup_cons_iff in Hnd. destruct Hnd as (Hnot & Hnd).
  apply Forall_cons_iff in Hall. destruct Hall as (He & Hall).
  specialize (IH Hnd Hall). cbn [MainLoop.contributions].
  destruct (idx_eqb (fst e) cell) eqn:Hcell; [|exact IH].
  apply idx_eqb_eq in Hcell. subst cell.
  rewrite (contributions_absent ws (fst e) Hnot). lra.
Qed.

Lemma recorded_sample_weight_bounds (camera_pos ray_dir : vec3)
    (config : ConfigurableReconstruction.SystemConfig) (intensity : R)
    (i : nat) (e : idx * R) :
  0 <= ConfigurableReconstruction.distance_falloff_factor config ->
  0 <= intensity ->
  recorded_sample camera_pos ray_dir config intensity i e ->
  0 <= snd e <= intensity.
Proof.
  intros Hf Hint (_ & _ & Hw). rewrite Hw.
  match goal with
  | |- context [norm ?v] => pose proof (norm_nonneg v) as Hn; set (d := norm v) in *
  end.
  set (f := ConfigurableReconstruction.distance_falloff_factor config) in *.
  assert (Hden : 1 <= 1 + d * f) by nra.
  assert (Hfall : 0 < 1 / (1 + d * f) <= 1).
  { split.
    - apply Rdiv_lt_0_compat; lra.
    - apply Rmult_le_reg_r with (1 + d * f); [lra|].
      replace (1 / (1 + d * f) * (1 + d * f)) with 1 by (field; lra). lra. }
  nra.
Qed.

(** X13. With a non-negative intensity (and, in the configurable script, a
    non-negative falloff factor) every weight on a ray lies between 0 and the
    intensity, and, as no cell repeats, one ray adds at most a tenth of its
    pixel intensity to any one cell. *)
Theorem one_ray_adds_at_most_a_tenth_of_its_intensity :
  (forall (camera_pos ray_dir : vec3)
          (config : ConfigurableReconstruction.SystemConfig) (intensity : R)
          (cell : idx),
      0 <= ConfigurableReconstruction.distance_falloff_factor config ->
      0 <= intensity ->
      let voxel_list :=
        ConfigurableReconstruction.traverse_ray_3d
          camera_pos ray_dir config intensity in
      Forall (fun e => 0 <= snd e <= intensity) voxel_list /\
      0 <= MainLoop.contributions voxel_list cell <= intensity * (1 / 10))
  /\
  (forall (camera_pos ray_dir : vec3) (grid_size : Z)
          (voxel_size max_distance intensity : R) (cell : idx),
      0 <= intensity ->
      let voxel_list :=
        ImprovedRayTraversal.traverse_ray_3d
          camera_pos ray_dir grid_size voxel_size max_distance intensity in
      Forall (fun e => 0 <= snd e <= intensity) voxel_list /\
      0 <= MainLoop.contributions voxel_list cell <= intensity * (1 / 10)).
Proof.
  assert (Hgen :
    forall camera_pos ray_dir config intensity k acc cell,
      0 <= ConfigurableReconstruction.distance_falloff_factor config ->
      0 <= intensity ->
      traversal_invariant camera_pos ray_dir config intensity k acc ->
      Forall (fun e => 0 <= snd e <= intensity) (fst acc) /\
      0 <= MainLoop.contributions (fst acc) cell <= intensity * (1 / 10)).
  { intros camera_pos ray_dir config intensity k acc cell Hf Hint
           (Hnd & _ & _ & Hall).
    assert (Hw : Forall (fun e => 0 <= snd e <= intensity) (fst acc)).
    { eapply Forall_impl; [|exact Hall].
      intros e (i & _ & He).
      now apply (recorded_sample_weight_bounds camera_pos ray_dir config
                   intensity i e). }
    split; [exact Hw|].
    now apply contributions_of_distinct_cells. }
  split.
  - intros camera_pos ray_dir config intensity cell Hf Hint voxel_list.
    destruct (configurable_traversal_invariant
                camera_pos ray_dir config intensity) as (visited & Hinv).
    exact (Hgen _ _ _ _ _ _ cell Hf Hint Hinv).
  - intros camera_pos ray_dir grid_size voxel_size max_distance intensity cell
           Hint voxel_list.
    destruct (improved_traversal_invariant
                camera_pos ray_dir grid_size voxel_size max_distance intensity)
      as (visited & Hinv).
    assert (Hf : 0 <= ConfigurableReconstruction.distance_falloff_factor
                        (improved_config grid_size voxel_size max_distance))
      by (cbn; lra).
    exact (Hgen _ _ _ _ _ _ cell Hf Hint Hinv).
Qed.

Lemma one_ray_adds_at_most_a_tenth_of_its_intensity_witness :
  0 <= MainLoop.contributions
         (ImprovedRayTraversal.traverse_ray_3d
            (mkVec 0 0 0) (mkVec 0 1 0) 64 1 1 1) (0, 0, 0)%Z
    <= 1 * (1 / 10).
Proof.
  refine (proj2 (proj2 one_ray_adds_at_most_a_tenth_of_its_intensity
                   (mkVec 0 0 0) (mkVec 0 1 0) 64%Z 1 1 1 (0, 0, 0)%Z _)).
  lra.
Defined.

Lemma norm_vscale_unit (t : R) (d : vec3) :
  dot d d = 1 -> 0 <= t -> norm (vscale t d) = t.
Proof.
  intros Hd Ht. unfold norm.
  replace (dot (vscale t d) (vscale t d)) with (t * t * dot d d)
    by (unfold dot, vscale; cbn [vec_x vec_y vec_z]; ring).
  rewrite Hd, Rmult_1_r. now apply sqrt_square.
Qed.

Lemma sample_point_offset (camera_pos ray_dir : vec3) (step_size : R) (i : nat) :
  vsub (sample_point camera_pos ray_dir step_size i) camera_pos
  = vscale (INR i * step_size) ray_dir.
Proof.
  unfold sample_point, vsub, vadd, vscale. cbn [vec_x vec_y vec_z].
  apply vec3_eq; ring.
Qed.

(** X14. For a unit ray direction and a non-negative step size the distance of
    a sample from the camera is [i * step_size], so an entry recorded at step
    [i] has weight [intensity / (1 + i * step_size * falloff_factor)]. *)
Theorem unit_ray_weight_is_falloff_of_travelled_distance :
  (forall (camera_pos ray_dir : vec3)
          (config : ConfigurableReconstruction.SystemConfig) (intensity : R)
          (e : idx * R),
      let step_size :=
        ConfigurableReconstruction.voxel_size_meters config
        * ConfigurableReconstruction.ray_step_size_ratio config in
      dot ray_dir ray_dir = 1 ->
      0 <= step_size ->
      In e (ConfigurableReconstruction.traverse_ray_3d
              camera_pos ray_dir config intensity) ->
      exists i : nat,
        (i < num_steps config)%nat /\
        snd e
        = intensity
          / (1 + INR i * step_size
                 * ConfigurableReconstruction.distance_falloff_factor config))
  /\
  (forall (camera_pos ray_dir : vec3) (grid_size : Z)
          (voxel_size max_distance intensity : R) (e : idx * R),
      dot ray_dir ray_dir = 1 ->
      0 <= voxel_size ->
      In e (ImprovedRayTraversal.traverse_ray_3d
              camera_pos ray_dir grid_size voxel_size max_distance intensity) ->
      exists i : nat,
        (i < Z.to_nat (py_int (max_distance / (voxel_size * (5 / 10)))))%nat /\
        snd e = intensity / (1 + INR i * (voxel_size * (5 / 10)) * (2 / 10))).
Proof.
  assert (Hgen :
    forall camera_pos ray_dir config intensity k acc e,
      dot ray_dir ray_dir = 1 ->
      0 <= ConfigurableReconstruction.voxel_size_meters config
           * ConfigurableReconstruction.ray_step_size_ratio config ->
      traversal_invariant camera_pos ray_dir config intensity k acc ->
      In e (fst acc) ->
      exists i : nat,
        (i < k)%nat /\
        snd e
        = intensity
          / (1 + INR i
                 * (ConfigurableReconstruction.voxel_size_meters config
                    * ConfigurableReconstruction.ray_step_size_ratio config)
                 * ConfigurableReconstruction.distance_falloff_factor config)).
  { intros camera_pos ray_dir config intensity k acc e Hd Hstep
           (_ & _ & _ & Hall) Hin.
    rewrite Forall_forall in Hall.
    destruct (Hall e Hin) as (i & Hi & _ & _ & Hw).
    exists i. split; [exact Hi|]. rewrite Hw. cbv zeta.
    rewrite sample_point_offset, norm_vscale_unit.
    - unfold Rdiv. ring.
    - exact Hd.
    - apply Rmult_le_pos; [apply pos_INR|exact Hstep]. }
  split.
  - intros camera_pos ray_dir config intensity e step_size Hd Hstep Hin.
    destruct (configurable_traversal_invariant
                camera_pos ray_dir config intensity) as (visited & Hinv).
    exact (Hgen _ _ _ _ _ _ e Hd Hstep Hinv Hin).
  - intros camera_pos ray_dir grid_size voxel_size max_distance intensity e
           Hd Hvs Hin.
    destruct (improved_traversal_invariant
                camera_pos ray_dir grid_size voxel_size max_distance intensity)
      as (visited & Hinv).
    assert (Hstep :
      0 <= ConfigurableReconstruction.voxel_size_meters
             (improved_config grid_size voxel_size max_distance)
           * ConfigurableReconstruction.ray_step_size_ratio
               (improved_config grid_size voxel_size max_distance))
      by (cbn; lra).
    exact (Hgen _ _ _ _ _ _ e Hd Hstep Hinv Hin).
Qed.

Lemma unit_ray_weight_is_falloff_of_travelled_distance_witness :
  exists i : nat,
    (i < Z.to_nat (py_int (1 / (1 * (5 / 10)))))%nat /\
    1 = 1 / (1 + INR i * (1 * (5 / 10)) * (2 / 10)).
Proof.
  refine (proj2 unit_ray_weight_is_falloff_of_travelled_distance
            (mkVec 0 0 0) (mkVec 0 1 0) 64%Z 1 1 1 ((0, 0, 0)%Z, 1) _ _ _).
  - unfold dot. cbn. ring.
  - lra.
  - rewrite traverse_ray_3d_example. left. reflexivity.
Defined.

Lemma py_int_bounds (x : R) :
  IZR (py_int x) - 1 < x < IZR (py_int x) + 1 /\
  (0 <= x -> IZR (py_int x) <= x) /\
  (x < 0 -> (py_int x <= 0)%Z).
Proof.
  unfold py_int. destruct (Rleb 0 x) eqn:Hx.
  - apply Rleb_true in Hx. destruct (base_Int_part x) as (H1 & H2).
    repeat split; try lra.
  - apply Rleb_false in Hx. destruct (base_Int_part (- x)) as (H1 & H2).
    rewrite opp_IZR. repeat split; try lra.
    intros _. assert (0 <= Int_part (- x))%Z; [|lia].
    apply le_IZR. 
    assert (Hlt : -1 < IZR (Int_part (- x))) by lra.
    replace (-1) with (IZR (-1)) in Hlt by reflexivity.
    apply lt_IZR in Hlt. apply IZR_le. lia.
Qed.

Lemma cell_of_coordinate (q voxel_size : R) :
  0 < voxel_size ->
  let v := py_int (q / voxel_size) in
  (IZR v - 1) * voxel_size < q < (IZR v + 1) * voxel_size /\
  (0 <= q -> IZR v * voxel_size <= q) /\
  ((1 <= v)%Z -> IZR v * voxel_size <= q).
Proof.
  intros Hvs v.
  destruct (py_int_bounds (q / voxel_size)) as ((Hlo & Hhi) & Hnonneg & Hneg).
  fold v in Hlo, Hhi, Hnonneg, Hneg.
  assert (Hq : q = q / voxel_size * voxel_size) by (field; lra).
  assert (Hfloor : 0 <= q -> IZR v * voxel_size <= q).
  { intros H0. assert (0 <= q / voxel_size).
    { apply Rmult_le_pos; [exact H0|]. apply Rlt_le, Rinv_0_lt_compat, Hvs. }
    specialize (Hnonneg H). rewrite Hq at 1. nra. }
  split; [|split].
  - split; rewrite Hq at 1 || rewrite Hq; nra.
  - exact Hfloor.
  - intros Hv. apply Hfloor.
    destruct (Rle_or_lt 0 q) as [H0|H0]; [exact H0|].
    assert (q / voxel_size < 0).
    { unfold Rdiv. pose proof (Rinv_0_lt_compat _ Hvs). nra. }
    specialize (Hneg H). lia.
Qed.

(** X15. In improved_ray_traversal.py (voxel size above 0) the sample behind an
    entry lies in the entry's cell along y; along x and z it lies within one
    voxel of the cell, and inside the cell whenever the index is at least 1:
    [int()] truncates toward zero, so cell 0 along x or z also collects
    samples up to one voxel below the grid. *)
Theorem recorded_cell_contains_its_sample
    (camera_pos ray_dir : vec3) (grid_size : Z)
    (voxel_size max_distance intensity : R) (vox_z vox_y vox_x : Z) (w : R) :
  0 < voxel_size ->
  In ((vox_z, vox_y, vox_x), w)
     (ImprovedRayTraversal.traverse_ray_3d
        camera_pos ray_dir grid_size voxel_size max_distance intensity) ->
  exists i : nat,
    let p := sample_point camera_pos ray_dir (voxel_size * (5 / 10)) i in
    (IZR vox_y * voxel_size <= vec_y p < (IZR vox_y + 1) * voxel_size) /\
    ((IZR vox_x - 1) * voxel_size < vec_x p + 25 / 100
     < (IZR vox_x + 1) * voxel_size) /\
    ((1 <= vox_x)%Z -> IZR vox_x * voxel_size <= vec_x p + 25 / 100) /\
    ((IZR vox_z - 1) * voxel_size < vec_z p < (IZR vox_z + 1) * voxel_size) /\
    ((1 <= vox_z)%Z -> IZR vox_z * voxel_size <= vec_z p).
Proof.
  intros Hvs Hin.
  destruct (improved_traversal_invariant
              camera_pos ray_dir grid_size voxel_size max_distance intensity)
    as (visited & _ & _ & _ & Hall).
  cbn [fst] in Hall. rewrite Forall_forall in Hall.
  destruct (Hall _ Hin) as (i & _ & Hy & Hkey & _).
  cbv zeta in Hy, Hkey.
  cbn [fst improved_config ConfigurableReconstruction.voxel_size_meters
       ConfigurableReconstruction.ray_step_size_ratio
       ConfigurableReconstruction.x_min ConfigurableReconstruction.y_min
       ConfigurableReconstruction.z_min] in Hy, Hkey.
  exists i. cbv zeta.
  set (p := sample_point camera_pos ray_dir (voxel_size * (5 / 10)) i) in *.
  injection Hkey as Hz Hyy Hx.
  change (vec_z camera_pos + INR i * (voxel_size * (5 / 10)) * vec_z ray_dir)
    with (vec_z p) in Hz.
  change (vec_y camera_pos + INR i * (voxel_size * (5 / 10)) * vec_y ray_dir)
    with (vec_y p) in Hyy.
  change (vec_x camera_pos + INR i * (voxel_size * (5 / 10)) * vec_x ray_dir)
    with (vec_x p) in Hx.
  replace (vec_z p - 0) with (vec_z p) in Hz by ring.
  replace (vec_y p - 0) with (vec_y p) in Hyy by ring.
  replace (vec_x p - - (25 / 100)) with (vec_x p + 25 / 100) in Hx by ring.
  destruct (cell_of_coordinate (vec_y p) voxel_size Hvs) as (Y1 & Y2 & _).
  destruct (cell_of_coordinate (vec_x p + 25 / 100) voxel_size Hvs)
    as (X1 & _ & X3).
  destruct (cell_of_coordinate (vec_z p) voxel_size Hvs) as (Z1 & _ & Z3).
  cbv zeta in Y1, Y2, X1, X3, Z1, Z3.
  rewrite <- Hyy in Y1, Y2. rewrite <- Hx in X1, X3. rewrite <- Hz in Z1, Z3.
  specialize (Y2 Hy).
  split; [lra|]. split; [exact X1|]. split; [exact X3|].
  split; [exact Z1|exact Z3].
Qed.

Lemma recorded_cell_contains_its_sample_witness :
  exists i : nat,
    let p := sample_point (mkVec 0 0 0) (mkVec 0 1 0) (1 * (5 / 10)) i in
    (IZR 0 * 1 <= vec_y p < (IZR 0 + 1) * 1) /\
    ((IZR 0 - 1) * 1 < vec_x p + 25 / 100 < (IZR 0 + 1) * 1) /\
    ((1 <= 0)%Z -> IZR 0 * 1 <= vec_x p + 25 / 100) /\
    ((IZR 0 - 1) * 1 < vec_z p < (IZR 0 + 1) * 1) /\
    ((1 <= 0)%Z -> IZR 0 * 1 <= vec_z p).
Proof.
  refine (recorded_cell_contains_its_sample
            (mkVec 0 0 0) (mkVec 0 1 0) 64%Z 1 1 1 0%Z 0%Z 0%Z 1 _ _).
  - lra.
  - rewrite traverse_ray_3d_example. left. reflexivity.
Defined.

(** ** Static scenes and failed captures in the main loops *)

Section StaticScene.

Import MainLoop.

Variable traverse : vec3 -> vec3 -> R -> list (idx * R).
Variables left_pos right_pos : vec3.
Variables left_calib right_calib : option CameraCalibration.t.
Variable threshold : Z.
Variables boost decay : R.

Hypothesis threshold_nonneg : (0 <= threshold)%Z.

Lemma static_left_writes (st : state) :
  left_writes traverse left_pos left_calib threshold st (prev_left st) = [].
Proof.
  unfold left_writes.
  now rewrite (np_argwhere_all_false _ (gt_mask_absdiff_self _ _ threshold_nonneg)).
Qed.

Lemma static_right_writes (st : state) :
  right_writes traverse right_pos right_calib threshold st (prev_right st) = [].
Proof.
  unfold right_writes.
  now rewrite (np_argwhere_all_false _ (gt_mask_absdiff_self _ _ threshold_nonneg)).
Qed.

Lemma static_run (frames : list (option image * option image)) :
  forall st : state,
    Forall (failed_or_same (prev_left st) (prev_right st)) frames ->
    let st' := run traverse left_pos right_pos left_calib right_calib
                   threshold boost decay st frames in
    (forall i, voxel_grid st' i = voxel_grid st i * decay ^ captured frames) /\
    prev_left st' = prev_left st /\ prev_right st' = prev_right st /\
    frame_count st' = (frame_count st + Z.of_nat (captured frames))%Z.
Proof.
  unfold run. induction frames as [|f frames IH]; intros st Hall.
  - cbn. repeat split; try lia. intros i. ring.
  - apply Forall_cons_iff in Hall. destruct Hall as (Hf & Hall).
    cbn [fold_left].
    destruct f as [[l|] [r|]]; cbn [loop_step captured];
      try (now apply IH).
    destruct Hf as (-> & ->).
    set (st1 := frame_cycle traverse left_pos right_pos left_calib right_calib
                            threshold boost decay st (prev_left st)
                            (prev_right st)).
    assert (Hg : forall i, voxel_grid st1 i = voxel_grid st i * decay).
    { intros i. unfold st1.
      apply decay_only_cell; [apply static_left_writes|apply static_right_writes]. }
    assert (Hl : prev_left st1 = prev_left st) by reflexivity.
    assert (Hr : prev_right st1 = prev_right st) by reflexivity.
    assert (Hc : frame_count st1 = (frame_count st + 1)%Z) by reflexivity.
    rewrite <- Hl, <- Hr in Hall.
    destruct (IH st1 Hall) as (Hgrid & Hpl & Hpr & Hfc).
    cbv zeta in Hgrid, Hpl, Hpr, Hfc.
    split; [|split; [|split]].
    + intros i. rewrite Hgrid, Hg. cbn [pow]. ring.
    + congruence.
    + congruence.
    + rewrite Hfc, Hc. lia.
Qed.

End StaticScene.

(** X16. While the scene is still (every captured pair equals the previous
    pair) the main loops write no voxel: after any number of passes, some of
    them skipped for a failed capture, every cell is its old value times the
    decay factor to the power of the number of captured pairs.  A skipped
    pass does not decay.  (In the configurable script the motion threshold
    is not negative.) *)
Theorem still_scene_only_decays :
  (forall (calib : option CameraCalibration.t) (st : MainLoop.state)
          (frames : list (option image * option image)) (i : idx),
      Forall (failed_or_same (MainLoop.prev_left st) (MainLoop.prev_right st))
             frames ->
      MainLoop.voxel_grid (ImprovedRayTraversal.run calib st frames) i
      = MainLoop.voxel_grid st i * (99 / 100) ^ captured frames)
  /\
  (forall (config : ConfigurableReconstruction.SystemConfig)
          (left_calib right_calib : option CameraCalibration.t)
          (st : MainLoop.state)
          (frames : list (option image * option image)) (i : idx),
      (0 <= ConfigurableReconstruction.motion_threshold config)%Z ->
      Forall (failed_or_same (MainLoop.prev_left st) (MainLoop.prev_right st))
             frames ->
      MainLoop.voxel_grid
        (MainLoop.run
           (ConfigurableReconstruction.traverse_call config)
           (ConfigurableReconstruction.left_position config)
           (ConfigurableReconstruction.right_position config)
           left_calib right_calib
           (ConfigurableReconstruction.motion_threshold config)
           (ConfigurableReconstruction.multi_camera_boost config)
           (ConfigurableReconstruction.temporal_decay config) st frames) i
      = MainLoop.voxel_grid st i
        * ConfigurableReconstruction.temporal_decay config ^ captured frames).
Proof.
  split.
  - intros calib st frames i Hall.
    assert (Hthr : (0 <= ImprovedRayTraversal.motion_threshold)%Z)
      by (unfold ImprovedRayTraversal.motion_threshold; lia).
    unfold ImprovedRayTraversal.run.
    exact (proj1 (static_run ImprovedRayTraversal.traverse_call _ _ _ _ _
                    (15 / 10) (99 / 100) Hthr frames st Hall) i).
  - intros config left_calib right_calib st frames i Hthr Hall.
    exact (proj1 (static_run _ _ _ _ _ _ _ _ Hthr frames st Hall) i).
Qed.

Lemma still_scene_only_decays_witness :
  let img := [[10; 20]; [30; 40]]%Z in
  let st := {| MainLoop.voxel_grid := fun _ => 1;
               MainLoop.camera_hits := MainLoop.no_hits;
               MainLoop.prev_left := img;
               MainLoop.prev_right := img;
               MainLoop.frame_count := 0 |} in
  MainLoop.voxel_grid
    (ImprovedRayTraversal.run None st
       [(Some img, Some img); (None, Some img); (Some img, Some img)])
    (0, 0, 0)%Z
  = 1 * (99 / 100) ^ 2.
Proof.
  intros img st.
  refine (proj1 still_scene_only_decays None st
            [(Some img, Some img); (None, Some img); (Some img, Some img)]
            (0, 0, 0)%Z _).
  repeat constructor.
Defined.

(** ** Non-negativity in the configurable script *)

Lemma configurable_weights_nonneg
    (config : ConfigurableReconstruction.SystemConfig) :
  0 <= ConfigurableReconstruction.distance_falloff_factor config ->
  forall (camera_pos ray_dir : vec3) (intensity : R),
    0 <= intensity ->
    nonneg_weights
      (ConfigurableReconstruction.traverse_call
         config camera_pos ray_dir intensity).
Proof.
  intros Hf camera_pos ray_dir intensity Hint.
  unfold ConfigurableReconstruction.traverse_call, nonneg_weights.
  destruct (configurable_traversal_invariant camera_pos ray_dir config intensity)
    as (visited & _ & _ & _ & Hall).
  cbn [fst] in Hall. eapply Forall_impl; [|exact Hall].
  intros e (i & _ & He).
  now apply (recorded_sample_weight_bounds camera_pos ray_dir config
               intensity i e Hf Hint).
Qed.

(** X17. In configurable_reconstruction.py the grid stays non-negative, pass
    by pass and over a whole run from the empty grid, provided the configured
    falloff factor, boost and decay are not negative; the loader does not
    check them. *)
Theorem configurable_grid_stays_nonnegative
    (config : ConfigurableReconstruction.SystemConfig)
    (left_calib right_calib : option CameraCalibration.t) :
  0 <= ConfigurableReconstruction.distance_falloff_factor config ->
  0 <= ConfigurableReconstruction.multi_camera_boost config ->
  0 <= ConfigurableReconstruction.temporal_decay config ->
  (forall (st : MainLoop.state) (img_left img_right : image),
      nonneg_grid (MainLoop.voxel_grid st) ->
      nonneg_grid
        (MainLoop.voxel_grid
           (ConfigurableReconstruction.frame_cycle
              config left_calib right_calib st img_left img_right)))
  /\
  (forall (prev_left prev_right : image)
          (frames : list (option image * option image)),
      nonneg_grid
        (MainLoop.voxel_grid
           (MainLoop.run
              (ConfigurableReconstruction.traverse_call config)
              (ConfigurableReconstruction.left_position config)
              (ConfigurableReconstruction.right_position config)
              left_calib right_calib
              (ConfigurableReconstruction.motion_threshold config)
              (ConfigurableReconstruction.multi_camera_boost config)
              (ConfigurableReconstruction.temporal_decay config)
              (ImprovedRayTraversal.start prev_left prev_right) frames))).
Proof.
  intros Hf Hb Hd. split.
  - intros st img_left img_right Hst.
    unfold ConfigurableReconstruction.frame_cycle.
    exact (frame_cycle_nonneg _ _ _ _ _ _ _ _
             (configurable_weights_nonneg config Hf) Hb Hd
             st img_left img_right Hst).
  - intros prev_left prev_right frames.
    apply (run_nonneg _ _ _ _ _ _ _ _
             (configurable_weights_nonneg config Hf) Hb Hd).
    exact zeros_nonneg.
Qed.

Lemma configurable_grid_stays_nonnegative_witness :
  nonneg_grid
    (MainLoop.voxel_grid
       (MainLoop.run
          (ConfigurableReconstruction.traverse_call
             ConfigurableReconstruction.default_config)
          (mkVec 0 0 0) (mkVec (5 / 10) 0 0) None None 25 (15 / 10)
          (99 / 100)
          (ImprovedRayTraversal.start [[0]]%Z [[0]]%Z)
          [(Some [[200]]%Z, Some [[200]]%Z)])).
Proof.
  refine (proj2 (configurable_grid_stays_nonnegative
                   ConfigurableReconstruction.default_config None None _ _ _)
                [[0]]%Z [[0]]%Z [(Some [[200]]%Z, Some [[200]]%Z)]);
    cbn; lra.
Defined.

(** ** The right camera's ray under a rotation *)

Lemma mat_vec_preserves_dot (m : mat3) (v : vec3) :
  orthonormal_columns m -> dot (mat_vec m v) (mat_vec m v) = dot v v.
Proof.
  destruct m as [[a1 a2 a3] [b1 b2 b3] [c1 c2 c3]], v as [x y z].
  unfold orthonormal_columns, mat_vec, dot. cbn.
  intros (H11 & H22 & H33 & H12 & H13 & H23).
  replace ((a1 * x + a2 * y + a3 * z) * (a1 * x + a2 * y + a3 * z)
           + (b1 * x + b2 * y + b3 * z) * (b1 * x + b2 * y + b3 * z)
           + (c1 * x + c2 * y + c3 * z) * (c1 * x + c2 * y + c3 * z))
    with ((a1 * a1 + b1 * b1 + c1 * c1) * (x * x)
          + (a2 * a2 + b2 * b2 + c2 * c2) * (y * y)
          + (a3 * a3 + b3 * b3 + c3 * c3) * (z * z)
          + 2 * (a1 * a2 + b1 * b2 + c1 * c2) * (x * y)
          + 2 * (a1 * a3 + b1 * b3 + c1 * c3) * (x * z)
          + 2 * (a2 * a3 + b2 * b3 + c2 * c3) * (y * z)) by ring.
  rewrite H11, H22, H33, H12, H13, H23. ring.
Qed.

(** X18. When the stereo rotation has orthonormal columns, [get_right_ray]
    returns exactly the rotated camera ray: the second normalisation changes
    nothing, and the ray has length 1. *)
Theorem right_ray_of_a_rotation_is_the_rotated_ray
    (self : CalibratedStereoReconstructor.t) (pixel_x pixel_y : R) :
  orthonormal_columns (CalibratedStereoReconstructor.R_right self) ->
  let ray_right_cam :=
    CalibratedStereoReconstructor.get_ray_direction pixel_x pixel_y
      (CalibratedStereoReconstructor.fx_right self)
      (CalibratedStereoReconstructor.fy_right self)
      (CalibratedStereoReconstructor.cx_right self)
      (CalibratedStereoReconstructor.cy_right self)
      (CalibratedStereoReconstructor.k1_right self) in
  let ray := CalibratedStereoReconstructor.get_right_ray self pixel_x pixel_y in
  ray = mat_vec (CalibratedStereoReconstructor.R_right self) ray_right_cam /\
  dot ray ray = 1.
Proof.
  intros Hrot ray_right_cam ray.
  assert (Hcam : dot ray_right_cam ray_right_cam = 1).
  { unfold ray_right_cam, CalibratedStereoReconstructor.get_ray_direction.
    cbv zeta. destruct (Rgtb _ 0); apply upward_ray_is_unit. }
  assert (Hw : dot (mat_vec (CalibratedStereoReconstructor.R_right self)
                            ray_right_cam)
                   (mat_vec (CalibratedStereoReconstructor.R_right self)
                            ray_right_cam) = 1).
  { now rewrite mat_vec_preserves_dot. }
  assert (Hray : ray = mat_vec (CalibratedStereoReconstructor.R_right self)
                               ray_right_cam).
  { unfold ray, CalibratedStereoReconstructor.get_right_ray. cbv zeta.
    fold ray_right_cam. now apply vdiv_unit. }
  split; [exact Hray|]. now rewrite Hray.
Qed.

Lemma right_ray_of_a_rotation_is_the_rotated_ray_witness :
  let tilt := mkMat (mkVec (4 / 5) 0 (- (3 / 5)))
                    (mkVec 0 1 0)
                    (mkVec (3 / 5) 0 (4 / 5)) in
  let self :=
    CalibratedStereoReconstructor.mk
      748 748 960 540 (- (15 / 100)) 748 748 960 540 (- (15 / 100))
      (mkVec 0 0 0) (mkVec (5 / 10) 0 0) tilt
      (1 / 100) (150, 150, 100)%Z
      (- (5 / 10), 1) (- (75 / 100), 75 / 100) (0, 1)
      30 100 (2 / 100) in
  let ray := CalibratedStereoReconstructor.get_right_ray self 100 200 in
  dot ray ray = 1.
Proof.
  intros tilt self ray.
  refine (proj2 (right_ray_of_a_rotation_is_the_rotated_ray self 100 200 _)).
  unfold orthonormal_columns, dot. cbn. repeat split; field.
Defined.

(** ** World positions and voxel indices *)




(** Along one axis: a coordinate inside [lo, lo + n * vs) falls in the cell
    that contains it, and the clamp leaves the index alone. *)
Lemma axis_index (lo vs q : R) (n : Z) :
  0 < vs -> lo <= q < lo + IZR n * vs ->
  let v := Z.max 0 (Z.min (py_int ((q - lo) / vs)) (n - 1)) in
  v = py_int ((q - lo) / vs) /\
  (0 <= v < n)%Z /\
  lo + IZR v * vs <= q < lo + (IZR v + 1) * vs.
Proof.
  intros Hvs Hq v.
  destruct (cell_of_coordinate (q - lo) vs Hvs) as (_ & Hfloor & _).
  destruct (py_int_bounds ((q - lo) / vs)) as ((_ & Hhi) & Hnn & _).
  cbv zeta in Hfloor. specialize (Hfloor ltac:(lra)).
  set (k := py_int ((q - lo) / vs)) in *.
  assert (H0 : 0 <= (q - lo) / vs).
  { apply Rmult_le_pos; [lra|]. apply Rlt_le, Rinv_0_lt_compat, Hvs. }
  specialize (Hnn H0).
  assert (Hq' : q - lo = (q - lo) / vs * vs) by (field; lra).
  assert (Hk0 : (0 <= k)%Z).
  { apply le_IZR. assert (-1 < IZR k) by lra.
    replace (-1) with (IZR (-1)) in H by reflexivity.
    apply lt_IZR in H. apply IZR_le. lia. }
  assert (Hkn : (k < n)%Z).
  { apply lt_IZR. apply Rmult_lt_reg_r with vs; [exact Hvs|]. lra. }
  assert (Hv : v = k) by (unfold v; lia).
  rewrite Hv. split; [reflexivity|]. split; [lia|].
  split; [lra|].
  assert (Hup : q - lo < (IZR k + 1) * vs).
  { rewrite Hq'. now apply Rmult_lt_compat_r. }
  lra.
Qed.

(** X19. When the world-space box is exactly as long as the grid on every axis
    and voxels have a positive size (as in [__init__]), [world_to_voxel] maps
    a point inside the box to the cell that contains it: the clamp to the
    grid never moves an index. *)
Theorem world_to_voxel_is_the_containing_cell
    (self : StereoVoxelReconstructor.t) (p : vec3) :
  grid_spans_box self ->
  inside_box self p ->
  exists vx vy vz : Z,
    StereoVoxelReconstructor.world_to_voxel self p = Some (vx, vy, vz) /\
    index_in_shape (StereoVoxelReconstructor.voxel_grid_size self)
                   (vx, vy, vz) /\
    let vs := StereoVoxelReconstructor.voxel_size self in
    let x0 := fst (StereoVoxelReconstructor.bounds_x self) in
    let y0 := fst (StereoVoxelReconstructor.bounds_y self) in
    let z0 := fst (StereoVoxelReconstructor.bounds_z self) in
    (x0 + IZR vx * vs <= vec_x p < x0 + (IZR vx + 1) * vs) /\
    (y0 + IZR vy * vs <= vec_y p < y0 + (IZR vy + 1) * vs) /\
    (z0 + IZR vz * vs <= vec_z p < z0 + (IZR vz + 1) * vs).
Proof.
  intros (Hvs & Hbx & Hby & Hbz) (Hx & Hy & Hz).
  cbv zeta in Hbx, Hby, Hbz.
  unfold StereoVoxelReconstructor.world_to_voxel.
  destruct (StereoVoxelReconstructor.voxel_grid_size self) as [[s0 s1] s2].
  cbn [fst snd] in *.
  replace (StereoVoxelReconstructor.in_interval _ (vec_x p) _) with true
    by (symmetry; now apply in_interval_true).
  replace (StereoVoxelReconstructor.in_interval _ (vec_y p) _) with true
    by (symmetry; now apply in_interval_true).
  replace (StereoVoxelReconstructor.in_interval _ (vec_z p) _) with true
    by (symmetry; now apply in_interval_true).
  cbn [negb]. cbv zeta.
  rewrite <- Hbx in Hx. rewrite <- Hby in Hy. rewrite <- Hbz in Hz.
  destruct (axis_index _ _ _ _ Hvs Hx) as (_ & Hix & Hcx).
  destruct (axis_index _ _ _ _ Hvs Hy) as (_ & Hiy & Hcy).
  destruct (axis_index _ _ _ _ Hvs Hz) as (_ & Hiz & Hcz).
  eexists. eexists. eexists. split; [reflexivity|].
  unfold index_in_shape. cbn [fst snd]. auto.
Qed.

Lemma init_grid_spans_box : grid_spans_box StereoVoxelReconstructor.init.
Proof. unfold grid_spans_box. cbn. repeat split; lra. Qed.

Lemma world_to_voxel_is_the_containing_cell_witness :
  exists vx vy vz : Z,
    StereoVoxelReconstructor.world_to_voxel StereoVoxelReconstructor.init
      (mkVec (105 / 1000) (205 / 1000) (305 / 1000)) = Some (vx, vy, vz) /\
    index_in_shape (100, 100, 100)%Z (vx, vy, vz) /\
    (- (25 / 100) + IZR vx * (1 / 100) <= 105 / 1000
     < - (25 / 100) + (IZR vx + 1) * (1 / 100)) /\
    (- (5 / 10) + IZR vy * (1 / 100) <= 205 / 1000
     < - (5 / 10) + (IZR vy + 1) * (1 / 100)) /\
    (0 + IZR vz * (1 / 100) <= 305 / 1000 < 0 + (IZR vz + 1) * (1 / 100)).
Proof.
  refine (world_to_voxel_is_the_containing_cell
            StereoVoxelReconstructor.init
            (mkVec (105 / 1000) (205 / 1000) (305 / 1000))
            init_grid_spans_box _).
  unfold inside_box. cbn. lra.
Defined.




(** ** Growth of the reconstructor's grid *)

Lemma grown_by_refl (g : grid) : grown_by g g 0.
Proof. intros i. lra. Qed.

Lemma grown_by_trans (g0 g1 g2 : grid) (j k : Z) :
  grown_by g0 g1 j -> grown_by g1 g2 k -> grown_by g0 g2 (j + k).
Proof.
  intros H1 H2 i. specialize (H1 i). specialize (H2 i).
  rewrite plus_IZR. lra.
Qed.

Lemma wrapped_confidence_bounds (int_l int_r : Z) :
  0 <= IZR ((int_l + int_r) mod 256) / (2 * 255) <= 1 / 2.
Proof.
  assert (H : (0 <= (int_l + int_r) mod 256 <= 255)%Z)
    by (pose proof (Z.mod_pos_bound (int_l + int_r) 256); lia).
  destruct H as (H0 & H1). apply IZR_le in H0, H1. lra.
Qed.

Lemma try_pair_growth (self : StereoVoxelReconstructor.t)
    (pl pr : StereoVoxelReconstructor.motion_pixel)
    (st : StereoVoxelReconstructor.state) (n : Z) :
  grown_by (StereoVoxelReconstructor.voxels st)
    (StereoVoxelReconstructor.voxels
       (fst (StereoVoxelReconstructor.try_pair self pl pr (st, n))))
    (snd (StereoVoxelReconstructor.try_pair self pl pr (st, n)) - n).
Proof.
  destruct pl as [[px_l py_l] int_l], pr as [[px_r py_r] int_r].
  unfold StereoVoxelReconstructor.try_pair.
  destruct (StereoVoxelReconstructor.triangulate_pixel_pair _ _ _ _ _)
    as [[point_3d error]|].
  - unfold StereoVoxelReconstructor.accumulate_voxel.
    destruct (StereoVoxelReconstructor.world_to_voxel self point_3d) as [v|].
    + cbn [fst snd StereoVoxelReconstructor.voxels].
      replace (n + 1 - n)%Z with 1%Z by lia.
      pose proof (wrapped_confidence_bounds int_l int_r) as Hc.
      intros i. unfold grid_add. destruct (idx_eqb v i); lra.
    + cbn [fst snd]. replace (n - n)%Z with 0%Z by lia. apply grown_by_refl.
  - cbn [fst snd]. replace (n - n)%Z with 0%Z by lia. apply grown_by_refl.
Qed.

Lemma pair_loops_growth (self : StereoVoxelReconstructor.t)
    (prs : list StereoVoxelReconstructor.motion_pixel) :
  (forall (pl : StereoVoxelReconstructor.motion_pixel)
          (ps : list StereoVoxelReconstructor.motion_pixel)
          (st : StereoVoxelReconstructor.state) (n : Z),
      let r := fold_left
                 (fun acc pr => StereoVoxelReconstructor.try_pair self pl pr acc)
                 ps (st, n) in
      grown_by (StereoVoxelReconstructor.voxels st)
               (StereoVoxelReconstructor.voxels (fst r)) (snd r - n))
  /\
  (forall (pls : list StereoVoxelReconstructor.motion_pixel)
          (st : StereoVoxelReconstructor.state) (n : Z),
      let r := fold_left
                 (fun acc pl =>
                    fold_left
                      (fun acc pr =>
                         StereoVoxelReconstructor.try_pair self pl pr acc)
                      prs acc)
                 pls (st, n) in
      grown_by (StereoVoxelReconstructor.voxels st)
               (StereoVoxelReconstructor.voxels (fst r)) (snd r - n)).
Proof.
  assert (Hinner :
    forall pl ps st n,
      let r := fold_left
                 (fun acc pr => StereoVoxelReconstructor.try_pair self pl pr acc)
                 ps (st, n) in
      grown_by (StereoVoxelReconstructor.voxels st)
               (StereoVoxelReconstructor.voxels (fst r)) (snd r - n)).
  { intros pl ps. induction ps as [|pr ps IH]; intros st n.
    - cbn. replace (n - n)%Z with 0%Z by lia. apply grown_by_refl.
    - cbn [fold_left]. cbv zeta.
      pose proof (try_pair_growth self pl pr st n) as H1.
      destruct (StereoVoxelReconstructor.try_pair self pl pr (st, n))
        as [st1 n1]. cbn [fst snd] in H1.
      specialize (IH st1 n1). cbv zeta in IH.
      pose proof (grown_by_trans _ _ _ _ _ H1 IH) as H.
      match goal with
      | |- grown_by _ _ ?k =>
          replace k with (n1 - n + (snd (fold_left
            (fun acc pr => StereoVoxelReconstructor.try_pair self pl pr acc)
            ps (st1, n1)) - n1))%Z by lia
      end.
      exact H. }
  split; [exact Hinner|].
  intros pls. induction pls as [|pl pls IH]; intros st n.
  - cbn. replace (n - n)%Z with 0%Z by lia. apply grown_by_refl.
  - cbn [fold_left]. cbv zeta.
    pose proof (Hinner pl prs st n) as H1. cbv zeta in H1.
    destruct (fold_left _ prs (st, n)) as [st1 n1]. cbn [fst snd] in H1.
    specialize (IH st1 n1). cbv zeta in IH.
    pose proof (grown_by_trans _ _ _ _ _ H1 IH) as H.
    match goal with
    | |- grown_by _ _ (snd ?r - n) =>
        replace (snd r - n)%Z with (n1 - n + (snd r - n1))%Z by lia
    end.
    exact H.
Qed.

(** X21. One call of [process_frame_pair] never lowers a cell, and raises a
    cell by at most half the number of voxel writes it reports: the two
    8-bit intensities are added as 8-bit numbers, so a confidence is at most
    255/510 = 0.5. *)
Theorem frame_pair_grows_cells_by_at_most_half_per_write
    (self : StereoVoxelReconstructor.t) (st : StereoVoxelReconstructor.state)
    (img_left img_right : image) (i : idx) :
  let st' :=
    fst (StereoVoxelReconstructor.process_frame_pair self st img_left img_right) in
  let n :=
    snd (StereoVoxelReconstructor.process_frame_pair self st img_left img_right) in
  StereoVoxelReconstructor.voxels st i
  <= StereoVoxelReconstructor.voxels st' i
  <= StereoVoxelReconstructor.voxels st i + IZR n / 2.
Proof.
  cbv zeta. unfold StereoVoxelReconstructor.process_frame_pair. cbv zeta.
  set (st0 := StereoVoxelReconstructor.mkState _ _ _ _ _ _).
  assert (Hsame : StereoVoxelReconstructor.voxels st0
                  = StereoVoxelReconstructor.voxels st) by reflexivity.
  destruct (StereoVoxelReconstructor.detect_motion_pixels self img_left _ _)
    as [|pl pls].
  { cbn [fst snd]. rewrite Hsame. lra. }
  destruct (StereoVoxelReconstructor.detect_motion_pixels self img_right _ _)
    as [|pr prs].
  { cbn [fst snd]. rewrite Hsame. lra. }
  pose proof (proj2 (pair_loops_growth self (firstn 50 (pr :: prs)))
                (firstn 50 (pl :: pls)) st0 0%Z) as H.
  cbv zeta in H. specialize (H i). rewrite Hsame in H.
  rewrite Z.sub_0_r in H. exact H.
Qed.

(** ** The configuration loader *)

(** X22. [CameraConfig.get_direction_vector] returns the vector (cos pitch cos
    yaw, sin pitch, cos pitch sin yaw) itself, which already has length 1, so
    the division by the norm changes nothing; a pitch of 90 degrees gives
    (0,1,0) and yaw = pitch = 0 gives (1,0,0), as the docstring says. *)
Theorem camera_direction_is_unit_and_follows_its_convention
    (cam : ConfigLoader.CameraConfig) :
  let yaw_rad := ConfigLoader.radians (ConfigLoader.yaw cam) in
  let pitch_rad := ConfigLoader.radians (ConfigLoader.pitch cam) in
  let direction := ConfigLoader.get_direction_vector cam in
  direction = mkVec (cos pitch_rad * cos yaw_rad) (sin pitch_rad)
                    (cos pitch_rad * sin yaw_rad) /\
  dot direction direction = 1 /\
  (ConfigLoader.pitch cam = 90 -> direction = mkVec 0 1 0) /\
  (ConfigLoader.pitch cam = 0 -> ConfigLoader.yaw cam = 0 ->
   direction = mkVec 1 0 0).
Proof.
  intros yaw_rad pitch_rad direction.
  set (d := mkVec (cos pitch_rad * cos yaw_rad) (sin pitch_rad)
                  (cos pitch_rad * sin yaw_rad)).
  assert (Hd : dot d d = 1).
  { unfold d, dot. cbn [vec_x vec_y vec_z].
    pose proof (sin2_cos2 pitch_rad) as Hp.
    pose proof (sin2_cos2 yaw_rad) as Hy. unfold Rsqr in Hp, Hy.
    replace (cos pitch_rad * cos yaw_rad * (cos pitch_rad * cos yaw_rad)
             + sin pitch_rad * sin pitch_rad
             + cos pitch_rad * sin yaw_rad * (cos pitch_rad * sin yaw_rad))
      with (cos pitch_rad * cos pitch_rad
            * (sin yaw_rad * sin yaw_rad + cos yaw_rad * cos yaw_rad)
            + sin pitch_rad * sin pitch_rad) by ring.
    rewrite Hy. lra. }
  assert (Heq : direction = d).
  { unfold direction, ConfigLoader.get_direction_vector. cbv zeta.
    fold yaw_rad pitch_rad. fold d. now apply vdiv_unit. }
  split; [exact Heq|]. split; [now rewrite Heq|]. split.
  - intros Hp. rewrite Heq. unfold d, pitch_rad, ConfigLoader.radians.
    rewrite Hp. replace (90 * (PI / 180)) with (PI / 2) by field.
    rewrite cos_PI2, sin_PI2. apply vec3_eq; ring.
  - intros Hp Hy. rewrite Heq. unfold d, pitch_rad, yaw_rad, ConfigLoader.radians.
    rewrite Hp, Hy, !Rmult_0_l, cos_0, sin_0. apply vec3_eq; ring.
Qed.

Lemma string_eqb_eq (a b : String.string) : String.eqb a b = true <-> a = b.
Proof. apply String.eqb_eq. Qed.

(** X23. [SystemConfig.get_camera_by_id] returns the first camera of the list
    whose id is the one asked for, and raises (here: [None]) exactly when no
    camera has that id. *)
Theorem camera_lookup_finds_the_first_match
    (cameras : list ConfigLoader.CameraConfig) (camera_id : String.string) :
  match ConfigLoader.get_camera_by_id cameras camera_id with
  | Some cam =>
      exists before after : list ConfigLoader.CameraConfig,
        cameras = before ++ cam :: after /\
        ConfigLoader.id cam = camera_id /\
        Forall (fun c => ConfigLoader.id c <> camera_id) before
  | None => Forall (fun c => ConfigLoader.id c <> camera_id) cameras
  end.
Proof.
  induction cameras as [|c cameras IH]; cbn [ConfigLoader.get_camera_by_id].
  - constructor.
  - destruct (String.eqb (ConfigLoader.id c) camera_id) eqn:Hc.
    + apply string_eqb_eq in Hc. exists [], cameras. auto.
    + assert (Hne : ConfigLoader.id c <> camera_id).
      { intros E. apply string_eqb_eq in E. congruence. }
      destruct (ConfigLoader.get_camera_by_id cameras camera_id) as [cam|].
      * destruct IH as (before & after & -> & Hid & Hall).
        exists (c :: before), after. auto.
      * now constructor.
Qed.

Lemma camera_direction_is_unit_and_follows_its_convention_witness :
  ConfigLoader.get_direction_vector
    (ConfigLoader.mkCamera String.EmptyString (mkVec 0 0 0) 0 90 0 0)
  = mkVec 0 1 0.
Proof.
  refine (proj1 (proj2 (proj2
            (camera_direction_is_unit_and_follows_its_convention
               (ConfigLoader.mkCamera String.EmptyString (mkVec 0 0 0) 0 90 0 0)))) _).
  reflexivity.
Defined.
